(** * Orthanc REST dispatch core: [RestApi.cpp]

    A shallow embedding of [OrthancFramework/Sources/RestApi/RestApi.cpp]:
    the live-dispatch visitor [HttpHandlerVisitor], the documentation
    visitor [OpenApiVisitor], [MethodsToString], [RestApi::Handle] and
    [RestApi::GenerateOpenApiDocumentation].

    Stateful C++ is rendered with an explicit state-and-exception monad.
    Calls made on collaborators that live outside this translation unit
    (the HTTP output, the logger, the registered handlers) are recorded
    as events of a trace, in program order. *)

From Stdlib Require Import ZArith QArith Qround Qpower Lqa Ascii SpecFloat.
From stdpp Require Import base gmap strings list.

Open Scope Z_scope.
Open Scope string_scope.
Open Scope list_scope.

(** ** Plain data *)

(** [Json::Value], restricted to the kinds of value this file builds or
    stores.  Objects are keyed maps, as in jsoncpp. *)
#[warnings="-register-all"]
Inductive Json : Type :=
| JsonNull
| JsonBool (b : bool)
| JsonInt (n : Z)
| JsonString (s : string)
| JsonArray (items : list Json)
| JsonObject (members : gmap string Json).

(** Modelled from the spec: [enum HttpMethod] is declared in
    [Enumerations.h], which is absent.  The spec gives a node "zero or one
    handler per HTTP method from {GET, POST, PUT, DELETE}", and these are
    the four enumerators the source names. *)
Inductive HttpMethod : Type :=
| HttpMethod_Get
| HttpMethod_Post
| HttpMethod_Delete
| HttpMethod_Put.

#[global] Instance HttpMethod_eq_dec : EqDecision HttpMethod.
Proof. solve_decision. Defined.

Definition HttpMethod_code (m : HttpMethod) : nat :=
  match m with
  | HttpMethod_Get => 0
  | HttpMethod_Post => 1
  | HttpMethod_Delete => 2
  | HttpMethod_Put => 3
  end%nat.

Definition HttpMethod_of_code (n : nat) : option HttpMethod :=
  match n with
  | 0 => Some HttpMethod_Get
  | 1 => Some HttpMethod_Post
  | 2 => Some HttpMethod_Delete
  | 3 => Some HttpMethod_Put
  | _ => None
  end%nat.

#[global] Instance HttpMethod_countable : Countable HttpMethod.
Proof.
  apply (inj_countable HttpMethod_code HttpMethod_of_code).
  intros m. destruct m; reflexivity.
Defined.

(** [UriComponents] is a vector of path segments, [HttpToolbox::Arguments]
    a [std::map<std::string, std::string>], and
    [HttpToolbox::GetArguments] a vector of key/value pairs. *)
Abbreviation UriComponents := (list string).
Abbreviation Arguments := (gmap string string).
Abbreviation GetArguments := (list (string * string)).

(** Modelled from the spec: [enum RequestOrigin] is absent; the source only
    names [RequestOrigin_Documentation].  Any other enumerator is kept by
    its numeric code. *)
Inductive RequestOrigin : Type :=
| RequestOrigin_Documentation
| RequestOrigin_Client (code : N).

(** Modelled from the spec: [enum ErrorCode] is absent; the source names
    only [ErrorCode_InternalError].  Any other code is kept by its
    number. *)
Inductive ErrorCode : Type :=
| ErrorCode_InternalError
| ErrorCode_Other (code : Z).

(** What a C++ call can raise here: the two exception classes that
    [OpenApiVisitor::Visit] catches ([OrthancException] with its error
    code, [boost::bad_lexical_cast]), and any other class, which no
    handler of this file catches. *)
Inductive Exception : Type :=
| OrthancException (code : ErrorCode)
| bad_lexical_cast
| other_exception (what : string).

Inductive Outcome (A : Type) : Type :=
| Ret (a : A)
| Throw (e : Exception).
Arguments Ret {A} a.
Arguments Throw {A} e.

(** ** The state-and-exception monad *)

Definition M (S A : Type) : Type := S -> Outcome A * S.

Definition ret {S A} (a : A) : M S A := fun s => (Ret a, s).

Definition throw {S A} (e : Exception) : M S A := fun s => (Throw e, s).

Definition bind {S A B} (m : M S A) (k : A -> M S B) : M S B :=
  fun s =>
    match m s with
    | (Ret a, s') => k a s'
    | (Throw e, s') => (Throw e, s')
    end.

Definition modify {S} (f : S -> S) : M S unit := fun s => (Ret tt, f s).

Definition gets {S A} (f : S -> A) : M S A := fun s => (Ret (f s), s).

(** [try { body } catch (OrthancException&) { } catch
    (boost::bad_lexical_cast&) { }]: the two classes are swallowed and the
    fallback value is produced; the state reached when the exception was
    raised is kept.  Any other exception goes through. *)
Definition is_caught (e : Exception) : bool :=
  match e with
  | OrthancException _ => true
  | bad_lexical_cast => true
  | other_exception _ => false
  end.

Definition try_catch {S A} (body : M S A) (fallback : A) : M S A :=
  fun s =>
    match body s with
    | (Ret a, s') => (Ret a, s')
    | (Throw e, s') => if is_caught e then (Ret fallback, s') else (Throw e, s')
    end.

Declare Scope cpp_scope.
Delimit Scope cpp_scope with cpp.
Notation "x <- c1 ;; c2" := (bind c1 (fun x => c2))
  (at level 100, c1 at next level, right associativity) : cpp_scope.
Notation "c1 ;; c2" := (bind c1 (fun _ => c2))
  (at level 100, right associativity) : cpp_scope.
Open Scope cpp_scope.

(** ** [size_t] *)

(** A [size_t] is taken 64 bits wide (LP64 and LLP64 platforms); [++]
    wraps around. *)
Definition SIZE_WIDTH : Z := 64.

Definition size_t_incr (n : Z) : Z := (n + 1) mod 2 ^ SIZE_WIDTH.

(** [k] increments of a [size_t]. *)
Definition size_t_add (n k : Z) : Z := (n + k) mod 2 ^ SIZE_WIDTH.

(** ** [float], [unsigned int] and [std::string::c_str()] *)

(** A [float] is an IEEE 754 binary32 number: 24 bits of precision,
    exponents below 128.  Each operation is rounded to nearest, ties to
    even, and to [float] itself ([FLT_EVAL_METHOD] 0, as on x86-64 and
    AArch64).  The operations are those of the specification of
    floating-point arithmetic of the standard library. *)
Definition float_mul (x y : spec_float) : spec_float := SFmul 24 128 x y.

Definition float_div (x y : spec_float) : spec_float := SFdiv 24 128 x y.

(** [static_cast<float>(n)] for an integer [n]. *)
Definition static_cast_float (n : Z) : spec_float :=
  binary_normalize 24 128 n 0 false.

(** The literal [100.0f]. *)
Definition float_100 : spec_float := static_cast_float 100.

(** The number a finite [float] stands for. *)
Definition float_value (x : spec_float) : Q :=
  match x with
  | S754_finite s m e => (if s then -1 else 1) * inject_Z (Zpos m) * 2 ^ e
  | _ => 0
  end.

(** [static_cast<unsigned int>(n)] for an [int] [n]: 32 bits wide. *)
Definition static_cast_unsigned_int (n : Z) : Z := n mod 2 ^ 32.

(** [std::string(s.c_str())]: a C string ends at the first NUL. *)
Fixpoint c_str (s : string) : string :=
  match s with
  | EmptyString => EmptyString
  | String c rest =>
      if Ascii.eqb c Ascii.zero then EmptyString else String c (c_str rest)
  end.

(** ** [AddMethod] and [MethodsToString] (lines 355-389) *)

Definition AddMethod (target method : string) : string :=
  if (0 <? Z.of_nat (String.length target))%Z
  then target +:+ ("," +:+ method)
  else method.

Definition MethodsToString (methods : gset HttpMethod) : string :=
  let s := "" in
  let s := if decide (HttpMethod_Get ∈ methods) then AddMethod s "GET" else s in
  let s := if decide (HttpMethod_Post ∈ methods) then AddMethod s "POST" else s in
  let s := if decide (HttpMethod_Put ∈ methods) then AddMethod s "PUT" else s in
  let s := if decide (HttpMethod_Delete ∈ methods) then AddMethod s "DELETE" else s in
  s.

(** The Allow header as the spec words it: the accepted methods, in the
    canonical order GET, POST, PUT, DELETE, joined by single commas. *)
Definition canonical_order : list HttpMethod :=
  [HttpMethod_Get; HttpMethod_Post; HttpMethod_Put; HttpMethod_Delete].

Definition method_name (m : HttpMethod) : string :=
  match m with
  | HttpMethod_Get => "GET"
  | HttpMethod_Post => "POST"
  | HttpMethod_Put => "PUT"
  | HttpMethod_Delete => "DELETE"
  end.

Definition allow_header (methods : gset HttpMethod) : string :=
  String.concat ","
    (map method_name (filter (fun m => m ∈ methods) canonical_order)).

(** ** Collaborators declared outside [RestApi.cpp] *)

(** Functions, types and macros that [RestApi.cpp] uses and whose
    definitions live in other files of the framework.  They are taken as
    parameters: every theorem below holds for any choice of them.
    - [World]: whatever the registered handlers read and write (database,
      HTTP stream, plugin state);
    - [RestApiCallDocumentation]: the record a handler fills in when it is
      called in documentation mode, returned by [call.GetDocumentation()];
    - [FormatOpenApi doc names]: [doc.FormatOpenApi(v, names)]; [Ret (Some
      v)] is "returned true and stored [v]", [Ret None] is "returned
      false";
    - [FlattenUri], [CompileGetArguments], [EnumerationToString]: the
      helpers of [Toolbox], [HttpToolbox] and [Enumerations];
    - [ORTHANC_ENABLE_PUGIXML]: the build macro tested at line 418. *)
Class Collaborators : Type := {
  World : Type;
  RestApiCallDocumentation : Type;
  FreshDocumentation : RestApiCallDocumentation;
  FormatOpenApi :
    RestApiCallDocumentation -> gset string -> Outcome (option Json);
  FlattenUri : UriComponents -> string;
  CompileGetArguments : GetArguments -> Arguments;
  EnumerationToString : HttpMethod -> string;
  ORTHANC_ENABLE_PUGIXML : Z
}.

(** Modelled from the spec: [MIME_XML] and [MIME_JSON] are constants of
    [Enumerations.h] (absent); the spec's negotiation examples spell the
    two media-type tokens. *)
Definition MIME_XML : string := "application/xml".
Definition MIME_JSON : string := "application/json".

(** Modelled from the spec: [Toolbox::TokenizeString] is in [Toolbox.cpp]
    (absent); the spec says the header is tokenized on the separator. *)
Fixpoint TokenizeString_from (current value : string) (separator : Ascii.ascii)
  : list string :=
  match value with
  | EmptyString => [current]
  | String c rest =>
      if decide (c = separator)
      then current :: TokenizeString_from "" rest separator
      else TokenizeString_from (current +:+ String c "") rest separator
  end.

Definition TokenizeString (value : string) (separator : Ascii.ascii)
  : list string :=
  TokenizeString_from "" value separator.

(** ** Outputs, calls and events *)

(** Modelled from the spec: [RestApiOutput] (absent header) wraps the HTTP
    output for one method and carries the negotiated JSON-to-XML flag;
    the spec's default encoding is JSON. *)
Record RestApiOutput : Type := {
  output_method_ : HttpMethod;
  convertJsonToXml_ : bool
}.

Definition RestApiOutput_new (method : HttpMethod) : RestApiOutput :=
  {| output_method_ := method; convertJsonToXml_ := false |}.

Definition SetConvertJsonToXml (convert : bool) (o : RestApiOutput)
  : RestApiOutput :=
  {| output_method_ := output_method_ o; convertJsonToXml_ := convert |}.

(** Modelled from the spec: the call classes are declared in absent
    headers.  "A handler receives a call context exposing bound
    arguments, trailing segments, query arguments, headers, raw body
    bytes (for POST/PUT), and an output sink."  The fields are the
    arguments the source passes to the four constructors, in that order
    (the [RestApi&] context apart, which is the object this file
    models). *)
Record CallContext : Type := {
  call_output : RestApiOutput;
  call_origin : RequestOrigin;
  call_remoteIp : string;
  call_username : string;
  call_httpHeaders : Arguments;
  call_uriComponents : Arguments;
  call_trailing : UriComponents;
  call_fullUri : UriComponents
}.

(** A body is the pair [(bodyData, bodySize)]; [NULL, 0] is the empty
    string. *)
Inductive RestApiCall : Type :=
| RestApiGetCall (c : CallContext) (getArguments : Arguments)
| RestApiPostCall (c : CallContext) (body : string)
| RestApiDeleteCall (c : CallContext)
| RestApiPutCall (c : CallContext) (body : string).

Definition call_context (call : RestApiCall) : CallContext :=
  match call with
  | RestApiGetCall c _ => c
  | RestApiPostCall c _ => c
  | RestApiDeleteCall c => c
  | RestApiPutCall c _ => c
  end.

Definition call_method (call : RestApiCall) : HttpMethod :=
  match call with
  | RestApiGetCall _ _ => HttpMethod_Get
  | RestApiPostCall _ _ => HttpMethod_Post
  | RestApiDeleteCall _ => HttpMethod_Delete
  | RestApiPutCall _ _ => HttpMethod_Put
  end.

Inductive LogLevel : Type := LOG_WARNING | LOG_INFO.

(** One [<<] operand of a log line. *)
Inductive LogItem : Type :=
| LogText (s : string)
| LogNumber (n : Z).

(** Calls made on collaborators, in program order. *)
Inductive Event : Type :=
| EvHandle (call : RestApiCall)
| EvLog (level : LogLevel) (line : list LogItem)
| EvFinalize (wrappedOutput : RestApiOutput)
| EvSendMethodNotAllowed (allow : string).

Section Model.
Context `{Collaborators}.

Record State : Type := {
  world : World;
  trace : list Event
}.

Definition record_event (s : State) (e : Event) : State :=
  {| world := world s; trace := trace s ++ [e] |}.

Definition emit (e : Event) : M State unit :=
  modify (fun s => record_event s e).

(** A registered handler: it receives the call, acts on the world, and
    either returns (leaving the call's documentation record as given) or
    raises. *)
Definition Handler : Type :=
  RestApiCall -> World -> Outcome RestApiCallDocumentation * World.

(** Modelled from the spec: [RestApiHierarchy::Resource] is declared in
    [RestApiHierarchy.h] (absent).  "ResourceNode owns zero or one handler
    per HTTP method". *)
Record Resource : Type := {
  getHandler_ : option Handler;
  postHandler_ : option Handler;
  deleteHandler_ : option Handler;
  putHandler_ : option Handler
}.

Definition handler_of (resource : Resource) (method : HttpMethod)
  : option Handler :=
  match method with
  | HttpMethod_Get => getHandler_ resource
  | HttpMethod_Post => postHandler_ resource
  | HttpMethod_Delete => deleteHandler_ resource
  | HttpMethod_Put => putHandler_ resource
  end.

(** Modelled from the spec: [Resource::HasHandler] and
    [Resource::IsEmpty] (absent) test the presence of a handler. *)
Definition HasHandler (resource : Resource) (method : HttpMethod) : bool :=
  match handler_of resource method with
  | Some _ => true
  | None => false
  end.

Definition IsEmpty (resource : Resource) : bool :=
  negb (HasHandler resource HttpMethod_Get)
  && negb (HasHandler resource HttpMethod_Post)
  && negb (HasHandler resource HttpMethod_Delete)
  && negb (HasHandler resource HttpMethod_Put).

(** Running a handler on the current world. *)
Definition run_handler (h : Handler) (call : RestApiCall)
  : M State RestApiCallDocumentation :=
  fun s =>
    let (r, w) := h call (world s) in
    (r, {| world := w; trace := trace s |}).

(** Modelled from the spec: [Resource::Handle] (absent).  The overload
    is picked by the call's class; the registered handler, if any, is
    invoked and [true] is returned.  The second component is the call's
    documentation record afterwards, [call.GetDocumentation()]. *)
Definition Resource_Handle (resource : Resource) (call : RestApiCall)
  : M State (bool * RestApiCallDocumentation) :=
  match handler_of resource (call_method call) with
  | Some h =>
      emit (EvHandle call) ;;
      doc <- run_handler h call ;;
      ret (true, doc)
  | None => ret (false, FreshDocumentation)
  end.

(** ** [HttpHandlerVisitor] (lines 39-126) *)

Record HttpHandlerVisitor : Type := {
  output_ : RestApiOutput;
  origin_ : RequestOrigin;
  remoteIp_ : string;
  username_ : string;
  method_ : HttpMethod;
  headers_ : Arguments;
  getArguments_ : Arguments;
  body_ : string
}.

Definition live_context (v : HttpHandlerVisitor) (components : Arguments)
  (trailing uri : UriComponents) : CallContext :=
  {| call_output := output_ v;
     call_origin := origin_ v;
     call_remoteIp := remoteIp_ v;
     call_username := username_ v;
     call_httpHeaders := headers_ v;
     call_uriComponents := components;
     call_trailing := trailing;
     call_fullUri := uri |}.

(** [Visit] (lines 77-125).  The [default] branch of the [switch] has no
    counterpart: the four enumerators are all the values of
    [HttpMethod].  Nothing is caught: what the handler raises leaves
    [Visit]. *)
Definition HttpHandlerVisitor_Visit (v : HttpHandlerVisitor)
  (resource : Resource) (uri : UriComponents) (hasTrailing : bool)
  (components : Arguments) (trailing : UriComponents) : M State bool :=
  if HasHandler resource (method_ v) then
    match method_ v with
    | HttpMethod_Get =>
        let call :=
          RestApiGetCall (live_context v components trailing uri)
            (getArguments_ v) in
        Resource_Handle resource call ;;
        ret true
    | HttpMethod_Post =>
        let call :=
          RestApiPostCall (live_context v components trailing uri)
            (body_ v) in
        Resource_Handle resource call ;;
        ret true
    | HttpMethod_Delete =>
        let call :=
          RestApiDeleteCall (live_context v components trailing uri) in
        Resource_Handle resource call ;;
        ret true
    | HttpMethod_Put =>
        let call :=
          RestApiPutCall (live_context v components trailing uri)
            (body_ v) in
        Resource_Handle resource call ;;
        ret true
    end
  else ret false.

(** ** The visitor interface and visitor-local state *)

(** [RestApiHierarchy::IVisitor]: a visitor object of class [V] is
    threaded through the traversal together with the global state. *)
Class IVisitor (V : Type) : Type :=
  Visit : Resource -> UriComponents -> bool -> Arguments -> UriComponents ->
          M (V * State) bool.

Definition on_state {V A} (m : M State A) : M (V * State) A :=
  fun vs =>
    let (r, s') := m (snd vs) in
    (r, (fst vs, s')).

Definition on_visitor {V} (f : V -> V) : M (V * State) unit :=
  modify (fun vs => (f (fst vs), snd vs)).

Definition lift_outcome {S A} (r : Outcome A) : M S A := fun s => (r, s).

#[global] Instance HttpHandlerVisitor_IVisitor : IVisitor HttpHandlerVisitor :=
  fun resource uri hasTrailing components trailing vs =>
    on_state
      (HttpHandlerVisitor_Visit (fst vs) resource uri hasTrailing
         components trailing) vs.

(** ** [OpenApiVisitor] (lines 130-350) *)

Record OpenApiVisitor : Type := {
  paths_ : gmap string (gmap string Json);
  successPathsCount_ : Z;
  totalPathsCount_ : Z
}.

Definition OpenApiVisitor_new : OpenApiVisitor :=
  {| paths_ := ∅; successPathsCount_ := 0; totalPathsCount_ := 0 |}.

Definition GetPaths (v : OpenApiVisitor) : Json :=
  JsonObject (JsonObject <$> paths_ v).

Definition GetSuccessPathsCount (v : OpenApiVisitor) : Z :=
  successPathsCount_ v.

Definition GetTotalPathsCount (v : OpenApiVisitor) : Z := totalPathsCount_ v.

(** [totalPathsCount_ ++] *)
Definition incr_total (v : OpenApiVisitor) : OpenApiVisitor :=
  {| paths_ := paths_ v;
     successPathsCount_ := successPathsCount_ v;
     totalPathsCount_ := size_t_incr (totalPathsCount_ v) |}.

(** [paths_[path][key] = v; successPathsCount_ ++;]  Indexing a missing
    member of a jsoncpp object creates it. *)
Definition record_path (path key : string) (fragment : Json)
  (v : OpenApiVisitor) : OpenApiVisitor :=
  {| paths_ :=
       <[path := <[key := fragment]> (default ∅ (paths_ v !! path))]>
         (paths_ v);
     successPathsCount_ := size_t_incr (successPathsCount_ v);
     totalPathsCount_ := totalPathsCount_ v |}.

(** The key under which a node is documented (lines 153-157). *)
Definition documentation_path (uri : UriComponents) (hasTrailing : bool)
  : string :=
  let path := FlattenUri uri in
  if hasTrailing then path +:+ "/{...}" else path.

(** The condition of the [assert] at line 170: every bound value is
    empty.  An [assert] compiles to nothing under [NDEBUG]; rather than
    a step of the loop, it is a condition on the caller, proved to hold
    at every call the exploration makes. *)
Definition components_assertion (components : Arguments) : bool :=
  bool_decide (map_Forall (fun _ value => value = "") components).

(** The loop of lines 167-173 and the block of lines 175-179.  Line 171
    inserts [it->first.c_str()], the name up to its first NUL; line 172
    indexes by the whole name. *)
Definition collect_uri_arguments (components : Arguments)
  (hasTrailing : bool) : gset string * Arguments :=
  let r :=
    map_fold
      (fun name (_ : string) (acc : gset string * Arguments) =>
         ({[c_str name]} ∪ fst acc, <[name := ""]> (snd acc)))
      (∅, ∅) components in
  if hasTrailing
  then ({["..."]} ∪ fst r, <["..." := ""]> (snd r))
  else r.

(** The arguments of the synthetic call built for one method (lines
    185-191, 223-229, 261-266, 298-304): fresh output, documentation
    origin, empty remote address, user name, headers and trailing
    segments. *)
Definition documentation_context (method : HttpMethod)
  (uriArguments : Arguments) (uri : UriComponents) : CallContext :=
  {| call_output := RestApiOutput_new method;
     call_origin := RequestOrigin_Documentation;
     call_remoteIp := "";
     call_username := "";
     call_httpHeaders := ∅;
     call_uriComponents := uriArguments;
     call_trailing := [];
     call_fullUri := uri |}.

(** [ok = (resource.Handle(call) &&
          call.GetDocumentation().FormatOpenApi(v, uriArgumentsNames))]
    inside the [try]: [Some v] stands for [ok == true] with [v] filled. *)
Definition dry_run (resource : Resource) (call : RestApiCall)
  (uriArgumentsNames : gset string) : M (OpenApiVisitor * State) (option Json) :=
  try_catch
    (r <- on_state (Resource_Handle resource call) ;;
     if fst r
     then lift_outcome (FormatOpenApi (snd r) uriArgumentsNames)
     else ret None)
    None.

(** [Visit] (lines 147-333). *)
Definition OpenApiVisitor_Visit (resource : Resource) (uri : UriComponents)
  (hasTrailing : bool) (components : Arguments) (trailing : UriComponents)
  : M (OpenApiVisitor * State) bool :=
  let path := documentation_path uri hasTrailing in
  paths <- gets (fun vs => paths_ (fst vs)) ;;
  if decide (is_Some (paths !! path)) then
    throw (OrthancException ErrorCode_InternalError)
  else
    let uriArgumentsNames := fst (collect_uri_arguments components hasTrailing) in
    let uriArguments := snd (collect_uri_arguments components hasTrailing) in
    (if HasHandler resource HttpMethod_Get then
       on_visitor incr_total ;;
       let call :=
         RestApiGetCall
           (documentation_context HttpMethod_Get uriArguments uri) ∅ in
       ok <- dry_run resource call uriArgumentsNames ;;
       match ok with
       | Some v => on_visitor (record_path path "get" v)
       | None =>
           on_state
             (emit (EvLog LOG_WARNING
                      [LogText "Ignoring URI without API documentation: GET ";
                       LogText path]))
       end
     else ret tt) ;;
    (if HasHandler resource HttpMethod_Post then
       on_visitor incr_total ;;
       let call :=
         RestApiPostCall
           (documentation_context HttpMethod_Post uriArguments uri) "" in
       ok <- dry_run resource call uriArgumentsNames ;;
       match ok with
       | Some v => on_visitor (record_path path "post" v)
       | None =>
           on_state
             (emit (EvLog LOG_WARNING
                      [LogText "Ignoring URI without API documentation: POST ";
                       LogText path]))
       end
     else ret tt) ;;
    (if HasHandler resource HttpMethod_Delete then
       on_visitor incr_total ;;
       let call :=
         RestApiDeleteCall
           (documentation_context HttpMethod_Delete uriArguments uri) in
       ok <- dry_run resource call uriArgumentsNames ;;
       match ok with
       | Some v => on_visitor (record_path path "delete" v)
       | None =>
           on_state
             (emit (EvLog LOG_WARNING
                      [LogText "Ignoring URI without API documentation: DELETE ";
                       LogText path]))
       end
     else ret tt) ;;
    (if HasHandler resource HttpMethod_Put then
       on_visitor incr_total ;;
       let call :=
         RestApiPutCall
           (documentation_context HttpMethod_Put uriArguments uri) "" in
       ok <- dry_run resource call uriArgumentsNames ;;
       match ok with
       | Some v => on_visitor (record_path path "put" v)
       | None =>
           on_state
             (emit (EvLog LOG_WARNING
                      [LogText "Ignoring URI without API documentation: PUT ";
                       LogText path]))
       end
     else ret tt) ;;
    ret true.

#[global] Instance OpenApiVisitor_IVisitor : IVisitor OpenApiVisitor :=
  OpenApiVisitor_Visit.

(** ** The dispatch trie *)

(** Modelled from the spec: [RestApiHierarchy] is defined in
    [RestApiHierarchy.cpp] (absent).  Per the spec's data model a node
    owns its per-method handlers, child nodes keyed by literal segment,
    at most one named-capture child, and a trailing-wildcard flag. *)
#[warnings="-register-all"]
Inductive RestApiHierarchy : Type :=
| Node (handlers_ : Resource) (trailing_ : bool)
       (children_ : list (string * RestApiHierarchy))
       (capture_ : option (string * RestApiHierarchy)).

Fixpoint find_child (segment : string)
  (children : list (string * RestApiHierarchy)) : option RestApiHierarchy :=
  match children with
  | [] => None
  | (key, child) :: rest =>
      if decide (key = segment) then Some child else find_child segment rest
  end.

(** Modelled from the spec: resolution ([RestApiHierarchy::LookupResource],
    absent).  At each depth it tries the literal child, then the capture
    child (binding the segment), then the trailing wildcard (binding what
    is left); when the segments are exhausted at a node that holds a
    handler it returns what the visitor answers. *)
Fixpoint LookupResource_from {V} `{IVisitor V} (node : RestApiHierarchy)
  (uri : UriComponents) (components : Arguments) (remaining : UriComponents)
  {struct remaining} : M (V * State) bool :=
  match node with
  | Node handlers trailing children capture =>
      match remaining with
      | [] =>
          if IsEmpty handlers then ret false
          else Visit handlers uri trailing components []
      | segment :: rest =>
          literal <-
            match find_child segment children with
            | Some child => LookupResource_from child uri components rest
            | None => ret false
            end ;;
          if literal : bool then ret true else
          captured <-
            match capture with
            | Some (name, child) =>
                LookupResource_from child uri
                  (<[name := segment]> components) rest
            | None => ret false
            end ;;
          if captured : bool then ret true else
          if trailing && negb (IsEmpty handlers)
          then Visit handlers uri true components remaining
          else ret false
      end
  end.

Definition LookupResource {V} `{IVisitor V} (root : RestApiHierarchy)
  (uri : UriComponents) : M (V * State) bool :=
  LookupResource_from root uri ∅ uri.

(** Modelled from the spec: [RestApiHierarchy::GetAcceptedMethods]
    (absent), "a structural-only walk (same precedence rule) that, upon
    reaching the terminal node, returns the set of methods with a
    registered handler there". *)
Fixpoint terminal_node (node : RestApiHierarchy) (remaining : UriComponents)
  {struct remaining} : option Resource :=
  match node with
  | Node handlers trailing children capture =>
      match remaining with
      | [] => Some handlers
      | segment :: rest =>
          match
            match find_child segment children with
            | Some child => terminal_node child rest
            | None => None
            end
          with
          | Some found => Some found
          | None =>
              match
                match capture with
                | Some (_, child) => terminal_node child rest
                | None => None
                end
              with
              | Some found => Some found
              | None => if trailing then Some handlers else None
              end
          end
      end
  end.

Definition registered_methods (resource : Resource) : gset HttpMethod :=
  list_to_set
    (filter (fun m => HasHandler resource m = true)
       [HttpMethod_Get; HttpMethod_Post; HttpMethod_Delete; HttpMethod_Put]).

Definition GetAcceptedMethods (root : RestApiHierarchy) (uri : UriComponents)
  : gset HttpMethod :=
  match terminal_node root uri with
  | Some resource => registered_methods resource
  | None => ∅
  end.

(** One call of [Visit] made by the exploration. *)
Record Visited : Type := {
  visited_resource : Resource;
  visited_uri : UriComponents;
  visited_hasTrailing : bool;
  visited_components : Arguments;
  visited_trailing : UriComponents
}.

(** Modelled from the spec: the nodes [ExploreAllResources] (absent)
    walks, "a full pre-order traversal of every node that holds at least
    one handler", capture segments being rendered [{name}] and capture
    names bound to placeholder empty values. *)
Fixpoint AllResources (node : RestApiHierarchy) (path : UriComponents)
  (uriArguments : gset string) {struct node} : list Visited :=
  match node with
  | Node handlers trailing children capture =>
      ((if IsEmpty handlers then []
        else [ {| visited_resource := handlers;
                  visited_uri := path;
                  visited_hasTrailing := trailing;
                  visited_components := gset_to_gmap "" uriArguments;
                  visited_trailing := [] |} ])
       ++ (fix over_children (cs : list (string * RestApiHierarchy))
             : list Visited :=
             match cs with
             | [] => []
             | (segment, child) :: rest =>
                 AllResources child (path ++ [segment]) uriArguments
                 ++ over_children rest
             end) children
       ++ match capture with
          | Some (name, child) =>
              AllResources child (path ++ [("{" +:+ name +:+ "}")%string])
                ({[name]} ∪ uriArguments)
          | None => []
          end)%list
  end.

(** Modelled from the spec: [RestApiHierarchy::ExploreAllResources]
    (absent), "invoking the visitor once per node"; an exception raised
    by the visitor ends the walk.  The theorems below use nothing else
    of the exploration than this: it is a sequence of [Visit] calls. *)
Fixpoint VisitAll {V} `{IVisitor V} (nodes : list Visited)
  : M (V * State) unit :=
  match nodes with
  | [] => ret tt
  | n :: rest =>
      Visit (visited_resource n) (visited_uri n) (visited_hasTrailing n)
        (visited_components n) (visited_trailing n) ;;
      VisitAll rest
  end.

Definition ExploreAllResources {V} `{IVisitor V} (node : RestApiHierarchy)
  (path : UriComponents) (uriArguments : gset string) : M (V * State) unit :=
  VisitAll (AllResources node path uriArguments).

(** Running a computation of a visitor on a visitor object held in a
    local variable of the caller. *)
Definition with_visitor {V A} (visitor : V) (m : M (V * State) A)
  : M State (A * V) :=
  fun s =>
    match m (visitor, s) with
    | (Ret a, (visitor', s')) => (Ret (a, visitor'), s')
    | (Throw e, (_, s')) => (Throw e, s')
    end.

(** ** [RestApi::Handle] (lines 405-471) *)

(** The loop of lines 427-438. *)
Fixpoint negotiate (accepted : list string) (wrappedOutput : RestApiOutput)
  : RestApiOutput :=
  match accepted with
  | [] => wrappedOutput
  | token :: rest =>
      let wrappedOutput :=
        if decide (token = MIME_XML)
        then SetConvertJsonToXml true wrappedOutput
        else wrappedOutput in
      let wrappedOutput :=
        if decide (token = MIME_JSON)
        then SetConvertJsonToXml false wrappedOutput
        else wrappedOutput in
      negotiate rest wrappedOutput
  end.

(** Lines 416-441: the wrapped output after content negotiation. *)
Definition negotiated_output (method : HttpMethod) (headers : Arguments)
  : RestApiOutput :=
  let wrappedOutput := RestApiOutput_new method in
  if (ORTHANC_ENABLE_PUGIXML =? 1)%Z then
    match headers !! "accept" with
    | Some value => negotiate (TokenizeString value ";"%char) wrappedOutput
    | None => wrappedOutput
    end
  else wrappedOutput.

(** The request as [Handle] receives it. *)
Record Request : Type := {
  request_origin : RequestOrigin;
  request_remoteIp : string;
  request_username : string;
  request_method : HttpMethod;
  request_uri : UriComponents;
  request_headers : Arguments;
  request_getArguments : GetArguments;
  request_body : string
}.

Definition make_visitor (wrappedOutput : RestApiOutput) (r : Request)
  : HttpHandlerVisitor :=
  {| output_ := wrappedOutput;
     origin_ := request_origin r;
     remoteIp_ := request_remoteIp r;
     username_ := request_username r;
     method_ := request_method r;
     headers_ := request_headers r;
     getArguments_ := CompileGetArguments (request_getArguments r);
     body_ := request_body r |}.

Definition not_allowed_line (r : Request) : list LogItem :=
  [LogText "REST method ";
   LogText (EnumerationToString (request_method r));
   LogText " not allowed on: ";
   LogText (FlattenUri (request_uri r))].

Definition Handle (root_ : RestApiHierarchy) (r : Request) : M State bool :=
  let wrappedOutput :=
    negotiated_output (request_method r) (request_headers r) in
  let visitor := make_visitor wrappedOutput r in
  found <- with_visitor visitor (LookupResource root_ (request_uri r)) ;;
  if fst found then
    emit (EvFinalize wrappedOutput) ;;
    ret true
  else
    let methods := GetAcceptedMethods root_ (request_uri r) in
    if decide (methods = ∅) then
      ret false
    else
      emit (EvLog LOG_INFO (not_allowed_line r)) ;;
      emit (EvSendMethodNotAllowed (MethodsToString methods)) ;;
      ret true.

(** ** [RestApi::GenerateOpenApiDocumentation] (lines 522-549) *)

(** [boost::math::iround]: the nearest integer, halves away from zero.
    For a NaN, an infinity or a value outside [int], boost raises
    [rounding_error]; the quotient of line 543 is none of these (lemma
    [iround_coverage] below), and the model gives the rounding of 0 for
    the first two. *)
Definition iround (x : spec_float) : Z :=
  let q := float_value x in
  if Qle_bool 0 q then Qfloor (q + (1 # 2)) else Qceiling (q - (1 # 2)).

(** Lines 538-542. *)
Definition coverage_total (visitor : OpenApiVisitor) : Z :=
  let total := GetTotalPathsCount visitor in
  if (total =? 0)%Z then 1 else total.

(** Lines 543-544: the two counters are converted to [float], the
    product and then the quotient are computed in [float]. *)
Definition coverage (visitor : OpenApiVisitor) : spec_float :=
  float_div
    (float_mul float_100 (static_cast_float (GetSuccessPathsCount visitor)))
    (static_cast_float (coverage_total visitor)).

Definition coverage_line (visitor : OpenApiVisitor) : list LogItem :=
  [LogText "The documentation of the REST API contains ";
   LogNumber (GetSuccessPathsCount visitor);
   LogText " paths over a total of ";
   LogNumber (GetTotalPathsCount visitor);
   LogText " paths ";
   LogText "(";
   LogNumber (static_cast_unsigned_int (iround (coverage visitor)));
   LogText "%)"].

(** Lines 530-535. *)
Definition openapi_document (visitor : OpenApiVisitor) : Json :=
  let target : gmap string Json := ∅ in
  let target := <["info" := JsonObject ∅]> target in
  let target := <["openapi" := JsonString "3.0.0"]> target in
  let target := <["servers" := JsonArray []]> target in
  let target := <["paths" := GetPaths visitor]> target in
  JsonObject target.

(** The condition of the [assert] at line 537.  An [assert] compiles to
    nothing under [NDEBUG]; rather than a step of the function, it is a
    condition proved to hold when the line is reached. *)
Definition coverage_assertion (visitor : OpenApiVisitor) : bool :=
  (GetSuccessPathsCount visitor <=? GetTotalPathsCount visitor)%Z.

(** The result pairs the [target] out-parameter with the visitor, whose
    counters the function reads for its log line. *)
Definition GenerateOpenApiDocumentation (root_ : RestApiHierarchy)
  : M State (Json * OpenApiVisitor) :=
  explored <- with_visitor OpenApiVisitor_new
                (ExploreAllResources root_ [] ∅) ;;
  let visitor := snd explored in
  let target := openapi_document visitor in
  emit (EvLog LOG_WARNING (coverage_line visitor)) ;;
  ret (target, visitor).

End Model.

(** ** Reference descriptions

    Definitions that follow the wording of the specification; the
    theorems compare them with the functions translated above. *)

Section Reference.
Context `{Collaborators}.

(** *** The four blocks of [OpenApiVisitor::Visit]

    The blocks of lines 181-217, 219-255, 257-292 and 294-330 differ only
    in the method, its call class, its member name and its log label.
    [Probe] is their common shape. *)

(** The synthetic call of a method: empty query arguments for GET, empty
    body for POST and PUT. *)
Definition documentation_call (method : HttpMethod)
  (uriArguments : Arguments) (uri : UriComponents) : RestApiCall :=
  match method with
  | HttpMethod_Get =>
      RestApiGetCall (documentation_context method uriArguments uri) ∅
  | HttpMethod_Post =>
      RestApiPostCall (documentation_context method uriArguments uri) ""
  | HttpMethod_Delete =>
      RestApiDeleteCall (documentation_context method uriArguments uri)
  | HttpMethod_Put =>
      RestApiPutCall (documentation_context method uriArguments uri) ""
  end.

(** The member name and the log label of each of the four blocks. *)
Definition method_key (method : HttpMethod) : string :=
  match method with
  | HttpMethod_Get => "get"
  | HttpMethod_Post => "post"
  | HttpMethod_Delete => "delete"
  | HttpMethod_Put => "put"
  end.

Definition ignoring_label (method : HttpMethod) : string :=
  match method with
  | HttpMethod_Get => "Ignoring URI without API documentation: GET "
  | HttpMethod_Post => "Ignoring URI without API documentation: POST "
  | HttpMethod_Delete => "Ignoring URI without API documentation: DELETE "
  | HttpMethod_Put => "Ignoring URI without API documentation: PUT "
  end.

Definition ignoring_warning (method : HttpMethod) (path : string) : Event :=
  EvLog LOG_WARNING [LogText (ignoring_label method); LogText path].

Definition Probe (method : HttpMethod) (resource : Resource)
  (uri : UriComponents) (path : string) (uriArguments : Arguments)
  (uriArgumentsNames : gset string) : M (OpenApiVisitor * State) unit :=
  if HasHandler resource method then
    on_visitor incr_total ;;
    ok <- dry_run resource (documentation_call method uriArguments uri)
            uriArgumentsNames ;;
    match ok with
    | Some v => on_visitor (record_path path (method_key method) v)
    | None => on_state (emit (ignoring_warning method path))
    end
  else ret tt.

Definition Visit_by_blocks (resource : Resource) (uri : UriComponents)
  (hasTrailing : bool) (components : Arguments) (trailing : UriComponents)
  : M (OpenApiVisitor * State) bool :=
  let path := documentation_path uri hasTrailing in
  paths <- gets (fun vs => paths_ (fst vs)) ;;
  if decide (is_Some (paths !! path)) then
    throw (OrthancException ErrorCode_InternalError)
  else
    let uriArgumentsNames := fst (collect_uri_arguments components hasTrailing) in
    let uriArguments := snd (collect_uri_arguments components hasTrailing) in
    Probe HttpMethod_Get resource uri path uriArguments uriArgumentsNames ;;
    Probe HttpMethod_Post resource uri path uriArguments uriArgumentsNames ;;
    Probe HttpMethod_Delete resource uri path uriArguments uriArgumentsNames ;;
    Probe HttpMethod_Put resource uri path uriArguments uriArgumentsNames ;;
    ret true.

(** The call context of the live visitor for its method: bound
    arguments, trailing segments and URI, with the query arguments for
    GET and the body for POST and PUT. *)
Definition live_call (v : HttpHandlerVisitor) (components : Arguments)
  (trailing uri : UriComponents) : RestApiCall :=
  let c := live_context v components trailing uri in
  match method_ v with
  | HttpMethod_Get => RestApiGetCall c (getArguments_ v)
  | HttpMethod_Post => RestApiPostCall c (body_ v)
  | HttpMethod_Delete => RestApiDeleteCall c
  | HttpMethod_Put => RestApiPutCall c (body_ v)
  end.

(** "Last recognized token wins; default JSON." *)
Definition recognized (token : string) : Prop :=
  token = MIME_XML ∨ token = MIME_JSON.

#[global] Instance recognized_dec token : Decision (recognized token).
Proof. unfold recognized. apply _. Defined.

Definition last_recognized (tokens : list string) : option string :=
  last (filter recognized tokens).

Definition wants_xml (tokens : list string) : bool :=
  match last_recognized tokens with
  | Some token => bool_decide (token = MIME_XML)
  | None => false
  end.

(** One dry run of a documentation pass: a (path, method) pair with its
    registered handler, the synthetic call and the capture names. *)
Record DryRun : Type := {
  dr_method : HttpMethod;
  dr_handler : Handler;
  dr_call : RestApiCall;
  dr_names : gset string
}.

Definition make_dry_run (method : HttpMethod) (h : Handler)
  (uri : UriComponents) (uriArguments : Arguments)
  (uriArgumentsNames : gset string) : DryRun :=
  {| dr_method := method;
     dr_handler := h;
     dr_call := documentation_call method uriArguments uri;
     dr_names := uriArgumentsNames |}.

Definition dry_run_of (n : Visited) (method : HttpMethod) : option DryRun :=
  let collected :=
    collect_uri_arguments (visited_components n) (visited_hasTrailing n) in
  match handler_of (visited_resource n) method with
  | Some h =>
      Some (make_dry_run method h (visited_uri n) (snd collected)
              (fst collected))
  | None => None
  end.

(** The (path, method) pairs registered at a node, in the order the four
    blocks of [Visit] come. *)
Definition dry_runs_of (n : Visited) : list DryRun :=
  omap (dry_run_of n)
    [HttpMethod_Get; HttpMethod_Post; HttpMethod_Delete; HttpMethod_Put].

(** The dry runs of one block of [Visit]: none or one. *)
Definition runs_for (n : Visited) (method : HttpMethod) : list DryRun :=
  match dry_run_of n method with
  | Some d => [d]
  | None => []
  end.

Definition visited_path (n : Visited) : string :=
  documentation_path (visited_uri n) (visited_hasTrailing n).

(** A dry run succeeds when "the handler returns without raising and its
    documentation can be formatted"; a raised business-logic error or bad
    conversion makes it undocumented; anything else escapes. *)
Inductive ProbeResult : Type :=
| Documented (fragment : Json)
| Undocumented
| Escaped (e : Exception).

Definition contain (e : Exception) : ProbeResult :=
  if is_caught e then Undocumented else Escaped e.

Definition dry_run_outcome (d : DryRun) (w : World) : ProbeResult * World :=
  let (r, w') := dr_handler d (dr_call d) w in
  (match r with
   | Ret doc =>
       match FormatOpenApi doc (dr_names d) with
       | Ret (Some v) => Documented v
       | Ret None => Undocumented
       | Throw e => contain e
       end
   | Throw e => contain e
   end, w').

(** The effect of a list of dry runs for one path on the visitor and the
    state. *)
Fixpoint apply_dry_runs (path : string) (runs : list DryRun)
  (vs : OpenApiVisitor * State) : Outcome unit * (OpenApiVisitor * State) :=
  match runs with
  | [] => (Ret tt, vs)
  | d :: rest =>
      let (result, w') := dry_run_outcome d (world (snd vs)) in
      let s1 :=
        {| world := w'; trace := trace (snd vs) ++ [EvHandle (dr_call d)] |} in
      match result with
      | Documented v =>
          apply_dry_runs path rest
            (record_path path (method_key (dr_method d)) v
               (incr_total (fst vs)), s1)
      | Undocumented =>
          apply_dry_runs path rest
            (incr_total (fst vs),
             record_event s1 (ignoring_warning (dr_method d) path))
      | Escaped e => (Throw e, (incr_total (fst vs), s1))
      end
  end.

(** N: the registered (path, method) pairs of a pass. *)
Definition all_dry_runs (nodes : list Visited) : list DryRun :=
  flat_map dry_runs_of nodes.

Definition registered_pairs (nodes : list Visited) : Z :=
  Z.of_nat (length (all_dry_runs nodes)).

(** M: how many of them dry-run successfully, the world being threaded
    through the handlers in order. *)
Fixpoint successful_pairs (runs : list DryRun) (w : World) : Z :=
  match runs with
  | [] => 0
  | d :: rest =>
      let (result, w') := dry_run_outcome d w in
      (match result with Documented _ => 1 | _ => 0 end)
      + successful_pairs rest w'
  end.

Fixpoint world_after (runs : list DryRun) (w : World) : World :=
  match runs with
  | [] => w
  | d :: rest => world_after rest (snd (dry_run_outcome d w))
  end.

(** What a run of blocks does to the counters: [j] increments of the
    total and [k <= j] of the successes; all of them when it completes. *)
Definition counters_step {A} (runs : list DryRun)
  (vs : OpenApiVisitor * State)
  (r : Outcome A * (OpenApiVisitor * State)) : Prop :=
  ∃ j k : Z,
    0 <= k <= j ∧ j <= Z.of_nat (length runs)
    ∧ totalPathsCount_ (fst (snd r)) = size_t_add (totalPathsCount_ (fst vs)) j
    ∧ successPathsCount_ (fst (snd r))
      = size_t_add (successPathsCount_ (fst vs)) k
    ∧ (∀ u, fst r = Ret u ->
         j = Z.of_nat (length runs)
         ∧ k = successful_pairs runs (world (snd vs))
         ∧ world (snd (snd r)) = world_after runs (world (snd vs))).

(** The same for a sequence of calls of which some may have raised. *)
Definition counters_range (runs : list DryRun)
  (vs vs' : OpenApiVisitor * State) : Prop :=
  ∃ j k : Z,
    0 <= k <= j ∧ j <= Z.of_nat (length runs)
    ∧ totalPathsCount_ (fst vs') = size_t_add (totalPathsCount_ (fst vs)) j
    ∧ successPathsCount_ (fst vs')
      = size_t_add (successPathsCount_ (fst vs)) k.

(** The counters are values of [size_t]. *)
Definition counters_in_range (v : OpenApiVisitor) : Prop :=
  0 <= totalPathsCount_ v < 2 ^ SIZE_WIDTH
  ∧ 0 <= successPathsCount_ v < 2 ^ SIZE_WIDTH.

(** No dry run lets an exception escape, whatever the world. *)
Definition contained (d : DryRun) : Prop :=
  ∀ w e, fst (dry_run_outcome d w) ≠ Escaped e.

(** A dry run whose handler always raises one of the two caught classes. *)
Definition always_raises_caught (d : DryRun) : Prop :=
  ∀ w, ∃ e, fst (dr_handler d (dr_call d) w) = Throw e ∧ is_caught e = true.

(** The handler answers a documentation call the same way in every
    world. *)
Definition deterministic (d : DryRun) : Prop :=
  ∀ w1 w2, fst (dr_handler d (dr_call d) w1) = fst (dr_handler d (dr_call d) w2).

(** Any sequence of [Visit] calls on one visitor object, whether each
    returns or raises. *)
Fixpoint visit_each (nodes : list Visited) (vs : OpenApiVisitor * State)
  : OpenApiVisitor * State :=
  match nodes with
  | [] => vs
  | n :: rest =>
      visit_each rest
        (snd (OpenApiVisitor_Visit (visited_resource n) (visited_uri n)
                (visited_hasTrailing n) (visited_components n)
                (visited_trailing n) vs))
  end.

(** The handler invocations recorded in a trace. *)
Definition handled_calls (events : list Event) : list RestApiCall :=
  omap (fun e => match e with EvHandle call => Some call | _ => None end)
    events.

End Reference.

(** ** Notions used to state and prove the properties *)

Section Accounting.
Context `{Collaborators}.

(** The quotient of lines 543-544, as a function of the two counters. *)
Definition coverage_of (success total : Z) : spec_float :=
  float_div (float_mul float_100 (static_cast_float success))
    (static_cast_float total).

(** [2^-23]: one unit in the last place of a [float], relative to a
    normal number; a bound of the relative error of one rounding. *)
Definition float_eps : Q := 1 # 8388608.

(** A positive normal [float] with its exponent between two bounds, no
    more than [lo * (1 + float_eps)] and no less than
    [hi / (1 + float_eps)]. *)
Definition rounds_to (x : spec_float) (elo ehi : Z) (lo hi : Q) : Prop :=
  exists (m : positive) (e : Z),
    x = S754_finite false m e
    /\ 2 ^ 23 <= Zpos m < 2 ^ 24
    /\ elo <= e <= ehi
    /\ (float_value x <= lo * (1 + float_eps))%Q
    /\ (hi <= float_value x * (1 + float_eps))%Q.

(** A list of names without the empty names at its head. *)
Fixpoint skip_empty (names : list string) : list string :=
  match names with
  | "" :: rest => skip_empty rest
  | _ => names
  end.

(** The visitor and the state one call of [Visit] leaves, whether it
    returns or raises. *)
Definition visit_node (n : Visited) (vs : OpenApiVisitor * State)
  : OpenApiVisitor * State :=
  snd (OpenApiVisitor_Visit (visited_resource n) (visited_uri n)
         (visited_hasTrailing n) (visited_components n)
         (visited_trailing n) vs).

(** The members a list of dry runs writes, in order: the lowercase method
    key and the fragment of every dry run that succeeds, the world being
    threaded through the handlers; an exception that escapes ends the
    list. *)
Fixpoint documented (runs : list DryRun) (w : World) : list (string * Json) :=
  match runs with
  | [] => []
  | d :: rest =>
      let (result, w') := dry_run_outcome d w in
      match result with
      | Documented v => (method_key (dr_method d), v) :: documented rest w'
      | Undocumented => documented rest w'
      | Escaped _ => []
      end
  end.

(** [entry[key] = v] on a JSON object. *)
Definition add_member (entry : gmap string Json) (member : string * Json)
  : gmap string Json :=
  <[fst member := snd member]> entry.

(** [paths_[path][key] = v] on the path map. *)
Definition add_fragment (path : string) (paths : gmap string (gmap string Json))
  (member : string * Json) : gmap string (gmap string Json) :=
  <[path := <[fst member := snd member]> (default ∅ (paths !! path))]> paths.

Definition store_fragments (path : string) (fragments : list (string * Json))
  (paths : gmap string (gmap string Json)) : gmap string (gmap string Json) :=
  foldl (add_fragment path) paths fragments.

(** The number of method members over all the entries of the path map. *)
Definition fragment_count (paths : gmap string (gmap string Json)) : Z :=
  map_fold (fun (_ : string) (entry : gmap string Json) (acc : Z) =>
              Z.of_nat (size entry) + acc) 0 paths.

(** What calls of [Visit] do to the success counter and to the path map:
    [k] more successes and [k] more members, and no empty entry. *)
Definition fragments_step (runs : list DryRun) (vs vs' : OpenApiVisitor * State)
  : Prop :=
  ∃ k : Z,
    0 <= k <= Z.of_nat (length runs)
    ∧ successPathsCount_ (fst vs') = size_t_add (successPathsCount_ (fst vs)) k
    ∧ fragment_count (paths_ (fst vs')) = fragment_count (paths_ (fst vs)) + k
    ∧ ((∀ p e, paths_ (fst vs) !! p = Some e -> e ≠ ∅) ->
       ∀ p e, paths_ (fst vs') !! p = Some e -> e ≠ ∅).

(** The calls that lines 185-191, 223-229, 261-266 and 298-304 build:
    a fresh output for the call's method, the documentation origin, no
    remote address, user name, header or trailing segment, every URI
    argument bound to the empty string, and no query argument or body. *)
Definition is_documentation_call (call : RestApiCall) : Prop :=
  call_output (call_context call) = RestApiOutput_new (call_method call)
  ∧ call_origin (call_context call) = RequestOrigin_Documentation
  ∧ call_remoteIp (call_context call) = ""
  ∧ call_username (call_context call) = ""
  ∧ call_httpHeaders (call_context call) = ∅
  ∧ call_trailing (call_context call) = []
  ∧ (∀ name value,
       call_uriComponents (call_context call) !! name = Some value ->
       value = "")
  ∧ match call with
    | RestApiGetCall _ getArguments => getArguments = ∅
    | RestApiPostCall _ body => body = ""
    | RestApiDeleteCall _ => True
    | RestApiPutCall _ body => body = ""
    end.

(** The calls a documentation pass makes on its collaborators: handler
    invocations with such a call, and warnings. *)
Definition documentation_event (e : Event) : Prop :=
  match e with
  | EvHandle call => is_documentation_call call
  | EvLog level _ => level = LOG_WARNING
  | EvFinalize _ => False
  | EvSendMethodNotAllowed _ => False
  end.

(** The number of warnings in a trace. *)
Fixpoint logged_warnings (events : list Event) : Z :=
  match events with
  | [] => 0
  | EvLog LOG_WARNING _ :: rest => 1 + logged_warnings rest
  | _ :: rest => logged_warnings rest
  end.

(** What calls of [Visit] add to the trace, against the counters: [j]
    handler invocations for [j] increments of the total, of which [k]
    succeed and at most [j - k] are followed by a warning; exactly
    [j - k] when no exception escapes. *)
Definition events_step (runs : list DryRun) (vs vs' : OpenApiVisitor * State)
  : Prop :=
  ∃ (suffix : list Event) (j k : Z),
    trace (snd vs') = trace (snd vs) ++ suffix
    ∧ Forall documentation_event suffix
    ∧ totalPathsCount_ (fst vs') = size_t_add (totalPathsCount_ (fst vs)) j
    ∧ successPathsCount_ (fst vs')
      = size_t_add (successPathsCount_ (fst vs)) k
    ∧ j = Z.of_nat (length (handled_calls suffix))
    ∧ 0 <= k ∧ 0 <= logged_warnings suffix
    ∧ k + logged_warnings suffix <= j ∧ j <= Z.of_nat (length runs)
    ∧ (Forall contained runs -> j = k + logged_warnings suffix).

End Accounting.

(** ** A concrete instance, used to run the model *)

(** The world counts handler invocations; a documentation record is the
    summary a handler declared, if any; a record without summary cannot be
    formatted, and the summary ["!"] makes the formatter raise. *)
Definition demo_FormatOpenApi (doc : option string) (names : gset string)
  : Outcome (option Json) :=
  match doc with
  | None => Ret None
  | Some summary =>
      if decide (summary = "!")
      then Throw (OrthancException (ErrorCode_Other 7))
      else Ret (Some (JsonObject {[ "summary" := JsonString summary ]}))
  end.

Fixpoint demo_FlattenUri (uri : UriComponents) : string :=
  match uri with
  | [] => ""
  | segment :: rest => "/" +:+ segment +:+ demo_FlattenUri rest
  end.

Definition demo : Collaborators :=
  {| World := nat;
     RestApiCallDocumentation := option string;
     FreshDocumentation := None;
     FormatOpenApi := demo_FormatOpenApi;
     FlattenUri := demo_FlattenUri;
     CompileGetArguments := list_to_map;
     EnumerationToString := method_name;
     ORTHANC_ENABLE_PUGIXML := 1 |}.

(** The same collaborators in a build without PugiXML. *)
Definition demo_without_pugixml : Collaborators :=
  {| World := nat;
     RestApiCallDocumentation := option string;
     FreshDocumentation := None;
     FormatOpenApi := demo_FormatOpenApi;
     FlattenUri := demo_FlattenUri;
     CompileGetArguments := list_to_map;
     EnumerationToString := method_name;
     ORTHANC_ENABLE_PUGIXML := 0 |}.

Section Demo.
#[local] Existing Instance demo.

Definition demo_documented (summary : string) : Handler :=
  fun _ w => (Ret (Some summary), S w).

Definition demo_undocumented : Handler :=
  fun _ w => (Ret None, S w).

Definition demo_raising (e : Exception) : Handler :=
  fun _ w => (Throw e, S w).

Definition demo_no_handler : Resource :=
  {| getHandler_ := None; postHandler_ := None;
     deleteHandler_ := None; putHandler_ := None |}.

Definition demo_get_only (h : Handler) : Resource :=
  {| getHandler_ := Some h; postHandler_ := None;
     deleteHandler_ := None; putHandler_ := None |}.

Definition demo_leaf (resource : Resource) : RestApiHierarchy :=
  Node resource false [] None.

(** [/r] serves GET only. *)
Definition demo_r : RestApiHierarchy :=
  Node demo_no_handler false
    [("r", demo_leaf (demo_get_only (demo_documented "r")))] None.

(** [/studies] (GET documented, POST raising a business-logic error),
    [/studies/{id}] (GET documented, DELETE raising a bad cast, PUT
    without documentation) and [/tools] (GET only). *)
Definition demo_studies : Resource :=
  {| getHandler_ := Some (demo_documented "list");
     postHandler_ :=
       Some (demo_raising (OrthancException (ErrorCode_Other 3)));
     deleteHandler_ := None;
     putHandler_ := None |}.

Definition demo_study : Resource :=
  {| getHandler_ := Some (demo_documented "one");
     postHandler_ := None;
     deleteHandler_ := Some (demo_raising bad_lexical_cast);
     putHandler_ := Some demo_undocumented |}.

Definition demo_archive : RestApiHierarchy :=
  Node demo_no_handler false
    [("studies", Node demo_studies false [] (Some ("id", demo_leaf demo_study)));
     ("tools", demo_leaf (demo_get_only (demo_documented "tools")))]
    None.

(** [/studies] (GET documented, POST raising) and [/tools] (GET
    documented): two successes over three pairs. *)
Definition demo_two_thirds : RestApiHierarchy :=
  Node demo_no_handler false
    [("studies", demo_leaf demo_studies);
     ("tools", demo_leaf (demo_get_only (demo_documented "tools")))]
    None.

(** [/a] with a trailing wildcard and a literal child named [{...}]:
    both flatten to [/a/{...}]. *)
Definition demo_clash : RestApiHierarchy :=
  Node demo_no_handler false
    [("a", Node (demo_get_only (demo_documented "a")) true
             [("{...}", demo_leaf (demo_get_only (demo_documented "b")))]
             None)]
    None.

(** [/a/b] next to [/a/{x}], and [/plugins] with a trailing wildcard. *)
Definition demo_precedence : RestApiHierarchy :=
  Node demo_no_handler false
    [("a", Node demo_no_handler false
             [("b", demo_leaf (demo_get_only (demo_documented "literal")))]
             (Some ("x", demo_leaf (demo_get_only (demo_documented "capture")))));
     ("plugins", Node (demo_get_only (demo_documented "plugins")) true [] None)]
    None.

Definition demo_state : State := {| world := 0%nat; trace := [] |}.

Definition demo_request (method : HttpMethod) (uri : UriComponents)
  (headers : Arguments) : Request :=
  {| request_origin := RequestOrigin_Client 0;
     request_remoteIp := "127.0.0.1";
     request_username := "alice";
     request_method := method;
     request_uri := uri;
     request_headers := headers;
     request_getArguments := [];
     request_body := "" |}.

Definition demo_live_visitor : HttpHandlerVisitor :=
  make_visitor (RestApiOutput_new HttpMethod_Get)
    (demo_request HttpMethod_Get ["r"] ∅).

(** The two nodes of [demo_clash], as the exploration visits them. *)
Definition demo_clash_first : Visited :=
  {| visited_resource := demo_get_only (demo_documented "a");
     visited_uri := ["a"];
     visited_hasTrailing := true;
     visited_components := ∅;
     visited_trailing := [] |}.

Definition demo_clash_second : Visited :=
  {| visited_resource := demo_get_only (demo_documented "b");
     visited_uri := ["a"; "{...}"];
     visited_hasTrailing := false;
     visited_components := ∅;
     visited_trailing := [] |}.

(** The node [/studies/{id}] of [demo_archive], as the exploration visits
    it. *)
Definition demo_study_node : Visited :=
  {| visited_resource := demo_study;
     visited_uri := ["studies"; "{id}"];
     visited_hasTrailing := false;
     visited_components := {[ "id" := "" ]};
     visited_trailing := [] |}.

End Demo.

(** * Properties *)

(** ** Rounding to binary32

    The rounding of the specification of floating-point arithmetic, for
    a positive number in the normal range: the mantissa is cut to 24
    bits and then, depending on the bits cut, left or incremented. *)

Section Binary32.
Local Open Scope Z_scope.

Lemma digits2_pos_bounds (p : positive) :
  2 ^ (Zpos (digits2_pos p) - 1) <= Zpos p < 2 ^ Zpos (digits2_pos p).
Proof.
  induction p as [p IH|p IH|]; cbn [digits2_pos].
  - rewrite Pos2Z.inj_succ. change (Zpos p~1) with (2 * Zpos p + 1).
    replace (Z.succ (Zpos (digits2_pos p)) - 1) with (Z.succ (Zpos (digits2_pos p) - 1)) by lia.
    rewrite !Z.pow_succ_r by lia.
    destruct IH as [IH1 IH2]. revert IH1 IH2.
    generalize (2 ^ (Zpos (digits2_pos p) - 1)) (2 ^ Zpos (digits2_pos p)). intros; lia.
  - rewrite Pos2Z.inj_succ. change (Zpos p~0) with (2 * Zpos p).
    replace (Z.succ (Zpos (digits2_pos p)) - 1) with (Z.succ (Zpos (digits2_pos p) - 1)) by lia.
    rewrite !Z.pow_succ_r by lia.
    destruct IH as [IH1 IH2]. revert IH1 IH2.
    generalize (2 ^ (Zpos (digits2_pos p) - 1)) (2 ^ Zpos (digits2_pos p)). intros; lia.
  - cbn. lia.
Qed.

Lemma Zdigits2_bounds (m : Z) :
  0 < m -> 2 ^ (Zdigits2 m - 1) <= m < 2 ^ Zdigits2 m.
Proof. destruct m as [|p|p]; try lia. intros _. apply digits2_pos_bounds. Qed.

Lemma Zdigits2_nonneg (m : Z) : 0 <= Zdigits2 m.
Proof. destruct m; cbn [Zdigits2]; lia. Qed.

Lemma Zdigits2_unique (m d : Z) :
  0 < d -> 2 ^ (d - 1) <= m < 2 ^ d -> Zdigits2 m = d.
Proof.
  intros Hd [Hlo Hhi].
  assert (Hm : 0 < m) by (pose proof (Z.pow_pos_nonneg 2 (d - 1)); lia).
  pose proof (Zdigits2_bounds m Hm) as [Hlo' Hhi'].
  assert (Hpos : 0 < Zdigits2 m) by (destruct m; cbn; lia).
  destruct (Z.lt_trichotomy (Zdigits2 m) d) as [Hlt|[Heq|Hgt]]; [|exact Heq|].
  - assert (2 ^ Zdigits2 m <= 2 ^ (d - 1)) by (apply Z.pow_le_mono_r; lia). lia.
  - assert (2 ^ d <= 2 ^ (Zdigits2 m - 1)) by (apply Z.pow_le_mono_r; lia). lia.
Qed.

Lemma shr_1_m (mrs : shr_record) :
  0 <= shr_m mrs -> shr_m (shr_1 mrs) = shr_m mrs / 2.
Proof.
  destruct mrs as [m r s]. cbn [shr_m]. intros Hm.
  destruct m as [|[p|p|]|p]; cbn [shr_1 shr_m]; try lia.
  - reflexivity.
  - change (Zpos p~1) with (2 * Zpos p + 1). apply (Z.div_unique _ _ _ 1); lia.
  - change (Zpos p~0) with (2 * Zpos p). apply (Z.div_unique _ _ _ 0); lia.
  - reflexivity.
Qed.

Lemma iter_pos_shr_m (n : positive) (mrs : shr_record) :
  0 <= shr_m mrs ->
  shr_m (SpecFloat.iter_pos shr_1 n mrs) = shr_m mrs / 2 ^ Zpos n.
Proof.
  revert mrs. induction n as [n IH|n IH|]; intros mrs Hm; cbn [SpecFloat.iter_pos].
  - assert (H1 : 0 <= shr_m (shr_1 mrs)).
    { rewrite shr_1_m by exact Hm. apply Z.div_pos; lia. }
    assert (H2 : 0 <= shr_m (SpecFloat.iter_pos shr_1 n (shr_1 mrs))).
    { rewrite IH by exact H1. apply Z.div_pos; [exact H1|]. apply Z.pow_pos_nonneg; lia. }
    rewrite IH by exact H2. rewrite IH by exact H1. rewrite shr_1_m by exact Hm.
    rewrite !Z.div_div by (try apply Z.pow_pos_nonneg; lia).
    f_equal. change (Zpos n~1) with (2 * Zpos n + 1).
    replace (2 * Zpos n + 1) with (1 + Zpos n + Zpos n) by lia.
    rewrite !Z.pow_add_r by lia. lia.
  - assert (H2 : 0 <= shr_m (SpecFloat.iter_pos shr_1 n mrs)).
    { rewrite IH by exact Hm. apply Z.div_pos; [exact Hm|]. apply Z.pow_pos_nonneg; lia. }
    rewrite IH by exact H2. rewrite IH by exact Hm.
    rewrite !Z.div_div by (try apply Z.pow_pos_nonneg; lia).
    f_equal. change (Zpos n~0) with (2 * Zpos n).
    replace (2 * Zpos n) with (Zpos n + Zpos n) by lia.
    rewrite !Z.pow_add_r by lia. lia.
  - apply shr_1_m, Hm.
Qed.

Lemma shr_record_of_loc_m (m : Z) (l : location) : shr_m (shr_record_of_loc m l) = m.
Proof. destruct l as [|[]]; reflexivity. Qed.

Lemma round_nearest_even_bounds (m : Z) (l : location) :
  m <= round_nearest_even m l <= m + 1.
Proof. destruct l as [|[]]; cbn; try lia. destruct (Z.even m); lia. Qed.

(** the mantissa after the first shift *)
Lemma shr_fexp_normal (mx ex : Z) (lx : location) :
  2 ^ 23 <= mx -> -149 <= ex ->
  let n := Zdigits2 mx - 24 in
  0 <= n
  /\ shr_m (fst (shr_fexp 24 128 mx ex lx)) = mx / 2 ^ n
  /\ snd (shr_fexp 24 128 mx ex lx) = ex + n.
Proof.
  intros Hmx Hex n.
  assert (Hpos : 0 < mx) by lia.
  pose proof (Zdigits2_bounds mx Hpos) as [Hlo Hhi].
  assert (Hn : 0 <= n).
  { subst n. destruct (Z_lt_le_dec (Zdigits2 mx) 24) as [Hlt|]; [|lia].
    assert (2 ^ Zdigits2 mx <= 2 ^ 23) by (apply Z.pow_le_mono_r; lia). lia. }
  split; [exact Hn|].
  unfold shr_fexp, fexp, emin.
  replace (Z.max (Zdigits2 mx + ex - 24) (3 - 128 - 24) - ex) with n by (subst n; lia).
  unfold shr. destruct n as [|p|p] eqn:En; try lia.
  - cbn [fst snd]. rewrite shr_record_of_loc_m, Z.div_1_r. split; [reflexivity|lia].
  - cbn [fst snd]. rewrite iter_pos_shr_m by (rewrite shr_record_of_loc_m; lia).
    rewrite shr_record_of_loc_m. split; reflexivity.
Qed.

Lemma binary_round_aux_normal (sx : bool) (mx ex : Z) (lx : location) :
  2 ^ 23 <= mx -> -149 <= ex -> ex + Zdigits2 mx <= 127 ->
  exists (m : positive) (k : Z),
    binary_round_aux 24 128 sx mx ex lx = S754_finite sx m (ex + k)
    /\ 2 ^ 23 <= Zpos m < 2 ^ 24
    /\ Zdigits2 mx - 24 <= k <= Zdigits2 mx - 23
    /\ (Zpos m * 2 ^ k - mx) * 2 ^ 23 <= mx
    /\ (mx + 1 - Zpos m * 2 ^ k) * 2 ^ 23 <= Zpos m * 2 ^ k.
Proof.
  intros Hmx Hex Hmax.
  assert (Hpos : 0 < mx) by lia.
  pose proof (Zdigits2_bounds mx Hpos) as [Hlo Hhi].
  destruct (shr_fexp_normal mx ex lx Hmx Hex) as (Hn & Hm1 & He1).
  set (n := Zdigits2 mx - 24) in *.
  unfold binary_round_aux.
  destruct (shr_fexp 24 128 mx ex lx) as [mrs1 e1]. cbn [fst snd] in Hm1, He1.
  set (m2 := round_nearest_even (shr_m mrs1) (loc_of_shr_record mrs1)).
  pose proof (round_nearest_even_bounds (shr_m mrs1) (loc_of_shr_record mrs1))
    as Hround. fold m2 in Hround. rewrite Hm1 in Hround.
  assert (HP : 0 < 2 ^ n) by (apply Z.pow_pos_nonneg; lia).
  assert (Hsplit : 2 ^ Zdigits2 mx = 2 ^ n * 2 ^ 24).
  { rewrite <- Z.pow_add_r by lia. f_equal. subst n. lia. }
  assert (Hsplit' : 2 ^ (Zdigits2 mx - 1) = 2 ^ n * 2 ^ 23).
  { rewrite <- Z.pow_add_r by lia. f_equal. subst n. lia. }
  pose proof (Z.mul_div_le mx (2 ^ n) HP) as Hdiv1.
  pose proof (Z.mul_succ_div_gt mx (2 ^ n) HP) as Hdiv2.
  assert (Hq1 : 2 ^ 23 <= mx / 2 ^ n).
  { apply Z.div_le_lower_bound; [exact HP|]. lia. }
  assert (Hq2 : mx / 2 ^ n < 2 ^ 24).
  { apply Z.div_lt_upper_bound; [exact HP|]. lia. }
  assert (Hm2 : 2 ^ 23 <= m2) by lia.
  assert (He1' : -149 <= e1) by lia.
  destruct (shr_fexp_normal m2 e1 loc_Exact Hm2 He1') as (Hn2 & Hm3 & He3).
  destruct (shr_fexp 24 128 m2 e1 loc_Exact) as [mrs2 e2]. cbn [fst snd] in Hm3, He3.
  destruct (Z_lt_le_dec m2 (2 ^ 24)) as [Hlt|Hge].
  - assert (Hd : Zdigits2 m2 = 24) by (apply Zdigits2_unique; lia).
    rewrite Hd in Hm3, He3. change (24 - 24) with 0 in Hm3, He3.
    rewrite Z.pow_0_r, Z.div_1_r in Hm3. rewrite Hm3.
    destruct m2 as [|m|m] eqn:Em; try lia.
    exists m, n.
    replace (e2 <=? 128 - 24) with true by (symmetry; apply Z.leb_le; lia).
    replace e2 with (ex + n) by lia.
    split; [reflexivity|]. split; [lia|]. split; [lia|].
    split; nia.
  - assert (Em : m2 = 2 ^ 24) by lia.
    assert (Hd : Zdigits2 m2 = 25) by (rewrite Em; reflexivity).
    rewrite Hd in Hm3, He3. change (25 - 24) with 1 in Hm3, He3.
    rewrite Em in Hm3. change (2 ^ 24 / 2 ^ 1) with (Zpos (Z.to_pos (2 ^ 23))) in Hm3.
    rewrite Hm3.
    exists (Z.to_pos (2 ^ 23)), (n + 1).
    replace (e2 <=? 128 - 24) with true by (symmetry; apply Z.leb_le; lia).
    replace e2 with (ex + (n + 1)) by lia.
    split; [reflexivity|]. split; [cbn; lia|]. split; [lia|].
    rewrite Z.pow_add_r by lia.
    change (Zpos (Z.to_pos (2 ^ 23)) * (2 ^ n * 2 ^ 1)) with (2 ^ 23 * (2 ^ n * 2)).
    split; nia.
Qed.


Lemma Qpow2_pos (e : Z) : (0 < 2 ^ e)%Q.
Proof. apply Qpower_0_lt. reflexivity. Qed.

Lemma Qpow2_add (a b : Z) : (2 ^ (a + b) == 2 ^ a * 2 ^ b)%Q.
Proof. apply Qpower_plus. discriminate. Qed.

Lemma Qpow2_inject (k : Z) : 0 <= k -> (2 ^ k == inject_Z (2 ^ k))%Q.
Proof. intros Hk. rewrite Zpower_Qpower by exact Hk. reflexivity. Qed.

Lemma Pos_iter_xO (p k : positive) : Zpos (Pos.iter xO p k) = Zpos p * 2 ^ Zpos k.
Proof.
  rewrite (Pos.iter_swap_gen _ _ Zpos xO (Z.mul 2)) by reflexivity.
  change (Pos.iter (Z.mul 2) (Zpos p) k) with (Z.shiftl (Zpos p) (Zpos k)).
  apply Z.shiftl_mul_pow2. lia.
Qed.

Lemma binary_round_aux_value (mx ex : Z) (lx : location) :
  2 ^ 23 <= mx -> -149 <= ex -> ex + Zdigits2 mx <= 127 ->
  rounds_to (binary_round_aux 24 128 false mx ex lx)
    (ex + Zdigits2 mx - 24) (ex + Zdigits2 mx - 23)
    (inject_Z mx * 2 ^ ex) (inject_Z (mx + 1) * 2 ^ ex).
Proof.
  intros Hmx Hex Hmax.
  destruct (binary_round_aux_normal false mx ex lx Hmx Hex Hmax)
    as (m & k & Hres & Hm & Hk & Hup & Hlow).
  exists m, (ex + k). split; [exact Hres|]. split; [exact Hm|]. split; [lia|].
  rewrite Hres. cbn [float_value].
  assert (Hval : (1 * inject_Z (Zpos m) * 2 ^ (ex + k)
                  == inject_Z (Zpos m * 2 ^ k) * 2 ^ ex)%Q).
  { assert (Hk0 : 0 <= k).
    { destruct (shr_fexp_normal mx ex lx Hmx Hex) as (Hn & _). lia. }
    pose proof (Qpow2_inject k Hk0) as Hpow. pose proof (Qpow2_add ex k) as Hadd.
    rewrite Hadd, Hpow, inject_Z_mult. ring. }
  rewrite Hval.
  pose proof (Qpow2_pos ex) as Ht.
  set (t := (2 ^ ex)%Q) in *. set (V := Zpos m * 2 ^ k) in *.
  rewrite Zle_Qle in Hup, Hlow.
  rewrite inject_Z_mult in Hup, Hlow. unfold Z.sub in Hup, Hlow.
  rewrite !inject_Z_plus, !inject_Z_opp in Hup, Hlow.
  rewrite inject_Z_plus.
  change (inject_Z (2 ^ 23)) with (8388608 # 1)%Q in Hup, Hlow.
  change (inject_Z 1) with 1%Q in *.
  unfold float_eps.
  set (a := inject_Z V) in *. set (b := inject_Z mx) in *.
  replace (inject_Z (mx + 1)) with (b + 1)%Q in Hlow
    by (subst b; rewrite inject_Z_plus; reflexivity).
  clearbody a b t. clear Hval.
  assert (Ha : (a <= b * (1 + (1 # 8388608)))%Q) by lra.
  assert (Hb : (b + 1 <= a * (1 + (1 # 8388608)))%Q) by lra.
  split; nra.
Qed.

Lemma float_eps_pos : (0 < float_eps)%Q.
Proof. reflexivity. Qed.

Lemma rounds_to_weaken (x : spec_float) (elo ehi elo' ehi' : Z) (lo hi lo' hi' : Q) :
  rounds_to x elo ehi lo hi ->
  elo' <= elo -> ehi <= ehi' -> (lo <= lo')%Q -> (hi' <= hi)%Q ->
  rounds_to x elo' ehi' lo' hi'.
Proof.
  intros (m & e & Hx & Hm & He & Hlo & Hhi) Helo Hehi Hl Hh.
  exists m, e. split; [exact Hx|]. split; [exact Hm|]. split; [lia|].
  pose proof float_eps_pos. split; [nra|lra].
Qed.

Lemma float_value_finite (m : positive) (e : Z) :
  (float_value (S754_finite false m e) == inject_Z (Zpos m) * 2 ^ e)%Q.
Proof. cbn [float_value]. ring. Qed.

Lemma static_cast_float_rounds (n : Z) :
  1 <= n < 2 ^ 64 ->
  rounds_to (static_cast_float n) (-23) 41 (inject_Z n) (inject_Z n).
Proof.
  intros [Hn1 Hn2]. destruct n as [|p|p]; try lia.
  pose proof (digits2_pos_bounds p) as [Hlo Hhi].
  assert (Hd1 : 1 <= Zpos (digits2_pos p)) by lia.
  assert (Hd2 : Zpos (digits2_pos p) <= 64).
  { destruct (Z_lt_le_dec 64 (Zpos (digits2_pos p))) as [Hgt|]; [|lia].
    assert (2 ^ 64 <= 2 ^ (Zpos (digits2_pos p) - 1))
      by (apply Z.pow_le_mono_r; lia). lia. }
  unfold static_cast_float, binary_normalize, binary_round, shl_align.
  assert (Hf : fexp 24 128 (Zpos (digits2_pos p) + 0) = Zpos (digits2_pos p) - 24)
    by (unfold fexp, emin; lia).
  rewrite Hf, Z.sub_0_r.
  destruct (Zpos (digits2_pos p) - 24) as [|k|k] eqn:Ek.
  - (* 24 digits *)
    assert (Hmx : 2 ^ 23 <= Zpos p) by (replace 23 with (Zpos (digits2_pos p) - 1) by lia; exact Hlo).
    eapply rounds_to_weaken;
      [apply (binary_round_aux_value (Zpos p) 0 loc_Exact); cbn [Zdigits2]; lia
      |cbn [Zdigits2]; lia|cbn [Zdigits2]; lia| |].
    + rewrite Qpower_0_r. lra.
    + rewrite Qpower_0_r, inject_Z_plus. change (inject_Z 1) with 1%Q. lra.
  - (* more than 24 digits *)
    assert (Hmx : 2 ^ 23 <= Zpos p).
    { assert (2 ^ 23 <= 2 ^ (Zpos (digits2_pos p) - 1)) by (apply Z.pow_le_mono_r; lia).
      lia. }
    eapply rounds_to_weaken;
      [apply (binary_round_aux_value (Zpos p) 0 loc_Exact); cbn [Zdigits2]; lia
      |cbn [Zdigits2]; lia|cbn [Zdigits2]; lia| |].
    + rewrite Qpower_0_r. lra.
    + rewrite Qpower_0_r, inject_Z_plus. change (inject_Z 1) with 1%Q. lra.
  - (* fewer than 24 digits: the mantissa is aligned first *)
    change (Zneg k) with (- Zpos k).
    assert (Hsplit : 2 ^ 24 = 2 ^ Zpos (digits2_pos p) * 2 ^ Zpos k).
    { rewrite <- Z.pow_add_r by lia. f_equal. lia. }
    assert (Hsplit' : 2 ^ 23 = 2 ^ (Zpos (digits2_pos p) - 1) * 2 ^ Zpos k).
    { rewrite <- Z.pow_add_r by lia. f_equal. lia. }
    assert (HP : 0 < 2 ^ Zpos k) by (apply Z.pow_pos_nonneg; lia).
    assert (Hmz : 2 ^ 23 <= Zpos (Pos.iter xO p k) < 2 ^ 24).
    { rewrite Pos_iter_xO, Hsplit, Hsplit'. split; nia. }
    assert (Hdz : Zdigits2 (Zpos (Pos.iter xO p k)) = 24)
      by (apply Zdigits2_unique; [lia|exact Hmz]).
    assert (Hval : (inject_Z (Zpos (Pos.iter xO p k)) * 2 ^ (- Zpos k)
                    == inject_Z (Zpos p))%Q).
    { rewrite Pos_iter_xO, inject_Z_mult.
      pose proof (Qpow2_inject (Zpos k) ltac:(lia)) as Hpow. rewrite <- Hpow.
      rewrite <- Qmult_assoc.
      pose proof (Qpow2_add (Zpos k) (- Zpos k)) as Hadd.
      rewrite <- Hadd. rewrite Z.add_opp_diag_r, Qpower_0_r. ring. }
    eapply rounds_to_weaken;
      [apply (binary_round_aux_value (Zpos (Pos.iter xO p k)) (- Zpos k) loc_Exact);
       rewrite ?Hdz; lia
      |rewrite Hdz; lia|rewrite Hdz; lia| |].
    + rewrite Hval. lra.
    + rewrite inject_Z_plus, Qmult_plus_distr_l, Hval.
      pose proof (Qpow2_pos (- Zpos k)). change (inject_Z 1) with 1%Q. lra.
Qed.

Lemma SFmul_rounds (mx my : positive) (ex ey : Z) :
  2 ^ 23 <= Zpos mx < 2 ^ 24 -> 2 ^ 23 <= Zpos my < 2 ^ 24 ->
  -149 <= ex + ey -> ex + ey <= 79 ->
  rounds_to (float_mul (S754_finite false mx ex) (S754_finite false my ey))
    (ex + ey + 23) (ex + ey + 25)
    (float_value (S754_finite false mx ex) * float_value (S754_finite false my ey))
    (float_value (S754_finite false mx ex) * float_value (S754_finite false my ey)).
Proof.
  intros Hmx Hmy Hlo Hhi. unfold float_mul. cbn [SFmul xorb].
  change (Zpos (mx * my)) with (Zpos mx * Zpos my).
  set (M := Zpos mx * Zpos my).
  assert (HM : 2 ^ 46 <= M < 2 ^ 48).
  { subst M. change (2 ^ 46) with (2 ^ 23 * 2 ^ 23).
    change (2 ^ 48) with (2 ^ 24 * 2 ^ 24). split; nia. }
  assert (HMpos : 0 < M) by lia.
  pose proof (Zdigits2_bounds M HMpos) as [Hd1 Hd2].
  assert (Hd : 47 <= Zdigits2 M <= 48).
  { split.
    - destruct (Z_lt_le_dec (Zdigits2 M) 47) as [Hlt|]; [|lia].
      assert (2 ^ Zdigits2 M <= 2 ^ 46).
      { pose proof (Zdigits2_nonneg M).
        apply Z.pow_le_mono_r; lia. }
      lia.
    - destruct (Z_lt_le_dec 48 (Zdigits2 M)) as [Hgt|]; [|lia].
      assert (2 ^ 48 <= 2 ^ (Zdigits2 M - 1)) by (apply Z.pow_le_mono_r; lia).
      lia. }
  assert (Hval : (float_value (S754_finite false mx ex)
                  * float_value (S754_finite false my ey)
                  == inject_Z M * 2 ^ (ex + ey))%Q).
  { rewrite !float_value_finite. subst M. rewrite inject_Z_mult.
    pose proof (Qpow2_add ex ey) as Hadd. rewrite Hadd. ring. }
  eapply rounds_to_weaken;
    [apply (binary_round_aux_value M (ex + ey) loc_Exact); lia
    |lia|lia| |].
  - rewrite Hval. lra.
  - rewrite Hval, inject_Z_plus, Qmult_plus_distr_l.
    pose proof (Qpow2_pos (ex + ey)). change (inject_Z 1) with 1%Q. lra.
Qed.

Lemma SFdiv_rounds (mx my : positive) (ex ey : Z) :
  2 ^ 23 <= Zpos mx < 2 ^ 24 -> 2 ^ 23 <= Zpos my < 2 ^ 24 ->
  -125 <= ex - ey -> ex - ey <= 126 ->
  rounds_to (float_div (S754_finite false mx ex) (S754_finite false my ey))
    (ex - ey - 24) (ex - ey - 22)
    (float_value (S754_finite false mx ex) / float_value (S754_finite false my ey))
    (float_value (S754_finite false mx ex) / float_value (S754_finite false my ey)).
Proof.
  intros Hmx Hmy Hlo Hhi. unfold float_div. cbn [SFdiv xorb]. unfold SFdiv_core_binary.
  assert (Hdx : Zdigits2 (Zpos mx) = 24) by (apply Zdigits2_unique; lia).
  assert (Hdy : Zdigits2 (Zpos my) = 24) by (apply Zdigits2_unique; lia).
  rewrite Hdx, Hdy.
  assert (He : Z.min (fexp 24 128 (24 + ex - (24 + ey))) (ex - ey) = ex - ey - 24)
    by (unfold fexp, emin; lia).
  rewrite He. replace (ex - ey - (ex - ey - 24)) with 24 by lia.
  rewrite Z.shiftl_mul_pow2 by lia.
  set (N := Zpos mx * 2 ^ 24).
  pose proof (Z.div_eucl_eq N (Zpos my) ltac:(lia)) as Heq.
  pose proof (Z.mod_pos_bound N (Zpos my) ltac:(lia)) as Hmod.
  unfold Z.modulo in Hmod.
  destruct (Z.div_eucl N (Zpos my)) as [q r]. 
  assert (Hq : 2 ^ 23 <= q < 2 ^ 25).
  { subst N. change (2 ^ 25) with (2 * 2 ^ 24). split; nia. }
  assert (Hqpos : 0 < q) by lia.
  pose proof (Zdigits2_bounds q Hqpos) as [Hd1 Hd2].
  assert (Hd : 24 <= Zdigits2 q <= 25).
  { split.
    - destruct (Z_lt_le_dec (Zdigits2 q) 24) as [Hlt|]; [|lia].
      assert (2 ^ Zdigits2 q <= 2 ^ 23).
      { pose proof (Zdigits2_nonneg q).
        apply Z.pow_le_mono_r; lia. }
      lia.
    - destruct (Z_lt_le_dec 25 (Zdigits2 q)) as [Hgt|]; [|lia].
      assert (2 ^ 25 <= 2 ^ (Zdigits2 q - 1)) by (apply Z.pow_le_mono_r; lia).
      lia. }
  assert (Hval : (float_value (S754_finite false mx ex)
                  / float_value (S754_finite false my ey)
                  == inject_Z N / inject_Z (Zpos my) * 2 ^ (ex - ey - 24))%Q).
  { rewrite !float_value_finite. subst N. rewrite inject_Z_mult.
    pose proof (Qpow2_inject 24 ltac:(lia)) as H24. rewrite <- H24.
    assert (Hex : (2 ^ ex == 2 ^ ey * 2 ^ 24 * 2 ^ (ex - ey - 24))%Q).
    { rewrite <- !Qpow2_add. replace (ey + 24 + (ex - ey - 24)) with ex by lia.
      reflexivity. }
    rewrite Hex.
    pose proof (Qpow2_pos ey). pose proof (Qpow2_pos 24).
    assert (0 < inject_Z (Zpos my))%Q by (rewrite <- (Zlt_Qlt 0); lia).
    field. split; lra. }
  assert (Hmy' : (0 < inject_Z (Zpos my))%Q) by (rewrite <- (Zlt_Qlt 0); lia).
  assert (Hq1 : (inject_Z q <= inject_Z N / inject_Z (Zpos my))%Q).
  { apply Qle_shift_div_l; [exact Hmy'|].
    rewrite <- inject_Z_mult, <- Zle_Qle. nia. }
  assert (Hq2 : (inject_Z N / inject_Z (Zpos my) <= inject_Z (q + 1))%Q).
  { apply Qle_shift_div_r; [exact Hmy'|].
    rewrite <- inject_Z_mult, <- Zle_Qle. nia. }
  pose proof (Qpow2_pos (ex - ey - 24)) as Ht.
  eapply rounds_to_weaken;
    [apply (binary_round_aux_value q (ex - ey - 24) (new_location (Zpos my) r)); lia
    |lia|lia| |].
  - rewrite Hval. nra.
  - rewrite Hval. nra.
Qed.



Lemma static_cast_float_0 : static_cast_float 0 = S754_zero false.
Proof. reflexivity. Qed.

Lemma coverage_of_zero (total : Z) :
  1 <= total < 2 ^ 64 -> coverage_of 0 total = S754_zero false.
Proof.
  intros Ht. unfold coverage_of, float_100.
  destruct (static_cast_float_rounds total Ht) as (m & e & -> & _).
  reflexivity.
Qed.

Lemma coverage_of_rounds (success total : Z) :
  1 <= success < 2 ^ 64 -> 1 <= total < 2 ^ 64 ->
  exists (m : positive) (e : Z),
    coverage_of success total = S754_finite false m e
    /\ (float_value (coverage_of success total)
        <= 100 * inject_Z success / inject_Z total * (1 + float_eps) ^ 4)%Q
    /\ (100 * inject_Z success / inject_Z total
        <= float_value (coverage_of success total) * (1 + float_eps) ^ 4)%Q.
Proof.
  intros Hs Ht. unfold coverage_of, float_100.
  destruct (static_cast_float_rounds success Hs)
    as (ms & es & -> & Hms & Hes & Hs1 & Hs2).
  destruct (static_cast_float_rounds total Ht)
    as (mt & et & -> & Hmt & Het & Ht1 & Ht2).
  change (static_cast_float 100) with (S754_finite false 13107200 (-17)).
  destruct (SFmul_rounds 13107200 ms (-17) es) as (mp & ep & Hp & Hmp & Hep & Hp1 & Hp2);
    [cbn; lia|exact Hms|lia|lia|].
  rewrite Hp in *.
  destruct (SFdiv_rounds mp mt ep et) as (mq & eq & Hq & Hmq & Heq & Hq1 & Hq2);
    [exact Hmp|exact Hmt|lia|lia|].
  rewrite Hq in *. exists mq, eq. split; [reflexivity|].
  assert (H100 : (float_value (S754_finite false 13107200 (-17)) == 100)%Q)
    by reflexivity.
  rewrite H100 in Hp1, Hp2.
  set (vs := float_value (S754_finite false ms es)) in *.
  set (vt := float_value (S754_finite false mt et)) in *.
  set (vp := float_value (S754_finite false mp ep)) in *.
  set (vq := float_value (S754_finite false mq eq)) in *.
  assert (Hs0 : (1 <= inject_Z success)%Q) by (rewrite <- (Zle_Qle 1); lia).
  assert (Ht0 : (1 <= inject_Z total)%Q) by (rewrite <- (Zle_Qle 1); lia).
  set (s := inject_Z success) in *. set (t := inject_Z total) in *.
  unfold float_eps in *. set (u := (1 + (1 # 8388608))%Q) in *.
  assert (Hu : (1 < u)%Q) by (subst u; reflexivity).
  assert (Hvt : (0 < vt)%Q) by nra.
  assert (Hvs : (0 < vs)%Q) by nra.
  assert (Hvp : (0 < vp)%Q) by nra.
  set (r := (vp / vt)%Q) in *.
  assert (Hr : (r * vt == vp)%Q) by (subst r; field; lra).
  assert (Hr0 : (0 < r)%Q) by nra.
  assert (Hvq : (0 < vq)%Q) by nra.
  clearbody vs vt vp vq s t r u.
  assert (Hdiv : forall a b c : Q, (0 < b)%Q -> (a * b <= c)%Q -> (a <= c / b)%Q).
  { intros a b c Hb Hab. apply Qle_shift_div_l; assumption. }
  assert (Hdiv' : forall a b c : Q, (0 < b)%Q -> (c <= a * b)%Q -> (c / b <= a)%Q).
  { intros a b c Hb Hab. apply Qle_shift_div_r; assumption. }
  assert (Hu2 : (0 < u * u)%Q) by nra.
  assert (Hu4 : (u ^ 4 == u * u * (u * u))%Q) by ring.
  split.
  - (* vq <= 100 s / t * u^4 *)
    assert (H1 : (vp <= 100 * s * (u * u))%Q) by nra.
    assert (H2 : (r * t <= 100 * s * (u * u) * u)%Q).
    { assert (r * t <= r * (vt * u))%Q by nra.
      assert (r * (vt * u) == vp * u)%Q by (rewrite <- Hr; ring).
      nra. }
    assert (H3 : (vq * t <= 100 * s * (u * u) * (u * u))%Q).
    { assert (vq * t <= r * u * t)%Q by nra.
      assert (r * u * t == r * t * u)%Q by ring.
      nra. }
    rewrite Hu4.
    assert (H4 : (100 * s / t * (u * u * (u * u)) == 100 * s * (u * u) * (u * u) / t)%Q)
      by (field; lra).
    rewrite H4. apply Hdiv; [lra|exact H3].
  - (* 100 s / t <= vq * u^4 *)
    assert (H1 : (100 * s <= vp * (u * u))%Q) by nra.
    assert (H2 : (100 * s <= r * t * (u * u) * u)%Q).
    { assert (vp == r * vt)%Q by (rewrite Hr; reflexivity).
      assert (r * vt <= r * (t * u))%Q by nra.
      nra. }
    assert (H3 : (100 * s <= vq * (u * u * (u * u)) * t)%Q).
    { assert (r * t <= vq * u * t)%Q by nra.
      assert (r * t * (u * u) * u <= vq * u * t * (u * u) * u)%Q.
      { assert (0 < u * u * u)%Q by nra.
        assert (r * t * (u * u) * u == r * t * (u * u * u))%Q by ring.
        assert (vq * u * t * (u * u) * u == vq * u * t * (u * u * u))%Q by ring.
        nra. }
      assert (vq * u * t * (u * u) * u == vq * (u * u * (u * u)) * t)%Q by ring.
      lra. }
    rewrite Hu4. apply Hdiv'; [lra|exact H3].
Qed.

Lemma iround_coverage (success total : Z) :
  0 <= success <= total -> 1 <= total < 2 ^ 64 ->
  (coverage_of success total = S754_zero false
   \/ exists m e, coverage_of success total = S754_finite false m e)
  /\ 0 <= iround (coverage_of success total) <= 100.
Proof.
  intros Hs Ht. destruct (Z.eq_dec success 0) as [->|Hne].
  - rewrite coverage_of_zero by exact Ht. split; [left; reflexivity|].
    vm_compute. split; discriminate.
  - destruct (coverage_of_rounds success total) as (m & e & Hc & Hup & _);
      [lia|exact Ht|].
    split; [right; exists m, e; exact Hc|].
    assert (Hv : (0 < float_value (coverage_of success total))%Q).
    { rewrite Hc, float_value_finite.
      apply Qmult_lt_0_compat; [reflexivity|apply Qpow2_pos]. }
    assert (Hx : (100 * inject_Z success / inject_Z total <= 100)%Q).
    { apply Qle_shift_div_r; [rewrite <- (Zlt_Qlt 0); lia|].
      assert (inject_Z success <= inject_Z total)%Q by (rewrite <- Zle_Qle; lia).
      lra. }
    assert (Hx0 : (0 <= 100 * inject_Z success / inject_Z total)%Q).
    { apply Qle_shift_div_l; [rewrite <- (Zlt_Qlt 0); lia|].
      assert (0 <= inject_Z success)%Q by (rewrite <- (Zle_Qle 0); lia).
      lra. }
    assert (Hu : ((1 + float_eps) ^ 4 < 1005 # 1000)%Q) by reflexivity.
    assert (Hu0 : (0 < (1 + float_eps) ^ 4)%Q) by reflexivity.
    unfold iround. cbv zeta.
    set (v := float_value (coverage_of success total)) in *.
    set (x := (100 * inject_Z success / inject_Z total)%Q) in *.
    set (u := ((1 + float_eps) ^ 4)%Q) in *.
    clearbody v x u.
    assert (Hv2 : (v < 1005 # 10)%Q) by nra.
    assert (Hsign : Qle_bool 0 v = true) by (apply Qle_bool_iff; lra).
    rewrite Hsign. split.
    + change 0 with (Qfloor 0). apply Qfloor_resp_le. lra.
    + pose proof (Qfloor_le (v + (1 # 2))) as Hfl.
      assert (Hlt : (inject_Z (Qfloor (v + (1 # 2))) < inject_Z 101)%Q).
      { change (inject_Z 101) with (101 # 1)%Q. lra. }
      rewrite <- Zlt_Qlt in Hlt. lia.
Qed.

Lemma coverage_of_error (success total : Z) :
  0 <= success < 2 ^ 64 -> 1 <= total < 2 ^ 64 ->
  (float_value (coverage_of success total)
   <= 100 * inject_Z success / inject_Z total * (1 + float_eps) ^ 4)%Q
  /\ (100 * inject_Z success / inject_Z total
      <= float_value (coverage_of success total) * (1 + float_eps) ^ 4)%Q.
Proof.
  intros Hs Ht. destruct (Z.eq_dec success 0) as [->|Hne].
  - rewrite coverage_of_zero by exact Ht. cbn [float_value].
    assert (Hzero : (100 * inject_Z 0 / inject_Z total == 0)%Q).
    { unfold Qdiv. change (inject_Z 0) with 0%Q. ring. }
    rewrite Hzero. split; rewrite Qmult_0_l; apply Qle_refl.
  - destruct (coverage_of_rounds success total) as (m & e & _ & Hup & Hlow);
      [lia|exact Ht|].
    split; assumption.
Qed.

End Binary32.

Section Properties.
Context `{Collaborators}.

(** ** The Allow header *)

Lemma canonical_order_complete (methods : gset HttpMethod) (m : HttpMethod) :
  m ∈ filter (fun m => m ∈ methods) canonical_order ↔ m ∈ methods.
Proof.
  rewrite list_elem_of_filter. split; [tauto|].
  intros Hm. split; [exact Hm|].
  unfold canonical_order. destruct m; set_solver.
Qed.

(** C2. For every set of accepted methods, the string built by
    [MethodsToString] is the comma-separated list of exactly the methods
    of the set, in the canonical order GET, POST, PUT, DELETE; for the
    set holding only GET it is exactly "GET". *)
Theorem MethodsToString_canonical (methods : gset HttpMethod) :
  MethodsToString methods = allow_header methods
  ∧ (∀ m, m ∈ filter (fun m => m ∈ methods) canonical_order ↔ m ∈ methods)
  ∧ MethodsToString {[ HttpMethod_Get ]} = "GET".
Proof.
  split; [|split].
  - unfold MethodsToString, allow_header, canonical_order.
    rewrite !filter_cons, filter_nil.
    repeat case_decide; reflexivity.
  - intros m. apply canonical_order_complete.
  - vm_compute. reflexivity.
Qed.

(** ** Content negotiation *)

Lemma negotiate_last (tokens : list string) (o : RestApiOutput) :
  convertJsonToXml_ (negotiate tokens o) =
  match last_recognized tokens with
  | Some token => bool_decide (token = MIME_XML)
  | None => convertJsonToXml_ o
  end.
Proof.
  revert o. induction tokens as [|token rest IH]; intros o; [reflexivity|].
  cbn [negotiate]. rewrite IH. unfold last_recognized.
  rewrite filter_cons.
  destruct (decide (recognized token)) as [Hrec|Hrec].
  - rewrite last_cons. destruct (last (filter recognized rest)); [reflexivity|].
    destruct Hrec as [-> | ->].
    + reflexivity.
    + reflexivity.
  - destruct (last (filter recognized rest)); [reflexivity|].
    unfold recognized in Hrec.
    rewrite !decide_False by tauto. reflexivity.
Qed.

Lemma negotiate_method (tokens : list string) (o : RestApiOutput) :
  output_method_ (negotiate tokens o) = output_method_ o.
Proof.
  revert o. induction tokens as [|token rest IH]; intros o; [reflexivity|].
  cbn [negotiate]. rewrite IH. repeat case_decide; reflexivity.
Qed.

(** C3. In a build with [ORTHANC_ENABLE_PUGIXML == 1] the
    wrapped output of [Handle] converts JSON to XML exactly when the last
    recognized token of the [accept] header, split on [;], is the XML
    media type; without such a token, without the header, or in a build
    without PugiXML, the output stays JSON.  With PugiXML,
    [application/json;application/xml] gives XML and
    [application/xml;application/json] gives JSON. *)
Theorem Handle_content_negotiation (method : HttpMethod) (headers : Arguments) :
  convertJsonToXml_ (negotiated_output method headers) =
    (if (ORTHANC_ENABLE_PUGIXML =? 1)%Z then
       match headers !! "accept" with
       | Some value => wants_xml (TokenizeString value ";"%char)
       | None => false
       end
     else false)
  ∧ output_method_ (negotiated_output method headers) = method
  ∧ wants_xml (TokenizeString "application/json;application/xml" ";"%char) = true
  ∧ wants_xml (TokenizeString "application/xml;application/json" ";"%char) = false.
Proof.
  split; [|split; [|split]].
  - unfold negotiated_output, wants_xml.
    destruct (ORTHANC_ENABLE_PUGIXML =? 1)%Z; [|reflexivity].
    destruct (headers !! "accept") as [value|]; [|reflexivity].
    rewrite negotiate_last. reflexivity.
  - unfold negotiated_output.
    destruct (ORTHANC_ENABLE_PUGIXML =? 1)%Z; [|reflexivity].
    destruct (headers !! "accept") as [value|]; [|reflexivity].
    apply negotiate_method.
  - vm_compute. reflexivity.
  - vm_compute. reflexivity.
Qed.

(** ** The live-dispatch visitor *)

Lemma Resource_Handle_registered (resource : Resource) (call : RestApiCall)
  (h : Handler) (s : State) :
  handler_of resource (call_method call) = Some h ->
  Resource_Handle resource call s =
    (match fst (h call (world s)) with
     | Ret doc => Ret (true, doc)
     | Throw e => Throw e
     end,
     {| world := snd (h call (world s));
        trace := trace s ++ [EvHandle call] |}).
Proof.
  intros Hh. unfold Resource_Handle. rewrite Hh.
  unfold bind, emit, modify, run_handler, record_event, ret. cbn.
  destruct (h call (world s)) as [[doc|e] w]; reflexivity.
Qed.

Lemma live_call_method (v : HttpHandlerVisitor) components trailing uri :
  call_method (live_call v components trailing uri) = method_ v.
Proof. unfold live_call. destruct (method_ v); reflexivity. Qed.

(** C4. [Visit] returns false, touching nothing and invoking no
    handler, exactly when the node has no handler for the request's
    method.  Otherwise it builds the call context of that method and
    invokes the handler exactly once; it then returns true if the handler
    returns, and lets the handler's exception through if it raises. *)
Theorem HttpHandlerVisitor_Visit_dispatch (v : HttpHandlerVisitor)
  (resource : Resource) (uri : UriComponents) (hasTrailing : bool)
  (components : Arguments) (trailing : UriComponents) (s : State) :
  HttpHandlerVisitor_Visit v resource uri hasTrailing components trailing s =
    match handler_of resource (method_ v) with
    | None => (Ret false, s)
    | Some h =>
        let call := live_call v components trailing uri in
        (match fst (h call (world s)) with
         | Ret _ => Ret true
         | Throw e => Throw e
         end,
         {| world := snd (h call (world s));
            trace := trace s ++ [EvHandle call] |})
    end.
Proof.
  unfold HttpHandlerVisitor_Visit, HasHandler.
  pose proof (live_call_method v components trailing uri) as Hm.
  destruct (handler_of resource (method_ v)) as [h|] eqn:Hh; [|reflexivity].
  unfold live_call in *. cbn zeta in *.
  destruct (method_ v); unfold bind;
    rewrite (Resource_Handle_registered _ _ h) by (rewrite Hm; exact Hh);
    cbn [fst snd];
    match goal with
    | |- context [h ?c (world s)] => destruct (h c (world s)) as [[doc|e] w]
    end; reflexivity.
Qed.

(** ** [RestApi::Handle] *)

(** C1. [Handle] follows the answer of the trie lookup run with the
    live-dispatch visitor: on a match it finalizes the wrapped output and
    returns true; on no match it asks for the accepted methods at the
    URI, returns false when there are none, and otherwise sends the
    method-not-allowed response (with the Allow string of
    [MethodsToString]) and returns true.  An exception raised during the
    lookup goes through. *)
Theorem Handle_outcome (root_ : RestApiHierarchy) (r : Request) (s : State) :
  let wrappedOutput :=
    negotiated_output (request_method r) (request_headers r) in
  let methods := GetAcceptedMethods root_ (request_uri r) in
  match
    LookupResource root_ (request_uri r) (make_visitor wrappedOutput r, s)
  with
  | (Ret true, (_, s')) =>
      Handle root_ r s =
        (Ret true, record_event s' (EvFinalize wrappedOutput))
  | (Ret false, (_, s')) =>
      if decide (methods = ∅) then
        Handle root_ r s = (Ret false, s')
      else
        Handle root_ r s =
          (Ret true,
           record_event
             (record_event s' (EvLog LOG_INFO (not_allowed_line r)))
             (EvSendMethodNotAllowed (MethodsToString methods)))
  | (Throw e, (_, s')) => Handle root_ r s = (Throw e, s')
  end.
Proof.
  intros wrappedOutput methods. unfold Handle, bind, with_visitor.
  fold wrappedOutput. fold methods.
  destruct (LookupResource root_ (request_uri r)
              (make_visitor wrappedOutput r, s)) as [[[|]|e] [v' s']].
  - reflexivity.
  - cbn [fst]. destruct (decide (methods = ∅)); reflexivity.
  - reflexivity.
Qed.

(** ** The documentation visitor: one block, one node *)

Lemma documentation_call_method method uriArguments uri :
  call_method (documentation_call method uriArguments uri) = method.
Proof. destruct method; reflexivity. Qed.

Lemma Probe_unfold (method : HttpMethod) (resource : Resource)
  (uri : UriComponents) (path : string) (uriArguments : Arguments)
  (uriArgumentsNames : gset string) (vs : OpenApiVisitor * State) :
  Probe method resource uri path uriArguments uriArgumentsNames vs =
    match handler_of resource method with
    | Some h =>
        apply_dry_runs path
          [make_dry_run method h uri uriArguments uriArgumentsNames] vs
    | None => (Ret tt, vs)
    end.
Proof.
  destruct vs as [vis s]. unfold Probe, HasHandler.
  destruct (handler_of resource method) as [h|] eqn:Hh; [|reflexivity].
  unfold apply_dry_runs, dry_run_outcome, make_dry_run, contain.
  cbn [dr_handler dr_call dr_names dr_method fst snd].
  unfold bind at 1. unfold on_visitor at 1, modify. cbn [fst snd].
  unfold bind at 1. unfold dry_run, try_catch, bind, on_state. cbn [fst snd].
  rewrite (Resource_Handle_registered _ _ h)
    by (rewrite documentation_call_method; exact Hh).
  cbn [fst snd].
  destruct (h (documentation_call method uriArguments uri) (world s))
    as [[doc|e] w]; cbn [fst snd].
  - unfold lift_outcome.
    destruct (FormatOpenApi doc uriArgumentsNames) as [[v|]|e]; cbn.
    + reflexivity.
    + reflexivity.
    + destruct (is_caught e); reflexivity.
  - destruct (is_caught e); reflexivity.
Qed.

Lemma apply_dry_runs_app (path : string) (l1 l2 : list DryRun)
  (vs : OpenApiVisitor * State) :
  apply_dry_runs path (l1 ++ l2) vs =
    match apply_dry_runs path l1 vs with
    | (Ret _, vs') => apply_dry_runs path l2 vs'
    | (Throw e, vs') => (Throw e, vs')
    end.
Proof.
  revert vs. induction l1 as [|d l1 IH]; intros vs; [reflexivity|].
  cbn [app apply_dry_runs].
  destruct (dry_run_outcome d (world (snd vs))) as [[v| |e] w'];
    [apply IH|apply IH|reflexivity].
Qed.

Lemma dry_runs_of_split (n : Visited) :
  dry_runs_of n =
    runs_for n HttpMethod_Get ++ runs_for n HttpMethod_Post
    ++ runs_for n HttpMethod_Delete ++ runs_for n HttpMethod_Put.
Proof.
  unfold dry_runs_of, runs_for. cbn [omap list_omap].
  destruct (dry_run_of n HttpMethod_Get), (dry_run_of n HttpMethod_Post),
    (dry_run_of n HttpMethod_Delete), (dry_run_of n HttpMethod_Put);
    reflexivity.
Qed.

Lemma Probe_runs_for (n : Visited) (method : HttpMethod)
  (vs : OpenApiVisitor * State) :
  Probe method (visited_resource n) (visited_uri n) (visited_path n)
    (snd (collect_uri_arguments (visited_components n) (visited_hasTrailing n)))
    (fst (collect_uri_arguments (visited_components n) (visited_hasTrailing n)))
    vs
  = apply_dry_runs (visited_path n) (runs_for n method) vs.
Proof.
  rewrite Probe_unfold. unfold runs_for, dry_run_of.
  destruct (handler_of (visited_resource n) method); reflexivity.
Qed.

(** [Visit] is its four blocks in the order GET, POST, DELETE, PUT. *)
Lemma OpenApiVisitor_Visit_blocks (resource : Resource) (uri : UriComponents)
  (hasTrailing : bool) (components : Arguments) (trailing : UriComponents) :
  OpenApiVisitor_Visit resource uri hasTrailing components trailing
  = Visit_by_blocks resource uri hasTrailing components trailing.
Proof. reflexivity. Qed.

Lemma Visit_unfold (n : Visited) (vs : OpenApiVisitor * State) :
  OpenApiVisitor_Visit (visited_resource n) (visited_uri n)
    (visited_hasTrailing n) (visited_components n) (visited_trailing n) vs =
    if decide (is_Some (paths_ (fst vs) !! visited_path n)) then
      (Throw (OrthancException ErrorCode_InternalError), vs)
    else
      match apply_dry_runs (visited_path n) (dry_runs_of n) vs with
      | (Ret _, vs') => (Ret true, vs')
      | (Throw e, vs') => (Throw e, vs')
      end.
Proof.
  rewrite OpenApiVisitor_Visit_blocks.
  unfold Visit_by_blocks. unfold bind at 1. unfold gets.
  fold (visited_path n).
  destruct (decide (is_Some (paths_ (fst vs) !! visited_path n)));
    [reflexivity|].
  rewrite dry_runs_of_split.
  unfold bind at 1. rewrite Probe_runs_for, apply_dry_runs_app.
  destruct (apply_dry_runs (visited_path n) (runs_for n HttpMethod_Get) vs)
    as [[[]|e] vs1]; [|reflexivity].
  unfold bind at 1. rewrite Probe_runs_for, apply_dry_runs_app.
  destruct (apply_dry_runs (visited_path n) (runs_for n HttpMethod_Post) vs1)
    as [[[]|e] vs2]; [|reflexivity].
  unfold bind at 1. rewrite Probe_runs_for, apply_dry_runs_app.
  destruct (apply_dry_runs (visited_path n) (runs_for n HttpMethod_Delete) vs2)
    as [[[]|e] vs3]; [|reflexivity].
  unfold bind at 1. rewrite Probe_runs_for.
  destruct (apply_dry_runs (visited_path n) (runs_for n HttpMethod_Put) vs3)
    as [[[]|e] vs4]; reflexivity.
Qed.

(** ** Counters *)

Lemma size_t_add_0 (n : Z) : 0 <= n < 2 ^ SIZE_WIDTH -> size_t_add n 0 = n.
Proof. intros Hn. unfold size_t_add. rewrite Z.add_0_r. apply Z.mod_small, Hn. Qed.

Lemma size_t_add_add (n j k : Z) :
  size_t_add (size_t_add n j) k = size_t_add n (j + k).
Proof.
  unfold size_t_add. rewrite Zplus_mod_idemp_l. f_equal. lia.
Qed.

Lemma size_t_incr_alt (n : Z) : size_t_incr n = size_t_add n 1.
Proof. reflexivity. Qed.

Lemma successful_pairs_app (l1 l2 : list DryRun) (w : World) :
  successful_pairs (l1 ++ l2) w =
    successful_pairs l1 w + successful_pairs l2 (world_after l1 w).
Proof.
  revert w. induction l1 as [|d l1 IH]; intros w; cbn [app successful_pairs world_after].
  - lia.
  - destruct (dry_run_outcome d w) as [r w']. cbn [snd]. rewrite IH. lia.
Qed.

Lemma world_after_app (l1 l2 : list DryRun) (w : World) :
  world_after (l1 ++ l2) w = world_after l2 (world_after l1 w).
Proof.
  revert w. induction l1 as [|d l1 IH]; intros w; [reflexivity|].
  cbn [app world_after]. apply IH.
Qed.

Lemma apply_dry_runs_counters (path : string) (runs : list DryRun)
  (vs : OpenApiVisitor * State) :
  0 <= totalPathsCount_ (fst vs) < 2 ^ SIZE_WIDTH ->
  0 <= successPathsCount_ (fst vs) < 2 ^ SIZE_WIDTH ->
  counters_step runs vs (apply_dry_runs path runs vs).
Proof.
  revert vs. induction runs as [|d rest IH]; intros [vis s] Ht Hs.
  - exists 0, 0. cbn. rewrite !size_t_add_0 by assumption. repeat split; lia.
  - cbn [apply_dry_runs fst snd].
    pose proof (Z.mod_pos_bound (totalPathsCount_ vis + 1) (2 ^ SIZE_WIDTH)
                  ltac:(reflexivity)) as Ht'.
    pose proof (Z.mod_pos_bound (successPathsCount_ vis + 1) (2 ^ SIZE_WIDTH)
                  ltac:(reflexivity)) as Hs'.
    destruct (dry_run_outcome d (world s)) as [[v| |e] w'] eqn:Hd.
    + match goal with
      | |- counters_step _ _ (apply_dry_runs _ _ ?vs1) =>
          destruct (IH vs1) as (j & k & Hk & Hj & Etot & Esuc & Hret);
            [exact Ht'|exact Hs'|]
      end.
      exists (1 + j), (1 + k).
      cbn [fst snd length incr_total record_path totalPathsCount_
             successPathsCount_ world] in *.
      rewrite Etot, Esuc.
      rewrite !size_t_incr_alt, !size_t_add_add.
      repeat split; try lia.
      * specialize (Hret u ltac:(assumption)). lia.
      * cbn [successful_pairs]. rewrite Hd.
        specialize (Hret u ltac:(assumption)). lia.
      * cbn [world_after]. rewrite Hd. cbn [snd].
        specialize (Hret u ltac:(assumption)). tauto.
    + match goal with
      | |- counters_step _ _ (apply_dry_runs _ _ ?vs1) =>
          destruct (IH vs1) as (j & k & Hk & Hj & Etot & Esuc & Hret);
            [exact Ht'|exact Hs|]
      end.
      exists (1 + j), k.
      cbn [fst snd length incr_total record_event totalPathsCount_
             successPathsCount_ world] in *.
      rewrite Etot, Esuc.
      rewrite !size_t_incr_alt, !size_t_add_add.
      repeat split; try lia.
      * specialize (Hret u ltac:(assumption)). lia.
      * cbn [successful_pairs]. rewrite Hd.
        specialize (Hret u ltac:(assumption)). lia.
      * cbn [world_after]. rewrite Hd. cbn [snd].
        specialize (Hret u ltac:(assumption)). tauto.
    + exists 1, 0. cbn [fst snd length].
      rewrite size_t_add_0 by assumption.
      repeat split; try lia. all: intros; discriminate.
Qed.

Lemma size_t_add_range (n k : Z) : 0 <= size_t_add n k < 2 ^ SIZE_WIDTH.
Proof. unfold size_t_add. apply Z.mod_pos_bound. reflexivity. Qed.

Lemma counters_step_in_range {A} runs vs (r : Outcome A * (OpenApiVisitor * State)) :
  counters_step runs vs r -> counters_in_range (fst (snd r)).
Proof.
  intros (j & k & _ & _ & Et & Es & _). unfold counters_in_range.
  rewrite Et, Es. split; apply size_t_add_range.
Qed.

Lemma counters_step_range {A} runs vs (r : Outcome A * (OpenApiVisitor * State)) :
  counters_step runs vs r -> counters_range runs vs (snd r).
Proof.
  intros (j & k & Hk & Hj & Et & Es & _). exists j, k. tauto.
Qed.

Lemma counters_range_trans runs1 runs2 vs0 vs1 vs2 :
  counters_range runs1 vs0 vs1 -> counters_range runs2 vs1 vs2 ->
  counters_range (runs1 ++ runs2) vs0 vs2.
Proof.
  intros (j1 & k1 & Hk1 & Hj1 & Et1 & Es1) (j2 & k2 & Hk2 & Hj2 & Et2 & Es2).
  exists (j1 + j2), (k1 + k2). rewrite length_app, Nat2Z.inj_add.
  rewrite Et2, Es2, Et1, Es1, !size_t_add_add. repeat split; lia.
Qed.

Lemma counters_step_seq {A B} runs1 runs2 vs
  (r1 : Outcome A * (OpenApiVisitor * State))
  (r2 : Outcome B * (OpenApiVisitor * State)) (u : A) :
  counters_step runs1 vs r1 -> fst r1 = Ret u ->
  counters_step runs2 (snd r1) r2 ->
  counters_step (runs1 ++ runs2) vs r2.
Proof.
  intros (j1 & k1 & Hk1 & Hj1 & Et1 & Es1 & Hret1) Hu
         (j2 & k2 & Hk2 & Hj2 & Et2 & Es2 & Hret2).
  destruct (Hret1 u Hu) as (-> & -> & Hw).
  exists (Z.of_nat (length runs1) + j2),
         (successful_pairs runs1 (world (snd vs)) + k2).
  rewrite length_app, Nat2Z.inj_add.
  rewrite Et2, Es2, Et1, Es1, !size_t_add_add.
  repeat split; try lia.
  - destruct (Hret2 u0 ltac:(assumption)) as (-> & _ & _). lia.
  - destruct (Hret2 u0 ltac:(assumption)) as (_ & -> & _).
    rewrite successful_pairs_app, Hw. reflexivity.
  - destruct (Hret2 u0 ltac:(assumption)) as (_ & _ & ->).
    rewrite world_after_app, Hw. reflexivity.
Qed.

Lemma counters_step_stop {A B} runs1 runs2 vs
  (r1 : Outcome A * (OpenApiVisitor * State)) (e : Exception) :
  counters_step runs1 vs r1 ->
  counters_step (A := B) (runs1 ++ runs2) vs (Throw e, snd r1).
Proof.
  intros (j1 & k1 & Hk1 & Hj1 & Et1 & Es1 & _).
  exists j1, k1. rewrite length_app, Nat2Z.inj_add. cbn [fst snd].
  repeat split; try lia; try assumption. all: intros; discriminate.
Qed.

Lemma Visit_counters (n : Visited) (vs : OpenApiVisitor * State) :
  counters_in_range (fst vs) ->
  counters_step (dry_runs_of n) vs
    (OpenApiVisitor_Visit (visited_resource n) (visited_uri n)
       (visited_hasTrailing n) (visited_components n) (visited_trailing n) vs).
Proof.
  intros [Ht Hs]. rewrite Visit_unfold.
  destruct (decide (is_Some (paths_ (fst vs) !! visited_path n))).
  - exists 0, 0. cbn [fst snd]. rewrite !size_t_add_0 by assumption.
    repeat split; try lia. all: intros; discriminate.
  - pose proof (apply_dry_runs_counters (visited_path n) (dry_runs_of n) vs Ht Hs)
      as (j & k & Hk & Hj & Et & Es & Hret).
    destruct (apply_dry_runs (visited_path n) (dry_runs_of n) vs)
      as [[[]|e] vs'].
    + exists j, k. cbn [fst snd] in *. repeat split; try lia; try assumption.
      all: intros; destruct (Hret tt eq_refl) as (? & ? & ?); assumption.
    + exists j, k. cbn [fst snd] in *. repeat split; try lia; try assumption.
      all: intros; discriminate.
Qed.

Lemma VisitAll_cons (n : Visited) (rest : list Visited)
  (vs : OpenApiVisitor * State) :
  VisitAll (n :: rest) vs =
    match
      OpenApiVisitor_Visit (visited_resource n) (visited_uri n)
        (visited_hasTrailing n) (visited_components n) (visited_trailing n) vs
    with
    | (Ret _, vs') => VisitAll rest vs'
    | (Throw e, vs') => (Throw e, vs')
    end.
Proof. reflexivity. Qed.

Lemma VisitAll_counters (nodes : list Visited) (vs : OpenApiVisitor * State) :
  counters_in_range (fst vs) ->
  counters_step (all_dry_runs nodes) vs (VisitAll nodes vs).
Proof.
  revert vs. induction nodes as [|n rest IH]; intros vs Hvs.
  - destruct Hvs as [Ht Hs]. exists 0, 0. cbn.
    rewrite !size_t_add_0 by assumption. repeat split; lia.
  - rewrite VisitAll_cons. unfold all_dry_runs. cbn [flat_map].
    pose proof (Visit_counters n vs Hvs) as Hn.
    destruct (OpenApiVisitor_Visit (visited_resource n) (visited_uri n)
                (visited_hasTrailing n) (visited_components n)
                (visited_trailing n) vs) as [[b|e] vs'] eqn:Hv.
    + eapply counters_step_seq; [exact Hn|reflexivity|].
      apply IH. apply (counters_step_in_range _ _ _ Hn).
    + apply (counters_step_stop (B := unit) _ (flat_map dry_runs_of rest) _ _ e Hn).
Qed.

Lemma visit_each_counters (nodes : list Visited) (vs : OpenApiVisitor * State) :
  counters_in_range (fst vs) ->
  counters_range (all_dry_runs nodes) vs (visit_each nodes vs).
Proof.
  revert vs. induction nodes as [|n rest IH]; intros vs Hvs.
  - destruct Hvs as [Ht Hs]. exists 0, 0. cbn.
    rewrite !size_t_add_0 by assumption. repeat split; lia.
  - cbn [visit_each]. unfold all_dry_runs. cbn [flat_map].
    pose proof (Visit_counters n vs Hvs) as Hn.
    eapply counters_range_trans.
    + apply (counters_step_range _ _ _ Hn).
    + apply IH. apply (counters_step_in_range _ _ _ Hn).
Qed.

(** ** Recorded paths *)

Lemma method_key_inj (m1 m2 : HttpMethod) :
  method_key m1 = method_key m2 -> m1 = m2.
Proof. destruct m1, m2; cbn; intros Hk; congruence. Qed.

Lemma dry_run_of_method (n : Visited) (m : HttpMethod) (d : DryRun) :
  dry_run_of n m = Some d -> dr_method d = m.
Proof.
  unfold dry_run_of. destruct (handler_of (visited_resource n) m); [|discriminate].
  intros [= <-]. reflexivity.
Qed.

Lemma dry_runs_of_elem (n : Visited) (d : DryRun) :
  d ∈ dry_runs_of n ↔ dry_run_of n (dr_method d) = Some d.
Proof.
  unfold dry_runs_of. rewrite list_elem_of_omap. split.
  - intros (m & _ & Hd). rewrite (dry_run_of_method _ _ _ Hd). exact Hd.
  - intros Hd. exists (dr_method d). split; [|exact Hd].
    destruct (dr_method d); set_solver.
Qed.

Lemma dry_runs_of_registered (n : Visited) (d : DryRun) :
  d ∈ dry_runs_of n -> HasHandler (visited_resource n) (dr_method d) = true.
Proof.
  rewrite dry_runs_of_elem. unfold dry_run_of, HasHandler.
  destruct (handler_of (visited_resource n) (dr_method d)); [reflexivity|discriminate].
Qed.

(** What a run of blocks does to the path map: other paths are left
    alone, and a member appears under the path only as the fragment of a
    documented dry run, keyed by its method. *)
Lemma apply_dry_runs_paths (path : string) (runs : list DryRun)
  (vs : OpenApiVisitor * State) :
  (∀ p, p ≠ path ->
     paths_ (fst (snd (apply_dry_runs path runs vs))) !! p = paths_ (fst vs) !! p)
  ∧ (∀ key fragment,
       default ∅ (paths_ (fst (snd (apply_dry_runs path runs vs))) !! path)
         !! key = Some fragment ->
       default ∅ (paths_ (fst vs) !! path) !! key = Some fragment
       ∨ ∃ d w, d ∈ runs ∧ key = method_key (dr_method d)
                ∧ fst (dry_run_outcome d w) = Documented fragment).
Proof.
  revert vs. induction runs as [|d rest IH]; intros [vis s].
  - cbn. split; [reflexivity|]. intros key fragment Hk. left. exact Hk.
  - cbn [apply_dry_runs fst snd].
    destruct (dry_run_outcome d (world s)) as [[v| |e] w'] eqn:Hd.
    + match goal with
      | |- context [apply_dry_runs path rest ?vs1] =>
          destruct (IH vs1) as [Hother Hsame]
      end.
      cbn [fst snd record_path incr_total paths_] in *. split.
      * intros p Hp. rewrite Hother by exact Hp.
        rewrite lookup_insert_ne by congruence. reflexivity.
      * intros key fragment Hk. apply Hsame in Hk.
        destruct Hk as [Hk|(d' & w & Hin & Hkey & Hdoc)].
        -- rewrite (lookup_insert_eq (M:=gmap string) (paths_ vis)) in Hk.
           cbn [from_option id] in Hk.
           destruct (decide (key = method_key (dr_method d))) as [->|Hne].
           ++ rewrite lookup_insert_eq in Hk. injection Hk as <-.
              right. exists d, (world s). rewrite Hd.
              split; [apply list_elem_of_here|]. split; reflexivity.
           ++ rewrite lookup_insert_ne in Hk by congruence. left. exact Hk.
        -- right. exists d', w.
           split; [apply list_elem_of_further, Hin|]. split; assumption.
    + match goal with
      | |- context [apply_dry_runs path rest ?vs1] =>
          destruct (IH vs1) as [Hother Hsame]
      end.
      cbn [fst snd incr_total paths_] in *. split; [exact Hother|].
      intros key fragment Hk. apply Hsame in Hk.
      destruct Hk as [Hk|(d' & w & Hin & Hkey & Hdoc)]; [left; exact Hk|].
      right. exists d', w.
      split; [apply list_elem_of_further, Hin|]. split; assumption.
    + cbn [fst snd incr_total paths_]. split; [reflexivity|].
      intros key fragment Hk. left. exact Hk.
Qed.

Lemma Visit_paths (n : Visited) (vs : OpenApiVisitor * State) :
  let vs' :=
    snd (OpenApiVisitor_Visit (visited_resource n) (visited_uri n)
           (visited_hasTrailing n) (visited_components n)
           (visited_trailing n) vs) in
  (∀ p, p ≠ visited_path n -> paths_ (fst vs') !! p = paths_ (fst vs) !! p)
  ∧ (is_Some (paths_ (fst vs) !! visited_path n) ->
     paths_ (fst vs') = paths_ (fst vs))
  ∧ (paths_ (fst vs) !! visited_path n = None ->
     ∀ key fragment,
       default ∅ (paths_ (fst vs') !! visited_path n) !! key = Some fragment ->
       ∃ d w, d ∈ dry_runs_of n ∧ key = method_key (dr_method d)
              ∧ fst (dry_run_outcome d w) = Documented fragment).
Proof.
  intros vs'. subst vs'. rewrite Visit_unfold.
  destruct (decide (is_Some (paths_ (fst vs) !! visited_path n))) as [Hin|Hout].
  - cbn [snd]. split; [reflexivity|]. split; [reflexivity|].
    intros Hnone. rewrite Hnone in Hin. destruct Hin as [? [=]].
  - pose proof (apply_dry_runs_paths (visited_path n) (dry_runs_of n) vs)
      as [Hother Hsame].
    destruct (apply_dry_runs (visited_path n) (dry_runs_of n) vs)
      as [[[]|e] vs1]; cbn [snd] in *.
    all: split; [exact Hother|]; split; [intros Hin; contradiction|].
    all: intros Hnone key fragment Hk; apply Hsame in Hk.
    all: rewrite Hnone in Hk; cbn [from_option id] in Hk.
    all: destruct Hk as [Hk|Hk]; [rewrite lookup_empty in Hk; discriminate|exact Hk].
Qed.

(** ** Traces *)

Lemma handled_calls_app (l1 l2 : list Event) :
  handled_calls (l1 ++ l2) = handled_calls l1 ++ handled_calls l2.
Proof. unfold handled_calls. apply omap_app. Qed.

Lemma always_raises_caught_outcome (d : DryRun) (w : World) :
  always_raises_caught d -> fst (dry_run_outcome d w) = Undocumented.
Proof.
  intros Hd. destruct (Hd w) as (e & He & Hc).
  unfold dry_run_outcome.
  destruct (dr_handler d (dr_call d) w) as [r w']. cbn [fst] in *.
  subst r. unfold contain. rewrite Hc. reflexivity.
Qed.

(** A run of blocks that completes has invoked every handler once, in
    order, and has logged the warning of every dry run that raised. *)
Lemma apply_dry_runs_trace (path : string) (runs : list DryRun)
  (vs vs' : OpenApiVisitor * State) (u : unit) :
  apply_dry_runs path runs vs = (Ret u, vs') ->
  ∃ suffix,
    trace (snd vs') = trace (snd vs) ++ suffix
    ∧ handled_calls suffix = map dr_call runs
    ∧ (∀ d, d ∈ runs -> always_raises_caught d ->
         ignoring_warning (dr_method d) path ∈ suffix).
Proof.
  revert vs. induction runs as [|d rest IH]; intros [vis s] Hrun.
  - injection Hrun as _ <-. exists []. cbn. rewrite app_nil_r.
    split; [reflexivity|]. split; [reflexivity|].
    intros d Hd. apply elem_of_nil in Hd. contradiction.
  - cbn [apply_dry_runs fst snd] in Hrun.
    destruct (dry_run_outcome d (world s)) as [[v| |e] w'] eqn:Hd.
    + apply IH in Hrun. destruct Hrun as (suffix & Htr & Hcalls & Hwarn).
      cbn [fst snd trace] in Htr.
      exists (EvHandle (dr_call d) :: suffix). split; [|split].
      * rewrite Htr, <- app_assoc. reflexivity.
      * unfold handled_calls in *. cbn [omap list_omap map].
        rewrite Hcalls. reflexivity.
      * intros d' Hin Hraise. apply elem_of_cons in Hin.
        destruct Hin as [->|Hin].
        -- pose proof (always_raises_caught_outcome d (world s) Hraise) as Hu.
           rewrite Hd in Hu. discriminate.
        -- apply list_elem_of_further. apply Hwarn; assumption.
    + apply IH in Hrun. destruct Hrun as (suffix & Htr & Hcalls & Hwarn).
      cbn [fst snd trace record_event] in Htr.
      exists (EvHandle (dr_call d) :: ignoring_warning (dr_method d) path :: suffix).
      split; [|split].
      * rewrite Htr, <- !app_assoc. reflexivity.
      * unfold handled_calls in *. cbn [omap list_omap map].
        rewrite Hcalls. reflexivity.
      * intros d' Hin Hraise. apply elem_of_cons in Hin.
        destruct Hin as [->|Hin].
        -- apply list_elem_of_further, list_elem_of_here.
        -- do 2 apply list_elem_of_further. apply Hwarn; assumption.
    + discriminate.
Qed.

(** ** Completion *)

Lemma apply_dry_runs_contained (path : string) (runs : list DryRun)
  (vs : OpenApiVisitor * State) :
  Forall contained runs ->
  ∃ vs', apply_dry_runs path runs vs = (Ret tt, vs').
Proof.
  revert vs. induction runs as [|d rest IH]; intros [vis s] Hc.
  - exists (vis, s). reflexivity.
  - apply Forall_cons in Hc. destruct Hc as [Hd Hrest].
    cbn [apply_dry_runs fst snd].
    pose proof (Hd (world s)) as Hne.
    destruct (dry_run_outcome d (world s)) as [[v| |e] w'].
    + apply IH, Hrest.
    + apply IH, Hrest.
    + exfalso. apply (Hne e). reflexivity.
Qed.

Lemma Visit_completes (n : Visited) (vs : OpenApiVisitor * State) :
  paths_ (fst vs) !! visited_path n = None ->
  Forall contained (dry_runs_of n) ->
  ∃ vs',
    OpenApiVisitor_Visit (visited_resource n) (visited_uri n)
      (visited_hasTrailing n) (visited_components n) (visited_trailing n) vs
    = (Ret true, vs')
    ∧ apply_dry_runs (visited_path n) (dry_runs_of n) vs = (Ret tt, vs').
Proof.
  intros Hnone Hc. rewrite Visit_unfold.
  destruct (decide (is_Some (paths_ (fst vs) !! visited_path n))) as [Hin|_].
  { rewrite Hnone in Hin. destruct Hin as [? [=]]. }
  destruct (apply_dry_runs_contained (visited_path n) _ vs Hc) as [vs' Hrun].
  exists vs'. rewrite Hrun. split; reflexivity.
Qed.

(** A pass over nodes whose paths differ from one another and from the
    recorded ones, in which no dry run lets an exception escape,
    completes; every registered handler has then been invoked once, in
    order, and every dry run that raised has its warning. *)
Lemma VisitAll_completes (nodes : list Visited) (vs : OpenApiVisitor * State) :
  NoDup (map visited_path nodes) ->
  (∀ n, n ∈ nodes -> paths_ (fst vs) !! visited_path n = None) ->
  Forall contained (all_dry_runs nodes) ->
  ∃ vs' suffix,
    VisitAll nodes vs = (Ret tt, vs')
    ∧ trace (snd vs') = trace (snd vs) ++ suffix
    ∧ handled_calls suffix = map dr_call (all_dry_runs nodes)
    ∧ (∀ n d, n ∈ nodes -> d ∈ dry_runs_of n -> always_raises_caught d ->
         ignoring_warning (dr_method d) (visited_path n) ∈ suffix).
Proof.
  revert vs. induction nodes as [|n rest IH]; intros vs Hnd Hfresh Hc.
  - exists vs, []. cbn. rewrite app_nil_r. repeat split.
    intros n d Hn. apply elem_of_nil in Hn. contradiction.
  - cbn [map] in Hnd. apply NoDup_cons in Hnd. destruct Hnd as [Hnotin Hnd].
    unfold all_dry_runs in Hc. cbn [flat_map] in Hc.
    apply Forall_app in Hc. destruct Hc as [Hcn Hcrest].
    destruct (Visit_completes n vs) as (vs1 & Hvisit & Hrun);
      [apply Hfresh, list_elem_of_here|exact Hcn|].
    destruct (apply_dry_runs_trace _ _ _ _ _ Hrun)
      as (suffix1 & Htr1 & Hcalls1 & Hwarn1).
    pose proof (Visit_paths n vs) as [Hother _]. cbn zeta in Hother.
    rewrite Hvisit in Hother. cbn [snd] in Hother.
    destruct (IH vs1) as (vs' & suffix2 & Hall & Htr2 & Hcalls2 & Hwarn2);
      [exact Hnd| |exact Hcrest|].
    { intros n' Hn'. rewrite Hother.
      - apply Hfresh, list_elem_of_further, Hn'.
      - intros Heq. apply Hnotin. rewrite <- Heq.
        apply list_elem_of_fmap. exists n'. split; [reflexivity|exact Hn']. }
    exists vs', (suffix1 ++ suffix2). split; [|split; [|split]].
    + rewrite VisitAll_cons, Hvisit. exact Hall.
    + rewrite Htr2, Htr1, <- app_assoc. reflexivity.
    + rewrite handled_calls_app, Hcalls1, Hcalls2.
      unfold all_dry_runs. cbn [flat_map]. rewrite map_app. reflexivity.
    + intros n' d Hn' Hd Hraise. apply elem_of_app.
      apply elem_of_cons in Hn'. destruct Hn' as [->|Hn'].
      * left. apply Hwarn1; assumption.
      * right. apply (Hwarn2 n' d); assumption.
Qed.

(** ** Determinism *)

Lemma dry_run_outcome_deterministic (d : DryRun) (w1 w2 : World) :
  deterministic d ->
  fst (dry_run_outcome d w1) = fst (dry_run_outcome d w2).
Proof.
  intros Hd. specialize (Hd w1 w2). unfold dry_run_outcome.
  destruct (dr_handler d (dr_call d) w1) as [r1 w1'].
  destruct (dr_handler d (dr_call d) w2) as [r2 w2'].
  cbn [fst] in *. subst r2. reflexivity.
Qed.

Lemma apply_dry_runs_deterministic (path : string) (runs : list DryRun)
  (vis : OpenApiVisitor) (s1 s2 : State) :
  Forall deterministic runs ->
  fst (apply_dry_runs path runs (vis, s1))
  = fst (apply_dry_runs path runs (vis, s2))
  ∧ fst (snd (apply_dry_runs path runs (vis, s1)))
    = fst (snd (apply_dry_runs path runs (vis, s2))).
Proof.
  revert vis s1 s2. induction runs as [|d rest IH]; intros vis s1 s2 Hdet.
  - split; reflexivity.
  - apply Forall_cons in Hdet. destruct Hdet as [Hd Hrest].
    cbn [apply_dry_runs fst snd].
    pose proof (dry_run_outcome_deterministic d (world s1) (world s2) Hd) as Heq.
    destruct (dry_run_outcome d (world s1)) as [r1 w1'].
    destruct (dry_run_outcome d (world s2)) as [r2 w2'].
    cbn [fst] in Heq. subst r2.
    destruct r1 as [v| |e]; [apply IH, Hrest|apply IH, Hrest|].
    split; reflexivity.
Qed.

Lemma VisitAll_deterministic (nodes : list Visited) (vis : OpenApiVisitor)
  (s1 s2 : State) :
  Forall deterministic (all_dry_runs nodes) ->
  fst (VisitAll nodes (vis, s1)) = fst (VisitAll nodes (vis, s2))
  ∧ fst (snd (VisitAll nodes (vis, s1))) = fst (snd (VisitAll nodes (vis, s2))).
Proof.
  revert vis s1 s2. induction nodes as [|n rest IH]; intros vis s1 s2 Hdet.
  - split; reflexivity.
  - unfold all_dry_runs in Hdet. cbn [flat_map] in Hdet.
    apply Forall_app in Hdet. destruct Hdet as [Hn Hrest].
    rewrite !VisitAll_cons, !Visit_unfold. cbn [fst].
    destruct (decide (is_Some (paths_ vis !! visited_path n))).
    + split; reflexivity.
    + pose proof (apply_dry_runs_deterministic (visited_path n) _ vis s1 s2 Hn)
        as [Ho Hv].
      destruct (apply_dry_runs (visited_path n) (dry_runs_of n) (vis, s1))
        as [o1 [v1 t1]].
      destruct (apply_dry_runs (visited_path n) (dry_runs_of n) (vis, s2))
        as [o2 [v2 t2]].
      cbn [fst snd] in Ho, Hv. subst o2 v2.
      destruct o1 as [[]|e]; [apply IH, Hrest|]. split; reflexivity.
Qed.

(** ** Whole passes *)

Lemma VisitAll_app (l1 l2 : list Visited) (vs : OpenApiVisitor * State) :
  VisitAll (l1 ++ l2) vs =
    match VisitAll l1 vs with
    | (Ret _, vs') => VisitAll l2 vs'
    | (Throw e, vs') => (Throw e, vs')
    end.
Proof.
  revert vs. induction l1 as [|n l1 IH]; intros vs; [reflexivity|].
  cbn [app]. rewrite !VisitAll_cons.
  destruct (OpenApiVisitor_Visit _ _ _ _ _ vs) as [[b|e] vs1];
    [apply IH|reflexivity].
Qed.

Lemma GenerateOpenApiDocumentation_unfold (root_ : RestApiHierarchy)
  (s : State) :
  GenerateOpenApiDocumentation root_ s =
    match VisitAll (AllResources root_ [] ∅) (OpenApiVisitor_new, s) with
    | (Ret _, (visitor, s')) =>
        (Ret (openapi_document visitor, visitor),
         record_event s' (EvLog LOG_WARNING (coverage_line visitor)))
    | (Throw e, (_, s')) => (Throw e, s')
    end.
Proof.
  unfold GenerateOpenApiDocumentation, bind, with_visitor, ExploreAllResources.
  destruct (VisitAll (AllResources root_ [] ∅) (OpenApiVisitor_new, s))
    as [[[]|e] [visitor s']]; reflexivity.
Qed.

Lemma OpenApiVisitor_new_in_range : counters_in_range OpenApiVisitor_new.
Proof. unfold counters_in_range. cbn. split; split; (lia || reflexivity). Qed.

(** Every recorded path is the path of a visited node, and every member
    under it is the fragment of a documented dry run of that node. *)
Lemma VisitAll_paths (nodes : list Visited) (vs : OpenApiVisitor * State)
  (path : string) (entry : gmap string Json) :
  paths_ (fst (snd (VisitAll nodes vs))) !! path = Some entry ->
  paths_ (fst vs) !! path = Some entry
  ∨ ∃ n, n ∈ nodes ∧ path = visited_path n
         ∧ ∀ key fragment, entry !! key = Some fragment ->
             ∃ d w, d ∈ dry_runs_of n ∧ key = method_key (dr_method d)
                    ∧ fst (dry_run_outcome d w) = Documented fragment.
Proof.
  revert vs. induction nodes as [|n rest IH]; intros vs Hfinal.
  - left. exact Hfinal.
  - rewrite VisitAll_cons in Hfinal.
    pose proof (Visit_paths n vs) as (Hother & Hsame & Hnew). cbn zeta in *.
    assert (Hmid :
      paths_ (fst (snd (OpenApiVisitor_Visit (visited_resource n)
                          (visited_uri n) (visited_hasTrailing n)
                          (visited_components n) (visited_trailing n) vs)))
        !! path = Some entry
      ∨ ∃ n', n' ∈ rest ∧ path = visited_path n'
           ∧ ∀ key fragment, entry !! key = Some fragment ->
               ∃ d w, d ∈ dry_runs_of n' ∧ key = method_key (dr_method d)
                      ∧ fst (dry_run_outcome d w) = Documented fragment).
    { destruct (OpenApiVisitor_Visit _ _ _ _ _ vs) as [[b|e] vs1];
        cbn [fst snd] in *; [apply IH, Hfinal|left; exact Hfinal]. }
    destruct Hmid as [Hmid|(n' & Hn' & Hp & Hkeys)].
    + destruct (decide (path = visited_path n)) as [->|Hne].
      * destruct (decide (is_Some (paths_ (fst vs) !! visited_path n)))
          as [Hold|Hold].
        -- left. rewrite (Hsame Hold) in Hmid. exact Hmid.
        -- apply eq_None_not_Some in Hold.
           right. exists n. split; [apply list_elem_of_here|].
           split; [reflexivity|]. intros key fragment Hk.
           apply (Hnew Hold key fragment). rewrite Hmid. exact Hk.
      * left. rewrite Hother in Hmid by exact Hne. exact Hmid.
    + right. exists n'. split; [apply list_elem_of_further, Hn'|].
      split; assumption.
Qed.

(** A pass that meets no duplicate path and no escaping exception
    returns. *)
Lemma GenerateOpenApiDocumentation_returns (root_ : RestApiHierarchy)
  (s : State) :
  NoDup (map visited_path (AllResources root_ [] ∅)) ->
  Forall contained (all_dry_runs (AllResources root_ [] ∅)) ->
  ∃ target visitor s',
    GenerateOpenApiDocumentation root_ s = (Ret (target, visitor), s').
Proof.
  intros Hnd Hc.
  destruct (VisitAll_completes (AllResources root_ [] ∅)
              (OpenApiVisitor_new, s) Hnd) as (vs' & suffix & Hall & _);
    [intros n _; apply lookup_empty|exact Hc|].
  rewrite GenerateOpenApiDocumentation_unfold, Hall.
  destruct vs' as [visitor s']. eauto.
Qed.

(** ** The documentation pass: main results *)

(** C5. [Visit] runs one block per method.  A business-logic exception
    or a bad lexical cast raised by the dry run of one method is caught
    inside its block: the block completes, the total is counted, the
    path map and the success counter are left as they were, and the
    warning naming the method and the path is logged.  Hence [Visit] on
    a fresh path returns true having invoked the handler of every method
    registered at the node, and a pass over distinct paths invokes the
    handler of every registered (path, method) pair, as long as no other
    kind of exception is raised. *)
Theorem probe_failure_is_contained :
  (∀ resource uri hasTrailing components trailing,
     OpenApiVisitor_Visit resource uri hasTrailing components trailing
     = Visit_by_blocks resource uri hasTrailing components trailing)
  ∧ (∀ (method : HttpMethod) (resource : Resource) (uri : UriComponents)
     (path : string) (uriArguments : Arguments) (names : gset string)
     (visitor : OpenApiVisitor) (s : State) (h : Handler) (e : Exception)
     (w' : World),
     handler_of resource method = Some h ->
     h (documentation_call method uriArguments uri) (world s) = (Throw e, w') ->
     (∃ code, e = OrthancException code) ∨ e = bad_lexical_cast ->
     Probe method resource uri path uriArguments names (visitor, s) =
       (Ret tt,
        (incr_total visitor,
         {| world := w';
            trace :=
              trace s
              ++ [EvHandle (documentation_call method uriArguments uri);
                  ignoring_warning method path] |})))
  ∧ (∀ (n : Visited) (visitor : OpenApiVisitor) (s : State),
       paths_ visitor !! visited_path n = None ->
       Forall contained (dry_runs_of n) ->
       ∃ vs' suffix,
         OpenApiVisitor_Visit (visited_resource n) (visited_uri n)
           (visited_hasTrailing n) (visited_components n)
           (visited_trailing n) (visitor, s) = (Ret true, vs')
         ∧ trace (snd vs') = trace s ++ suffix
         ∧ handled_calls suffix = map dr_call (dry_runs_of n)
         ∧ ∀ d, d ∈ dry_runs_of n -> always_raises_caught d ->
             ignoring_warning (dr_method d) (visited_path n) ∈ suffix
             ∧ default ∅ (paths_ (fst vs') !! visited_path n)
                 !! method_key (dr_method d) = None)
  ∧ (∀ (nodes : list Visited) (s : State),
       NoDup (map visited_path nodes) ->
       Forall contained (all_dry_runs nodes) ->
       ∃ vs' suffix,
         VisitAll nodes (OpenApiVisitor_new, s) = (Ret tt, vs')
         ∧ trace (snd vs') = trace s ++ suffix
         ∧ handled_calls suffix = map dr_call (all_dry_runs nodes)
         ∧ ∀ n d, n ∈ nodes -> d ∈ dry_runs_of n -> always_raises_caught d ->
             ignoring_warning (dr_method d) (visited_path n) ∈ suffix).
Proof.
  split; [|split; [|split]].
  - intros resource uri hasTrailing components trailing. reflexivity.
  - intros method resource uri path uriArguments names visitor s h e w'
      Hh Hrun Hcaught.
    assert (Hc : is_caught e = true)
      by (destruct Hcaught as [[code ->]| ->]; reflexivity).
    rewrite Probe_unfold, Hh. cbn [apply_dry_runs fst snd].
    unfold dry_run_outcome, make_dry_run, contain.
    cbn [dr_handler dr_call dr_names dr_method]. rewrite Hrun, Hc.
    unfold record_event. cbn [world trace]. rewrite <- app_assoc. reflexivity.
  - intros n visitor s Hnone Hc.
    destruct (Visit_completes n (visitor, s) Hnone Hc) as (vs' & Hvisit & Hrun).
    destruct (apply_dry_runs_trace _ _ _ _ _ Hrun) as (suffix & Htr & Hcalls & Hwarn).
    exists vs', suffix. split; [exact Hvisit|]. split; [exact Htr|].
    split; [exact Hcalls|]. intros d Hd Hraise.
    split; [apply Hwarn; assumption|].
    pose proof (Visit_paths n (visitor, s)) as (_ & _ & Hnew).
    cbn zeta in Hnew. rewrite Hvisit in Hnew. cbn [fst snd] in Hnew.
    destruct (default ∅ (paths_ (fst vs') !! visited_path n)
                !! method_key (dr_method d)) as [fragment|] eqn:Hk;
      [|reflexivity].
    exfalso. destruct (Hnew Hnone _ _ Hk) as (d' & w & Hd' & Hkey & Hdoc).
    apply method_key_inj in Hkey.
    apply dry_runs_of_elem in Hd, Hd'. rewrite <- Hkey in Hd'.
    rewrite Hd in Hd'. injection Hd' as <-.
    rewrite (always_raises_caught_outcome d w Hraise) in Hdoc. discriminate.
  - intros nodes s Hnd Hc.
    apply (VisitAll_completes nodes (OpenApiVisitor_new, s) Hnd);
      [intros n _; apply lookup_empty|exact Hc].
Qed.

Lemma coverage_total_max (visitor : OpenApiVisitor) :
  0 <= GetTotalPathsCount visitor ->
  coverage_total visitor = Z.max (GetTotalPathsCount visitor) 1.
Proof.
  intros Hpos. unfold coverage_total.
  destruct (Z.eqb_spec (GetTotalPathsCount visitor) 0) as [->|Hne]; lia.
Qed.

(** ** What [Visit] stores *)

Lemma apply_dry_runs_store (path : string) (runs : list DryRun)
  (vs : OpenApiVisitor * State) :
  paths_ (fst (snd (apply_dry_runs path runs vs)))
  = store_fragments path (documented runs (world (snd vs))) (paths_ (fst vs)).
Proof.
  revert vs. induction runs as [|d rest IH]; intros [vis s].
  - reflexivity.
  - cbn [apply_dry_runs documented fst snd].
    destruct (dry_run_outcome d (world s)) as [[v| |e] w'].
    + rewrite IH. reflexivity.
    + rewrite IH. reflexivity.
    + reflexivity.
Qed.

Lemma apply_dry_runs_successes (path : string) (runs : list DryRun)
  (vs : OpenApiVisitor * State) :
  0 <= successPathsCount_ (fst vs) < 2 ^ SIZE_WIDTH ->
  successPathsCount_ (fst (snd (apply_dry_runs path runs vs)))
  = size_t_add (successPathsCount_ (fst vs))
      (Z.of_nat (length (documented runs (world (snd vs))))).
Proof.
  revert vs. induction runs as [|d rest IH]; intros [vis s] Hrange.
  - cbn. rewrite size_t_add_0 by exact Hrange. reflexivity.
  - cbn [apply_dry_runs documented fst snd] in *.
    destruct (dry_run_outcome d (world s)) as [[v| |e] w'].
    + rewrite IH by (cbn; apply size_t_add_range).
      cbn [fst snd world record_path incr_total successPathsCount_].
      rewrite size_t_incr_alt, !size_t_add_add. cbn [length].
      f_equal. lia.
    + rewrite IH by exact Hrange. reflexivity.
    + cbn. rewrite size_t_add_0 by exact Hrange. reflexivity.
Qed.

Lemma store_fragments_cons (path : string) m rest paths :
  store_fragments path (m :: rest) paths
  = store_fragments path rest (add_fragment path paths m).
Proof. reflexivity. Qed.

Lemma store_fragments_other (path p : string) fragments paths :
  p ≠ path -> store_fragments path fragments paths !! p = paths !! p.
Proof.
  intros Hp. revert paths. induction fragments as [|m rest IH]; intros paths.
  - reflexivity.
  - rewrite store_fragments_cons, IH.
    unfold add_fragment. apply lookup_insert_ne. congruence.
Qed.

Lemma store_fragments_lookup (path : string) fragments paths :
  fragments ≠ [] ->
  store_fragments path fragments paths !! path
  = Some (foldl add_member (default ∅ (paths !! path)) fragments).
Proof.
  revert paths. induction fragments as [|m rest IH]; intros paths Hne;
    [contradiction|].
  rewrite store_fragments_cons.
  destruct rest as [|m' rest'].
  - cbn. unfold add_fragment. apply lookup_insert_eq.
  - rewrite IH by discriminate.
    unfold add_fragment. rewrite (lookup_insert_eq (M:=gmap string)). reflexivity.
Qed.

Lemma store_fragments_insert (path : string) fragments paths :
  fragments ≠ [] ->
  store_fragments path fragments paths
  = <[path := foldl add_member (default ∅ (paths !! path)) fragments]> paths.
Proof.
  intros Hne. apply map_eq. intros p.
  destruct (decide (p = path)) as [->|Hp].
  - rewrite store_fragments_lookup by exact Hne.
    rewrite (lookup_insert_eq (M:=gmap string)). reflexivity.
  - rewrite store_fragments_other by exact Hp.
    rewrite lookup_insert_ne by congruence. reflexivity.
Qed.

Lemma foldl_add_member_size (fragments : list (string * Json))
  (entry : gmap string Json) :
  NoDup (map fst fragments) ->
  (∀ m, m ∈ fragments -> entry !! fst m = None) ->
  size (foldl add_member entry fragments) = (size entry + length fragments)%nat.
Proof.
  revert entry. induction fragments as [|m rest IH]; intros entry Hnd Hfresh.
  - cbn. lia.
  - cbn [map] in Hnd. apply NoDup_cons in Hnd. destruct Hnd as [Hnotin Hnd].
    cbn [foldl length]. rewrite IH.
    + unfold add_member. rewrite map_size_insert_None; [lia|].
      apply Hfresh, list_elem_of_here.
    + exact Hnd.
    + intros m' Hm'. unfold add_member. rewrite lookup_insert_ne.
      * apply Hfresh, list_elem_of_further, Hm'.
      * intros Heq. apply Hnotin. rewrite Heq.
        apply list_elem_of_fmap. exists m'. split; [reflexivity|exact Hm'].
Qed.

Lemma foldl_add_member_nonempty (fragments : list (string * Json))
  (entry : gmap string Json) :
  fragments ≠ [] -> foldl add_member entry fragments ≠ ∅.
Proof.
  intros Hne. destruct (exists_last Hne) as (front & m & ->).
  rewrite foldl_snoc. unfold add_member at 1. apply insert_non_empty.
Qed.

Lemma fragment_count_insert (path : string) (entry : gmap string Json) paths :
  paths !! path = None ->
  fragment_count (<[path := entry]> paths)
  = Z.of_nat (size entry) + fragment_count paths.
Proof.
  intros Hnone. unfold fragment_count.
  rewrite map_fold_insert_L; [reflexivity| |exact Hnone].
  intros. lia.
Qed.

Lemma fragment_count_empty : fragment_count ∅ = 0.
Proof. unfold fragment_count. apply map_fold_empty. Qed.

Lemma documented_keys (runs : list DryRun) (w : World) :
  map fst (documented runs w) `sublist_of` map (fun d => method_key (dr_method d)) runs.
Proof.
  revert w. induction runs as [|d rest IH]; intros w; cbn [documented map].
  - constructor.
  - destruct (dry_run_outcome d w) as [[v| |e] w'].
    + cbn [map fst]. apply sublist_skip, IH.
    + apply sublist_cons, IH.
    + apply sublist_nil_l.
Qed.

Lemma documented_length (runs : list DryRun) (w : World) :
  (length (documented runs w) <= length runs)%nat.
Proof.
  pose proof (sublist_length _ _ (documented_keys runs w)) as Hlen.
  rewrite !length_map in Hlen. exact Hlen.
Qed.

(** The four blocks of [Visit] write under four different keys. *)
Lemma dry_runs_of_methods_NoDup (n : Visited) :
  NoDup (map (fun d => method_key (dr_method d)) (dry_runs_of n)).
Proof.
  rewrite dry_runs_of_split. unfold runs_for.
  destruct (dry_run_of n HttpMethod_Get) as [d1|] eqn:H1;
  destruct (dry_run_of n HttpMethod_Post) as [d2|] eqn:H2;
  destruct (dry_run_of n HttpMethod_Delete) as [d3|] eqn:H3;
  destruct (dry_run_of n HttpMethod_Put) as [d4|] eqn:H4;
  cbn [app map];
  repeat match goal with
         | Hd : dry_run_of n _ = Some ?d |- _ =>
             rewrite (dry_run_of_method _ _ _ Hd); clear Hd
         end;
  apply (bool_decide_unpack (NoDup _)); vm_compute; exact I.
Qed.

Lemma documented_NoDup (n : Visited) (w : World) :
  NoDup (map fst (documented (dry_runs_of n) w)).
Proof.
  exact (sublist_NoDup _ _ (dry_runs_of_methods_NoDup n) (documented_keys _ _)).
Qed.

Lemma foldl_add_member_lookup (fragments : list (string * Json))
  (entry : gmap string Json) (key : string) (fragment : Json) :
  NoDup (map fst fragments) ->
  foldl add_member entry fragments !! key = Some fragment
  ↔ ((key, fragment) ∈ fragments
     ∨ ((key ∉ (map fst fragments)) ∧ entry !! key = Some fragment)).
Proof.
  revert entry. induction fragments as [|[k v] rest IH]; intros entry Hnd.
  - cbn. rewrite elem_of_nil. split; [intros Hl; right; split; [apply not_elem_of_nil|exact Hl]|].
    intros [[]|[_ Hl]]; exact Hl.
  - cbn [map fst] in Hnd. apply NoDup_cons in Hnd. destruct Hnd as [Hnotin Hnd].
    cbn [foldl]. rewrite (IH _ Hnd). unfold add_member. cbn [fst snd map].
    rewrite elem_of_cons, not_elem_of_cons. split.
    + intros [Hin|[Hk Hl]]; [left; right; exact Hin|].
      destruct (decide (key = k)) as [->|Hne].
      * rewrite lookup_insert_eq in Hl. injection Hl as ->. left. left. reflexivity.
      * rewrite lookup_insert_ne in Hl by congruence. right. repeat split; assumption.
    + intros [[Heq|Hin]|[[Hne Hk] Hl]].
      * injection Heq as -> ->. right. split; [exact Hnotin|apply lookup_insert_eq].
      * left. exact Hin.
      * right. split; [exact Hk|]. rewrite lookup_insert_ne by congruence. exact Hl.
Qed.

(** The test of lines 159-162 leaves the visitor and the state alone. *)
Lemma Visit_recorded (n : Visited) (vs : OpenApiVisitor * State) :
  is_Some (paths_ (fst vs) !! visited_path n) -> visit_node n vs = vs.
Proof.
  intros Hin. unfold visit_node. rewrite Visit_unfold.
  destruct (decide (is_Some (paths_ (fst vs) !! visited_path n)));
    [reflexivity|contradiction].
Qed.

Lemma Visit_store_paths (n : Visited) (vs : OpenApiVisitor * State) :
  paths_ (fst vs) !! visited_path n = None ->
  paths_ (fst (visit_node n vs))
  = store_fragments (visited_path n)
      (documented (dry_runs_of n) (world (snd vs))) (paths_ (fst vs)).
Proof.
  intros Hnone. unfold visit_node. rewrite Visit_unfold.
  destruct (decide (is_Some (paths_ (fst vs) !! visited_path n))) as [Hin|Hout].
  - rewrite Hnone in Hin. destruct Hin as [? [=]].
  - pose proof (apply_dry_runs_store (visited_path n) (dry_runs_of n) vs)
      as Hstore.
    destruct (apply_dry_runs (visited_path n) (dry_runs_of n) vs)
      as [[[]|e] vs1]; exact Hstore.
Qed.

Lemma Visit_store_successes (n : Visited) (vs : OpenApiVisitor * State) :
  0 <= successPathsCount_ (fst vs) < 2 ^ SIZE_WIDTH ->
  paths_ (fst vs) !! visited_path n = None ->
  successPathsCount_ (fst (visit_node n vs))
  = size_t_add (successPathsCount_ (fst vs))
      (Z.of_nat (length (documented (dry_runs_of n) (world (snd vs))))).
Proof.
  intros Hrange Hnone. unfold visit_node. rewrite Visit_unfold.
  destruct (decide (is_Some (paths_ (fst vs) !! visited_path n))) as [Hin|Hout].
  - rewrite Hnone in Hin. destruct Hin as [? [=]].
  - pose proof (apply_dry_runs_successes (visited_path n) (dry_runs_of n) vs
                  Hrange) as Hstore.
    destruct (apply_dry_runs (visited_path n) (dry_runs_of n) vs)
      as [[[]|e] vs1]; exact Hstore.
Qed.

Lemma Visit_fragments (n : Visited) (vs : OpenApiVisitor * State) :
  0 <= successPathsCount_ (fst vs) < 2 ^ SIZE_WIDTH ->
  fragments_step (dry_runs_of n) vs (visit_node n vs).
Proof.
  intros Hrange.
  destruct (decide (is_Some (paths_ (fst vs) !! visited_path n))) as [Hin|Hout].
  - rewrite (Visit_recorded n vs Hin). exists 0.
    rewrite size_t_add_0 by exact Hrange. repeat split; try lia. tauto.
  - apply eq_None_not_Some in Hout.
    pose proof (Visit_store_paths n vs Hout) as Hp.
    pose proof (Visit_store_successes n vs Hrange Hout) as Hs.
    set (D := documented (dry_runs_of n) (world (snd vs))) in *.
    exists (Z.of_nat (length D)). split; [|split; [exact Hs|]].
    { pose proof (documented_length (dry_runs_of n) (world (snd vs))). subst D. lia. }
    destruct D as [|m rest] eqn:HD.
    + cbn in Hp. rewrite Hp. split; [cbn; lia|tauto].
    + rewrite store_fragments_insert in Hp by discriminate. rewrite Hp, Hout.
      cbn [default from_option id].
      rewrite fragment_count_insert by exact Hout. split.
      * rewrite foldl_add_member_size.
        -- rewrite map_size_empty. lia.
        -- rewrite <- HD. apply documented_NoDup.
        -- intros m' _. apply lookup_empty.
      * intros Hinv p e Hl.
        destruct (decide (p = visited_path n)) as [->|Hne].
        -- rewrite (lookup_insert_eq (M:=gmap string)) in Hl.
           assert (e = foldl add_member ∅ (m :: rest)) as -> by congruence.
           apply foldl_add_member_nonempty. discriminate.
        -- rewrite lookup_insert_ne in Hl by congruence. apply (Hinv p e Hl).
Qed.

Lemma fragments_step_trans runs1 runs2 vs0 vs1 vs2 :
  fragments_step runs1 vs0 vs1 -> fragments_step runs2 vs1 vs2 ->
  fragments_step (runs1 ++ runs2) vs0 vs2.
Proof.
  intros (k1 & Hk1 & Hs1 & Hf1 & Hi1) (k2 & Hk2 & Hs2 & Hf2 & Hi2).
  exists (k1 + k2). rewrite length_app, Nat2Z.inj_add.
  rewrite Hs2, Hs1, size_t_add_add, Hf2, Hf1.
  split; [lia|]. split; [reflexivity|]. split; [lia|]. 
  intros Hinv. apply Hi2, Hi1, Hinv.
Qed.

Lemma visit_each_fragments (nodes : list Visited) (vs : OpenApiVisitor * State) :
  0 <= successPathsCount_ (fst vs) < 2 ^ SIZE_WIDTH ->
  fragments_step (all_dry_runs nodes) vs (visit_each nodes vs).
Proof.
  revert vs. induction nodes as [|n rest IH]; intros vs Hrange.
  - exists 0. cbn. rewrite size_t_add_0 by exact Hrange. repeat split; try lia. tauto.
  - cbn [visit_each]. unfold all_dry_runs. cbn [flat_map].
    pose proof (Visit_fragments n vs Hrange) as Hn. unfold visit_node in Hn.
    eapply fragments_step_trans; [exact Hn|]. apply IH.
    destruct Hn as (k & _ & Hs & _). rewrite Hs. apply size_t_add_range.
Qed.

(** ** Counters and coverage of a pass *)

Lemma coverage_unfold (visitor : OpenApiVisitor) :
  coverage visitor
  = coverage_of (GetSuccessPathsCount visitor) (coverage_total visitor).
Proof. reflexivity. Qed.

(** C6. When the registered (path, method) pairs are fewer than
    [2 ^ 64], a documentation pass that returns ends with [totalCount]
    equal to their number N and [successCount] equal to the number M of
    those whose dry run succeeds.  The coverage is [100 * M / max(N, 1)]
    evaluated in [float], its divisor being positive: the product and
    the quotient are each rounded to binary32, which keeps it within a
    relative error of [(1 + 2^-23)^4] of the exact quotient.  The final
    log line carries M, N and this [float] rounded to the nearest
    integer.  A pass with distinct paths and no escaping exception does
    return. *)
Theorem GenerateOpenApiDocumentation_counts (root_ : RestApiHierarchy)
  (s : State) :
  let nodes := AllResources root_ [] ∅ in
  let N := registered_pairs nodes in
  let M := successful_pairs (all_dry_runs nodes) (world s) in
  N < 2 ^ SIZE_WIDTH ->
  (∀ target visitor s',
     GenerateOpenApiDocumentation root_ s = (Ret (target, visitor), s') ->
     GetTotalPathsCount visitor = N
     ∧ GetSuccessPathsCount visitor = M
     ∧ coverage_total visitor = Z.max N 1
     ∧ 0 < coverage_total visitor
     ∧ coverage visitor
       = float_div (float_mul float_100 (static_cast_float M))
           (static_cast_float (Z.max N 1))
     ∧ (float_value (coverage visitor)
        <= 100 * inject_Z M / inject_Z (Z.max N 1) * (1 + float_eps) ^ 4)%Q
     ∧ (100 * inject_Z M / inject_Z (Z.max N 1)
        <= float_value (coverage visitor) * (1 + float_eps) ^ 4)%Q
     ∧ last (trace s') =
         Some (EvLog LOG_WARNING
                 [LogText "The documentation of the REST API contains ";
                  LogNumber M;
                  LogText " paths over a total of ";
                  LogNumber N;
                  LogText " paths ";
                  LogText "(";
                  LogNumber
                    (static_cast_unsigned_int
                       (iround
                          (float_div
                             (float_mul float_100 (static_cast_float M))
                             (static_cast_float (Z.max N 1)))));
                  LogText "%)"]))
  ∧ (NoDup (map visited_path nodes) ->
     Forall contained (all_dry_runs nodes) ->
     ∃ target visitor s',
       GenerateOpenApiDocumentation root_ s = (Ret (target, visitor), s')).
Proof.
  intros nodes N M Hbound. split.
  - intros target visitor s' Hgen.
    rewrite GenerateOpenApiDocumentation_unfold in Hgen. fold nodes in Hgen.
    pose proof (VisitAll_counters nodes (OpenApiVisitor_new, s)
                  OpenApiVisitor_new_in_range)
      as (j & k & Hk & Hj & Et & Es & Hret).
    destruct (VisitAll nodes (OpenApiVisitor_new, s)) as [[[]|e] [v1 s1]];
      [|discriminate].
    injection Hgen as <- <- <-. cbn [fst snd] in *.
    destruct (Hret tt eq_refl) as (Hjn & Hkm & _).
    fold (registered_pairs nodes) in Hjn. fold N in Hjn. fold M in Hkm.
    subst j k. unfold size_t_add in Et, Es. cbn [OpenApiVisitor_new
      totalPathsCount_ successPathsCount_] in Et, Es.
    unfold SIZE_WIDTH in *.
    rewrite Z.add_0_l, Z.mod_small in Et by lia.
    rewrite Z.add_0_l, Z.mod_small in Es by lia.
    assert (Hct : coverage_total v1 = Z.max N 1).
    { rewrite coverage_total_max; unfold GetTotalPathsCount; rewrite Et; lia. }
    assert (Hcov : coverage v1 = coverage_of M (Z.max N 1)).
    { rewrite coverage_unfold, Hct. unfold GetSuccessPathsCount.
      rewrite Es. reflexivity. }
    destruct (coverage_of_error M (Z.max N 1)) as [Hup Hlow]; [lia|lia|].
    split; [exact Et|]. split; [exact Es|]. split; [exact Hct|].
    split; [lia|]. split; [exact Hcov|].
    split; [rewrite Hcov; exact Hup|]. split; [rewrite Hcov; exact Hlow|].
    unfold record_event. cbn [trace]. rewrite last_snoc.
    unfold coverage_line. rewrite Hcov.
    unfold GetSuccessPathsCount, GetTotalPathsCount. rewrite Es, Et.
    reflexivity.
  - apply GenerateOpenApiDocumentation_returns.
Qed.

(** ** The path map of a pass that returns *)

Lemma apply_dry_runs_world (path : string) (runs : list DryRun)
  (vs vs' : OpenApiVisitor * State) (u : unit) :
  apply_dry_runs path runs vs = (Ret u, vs') ->
  world (snd vs') = world_after runs (world (snd vs)).
Proof.
  revert vs. induction runs as [|d rest IH]; intros [vis s] Hrun.
  - injection Hrun as _ <-. reflexivity.
  - cbn [apply_dry_runs world_after fst snd] in *.
    destruct (dry_run_outcome d (world s)) as [[v| |e] w'].
    + apply IH in Hrun. exact Hrun.
    + apply IH in Hrun. exact Hrun.
    + discriminate.
Qed.

Lemma Visit_returns (n : Visited) (vs vs' : OpenApiVisitor * State) (b : bool) :
  OpenApiVisitor_Visit (visited_resource n) (visited_uri n)
    (visited_hasTrailing n) (visited_components n) (visited_trailing n) vs
  = (Ret b, vs') ->
  paths_ (fst vs) !! visited_path n = None
  ∧ vs' = visit_node n vs
  ∧ world (snd vs') = world_after (dry_runs_of n) (world (snd vs)).
Proof.
  intros Hv. unfold visit_node. rewrite Hv. cbn [snd].
  rewrite Visit_unfold in Hv.
  destruct (decide (is_Some (paths_ (fst vs) !! visited_path n))) as [Hin|Hout];
    [discriminate|].
  split; [apply eq_None_not_Some, Hout|]. split; [reflexivity|].
  destruct (apply_dry_runs (visited_path n) (dry_runs_of n) vs)
    as [[[]|e] vs1] eqn:Hrun; [|discriminate].
  injection Hv as _ <-. apply (apply_dry_runs_world _ _ _ _ _ Hrun).
Qed.

Lemma visit_node_keeps_entry (n : Visited) (vs : OpenApiVisitor * State)
  (path : string) (entry : gmap string Json) :
  paths_ (fst vs) !! path = Some entry ->
  paths_ (fst (visit_node n vs)) !! path = Some entry.
Proof.
  intros Hentry. unfold visit_node.
  pose proof (Visit_paths n vs) as (Hother & Hsame & _).
  cbv zeta in Hother, Hsame.
  destruct (decide (path = visited_path n)) as [->|Hne].
  - rewrite Hsame; [exact Hentry|]. rewrite Hentry. eexists; reflexivity.
  - rewrite Hother by exact Hne. exact Hentry.
Qed.

Lemma VisitAll_keeps_entry (nodes : list Visited)
  (vs : OpenApiVisitor * State) (path : string) (entry : gmap string Json) :
  paths_ (fst vs) !! path = Some entry ->
  paths_ (fst (snd (VisitAll nodes vs))) !! path = Some entry.
Proof.
  revert vs. induction nodes as [|n rest IH]; intros vs Hentry; [exact Hentry|].
  rewrite VisitAll_cons.
  pose proof (visit_node_keeps_entry n vs path entry Hentry) as Hn.
  unfold visit_node in Hn.
  destruct (OpenApiVisitor_Visit (visited_resource n) (visited_uri n)
              (visited_hasTrailing n) (visited_components n)
              (visited_trailing n) vs) as [[b|e] vs1]; cbn [snd] in *.
  - apply IH, Hn.
  - exact Hn.
Qed.

Lemma visit_node_stores (n : Visited) (vs : OpenApiVisitor * State)
  (key : string) (fragment : Json) :
  paths_ (fst vs) !! visited_path n = None ->
  (key, fragment) ∈ documented (dry_runs_of n) (world (snd vs)) ->
  ∃ entry, paths_ (fst (visit_node n vs)) !! visited_path n = Some entry
           ∧ ∀ key fragment,
               entry !! key = Some fragment
               ↔ (key, fragment) ∈ documented (dry_runs_of n) (world (snd vs)).
Proof.
  intros Hnone Hin. rewrite (Visit_store_paths n vs Hnone).
  pose proof (documented_NoDup n (world (snd vs))) as Hnd.
  destruct (documented (dry_runs_of n) (world (snd vs))) as [|m rest] eqn:HD.
  { apply elem_of_nil in Hin. contradiction. }
  rewrite store_fragments_lookup by discriminate. rewrite Hnone.
  cbn [default from_option id]. eexists. split; [reflexivity|].
  intros key' fragment'. rewrite (foldl_add_member_lookup _ _ _ _ Hnd).
  split; [intros [Hin'|[_ Hl]]; [exact Hin'|]|intros Hin'; left; exact Hin'].
  rewrite lookup_empty in Hl. discriminate.
Qed.

(** Every fragment of a successful dry run of a pass that returns is in
    the path map, under the path of its node and the key of its method. *)
Lemma VisitAll_stored (before after : list Visited) (n : Visited)
  (vs vs' : OpenApiVisitor * State) (u : unit) (key : string)
  (fragment : Json) :
  VisitAll (before ++ n :: after) vs = (Ret u, vs') ->
  (key, fragment)
    ∈ documented (dry_runs_of n)
        (world_after (all_dry_runs before) (world (snd vs))) ->
  ∃ entry, paths_ (fst vs') !! visited_path n = Some entry
           ∧ entry !! key = Some fragment.
Proof.
  revert vs. induction before as [|b before IH]; intros vs Hall Hin.
  - cbn [app] in Hall. rewrite VisitAll_cons in Hall.
    destruct (OpenApiVisitor_Visit (visited_resource n) (visited_uri n)
                (visited_hasTrailing n) (visited_components n)
                (visited_trailing n) vs) as [[b|e] vs1] eqn:Hv; [|discriminate].
    destruct (Visit_returns n vs vs1 b Hv) as (Hnone & -> & _).
    cbn [all_dry_runs flat_map world_after] in Hin.
    destruct (visit_node_stores n vs key fragment Hnone Hin)
      as (entry & Hentry & Hmembers).
    exists entry. split; [|apply Hmembers, Hin].
    pose proof (VisitAll_keeps_entry after (visit_node n vs) _ _ Hentry) as Hk.
    rewrite Hall in Hk. exact Hk.
  - cbn [app] in Hall. rewrite VisitAll_cons in Hall.
    destruct (OpenApiVisitor_Visit (visited_resource b) (visited_uri b)
                (visited_hasTrailing b) (visited_components b)
                (visited_trailing b) vs) as [[r|e] vs1] eqn:Hv; [|discriminate].
    destruct (Visit_returns b vs vs1 r Hv) as (_ & _ & Hworld).
    apply (IH vs1 Hall).
    rewrite Hworld. unfold all_dry_runs in *. cbn [flat_map] in Hin.
    rewrite world_after_app in Hin. exact Hin.
Qed.

(** Every entry of the path map of a pass that returns is made of the
    fragments of the successful dry runs of one node. *)
Lemma VisitAll_entries (nodes : list Visited)
  (vs vs' : OpenApiVisitor * State) (u : unit) (path : string)
  (entry : gmap string Json) :
  VisitAll nodes vs = (Ret u, vs') ->
  paths_ (fst vs') !! path = Some entry ->
  paths_ (fst vs) !! path = Some entry
  ∨ ∃ before n after,
      nodes = before ++ n :: after
      ∧ path = visited_path n
      ∧ ∀ key fragment,
          entry !! key = Some fragment
          ↔ (key, fragment)
              ∈ documented (dry_runs_of n)
                  (world_after (all_dry_runs before) (world (snd vs))).
Proof.
  revert vs. induction nodes as [|n rest IH]; intros vs Hall Hentry.
  - injection Hall as _ <-. left. exact Hentry.
  - rewrite VisitAll_cons in Hall.
    destruct (OpenApiVisitor_Visit (visited_resource n) (visited_uri n)
                (visited_hasTrailing n) (visited_components n)
                (visited_trailing n) vs) as [[b|e] vs1] eqn:Hv; [|discriminate].
    destruct (Visit_returns n vs vs1 b Hv) as (Hnone & Hvs1 & Hworld).
    destruct (IH vs1 Hall Hentry) as [Hmid|(before & m & after & -> & Hp & Hm)].
    + rewrite Hvs1, (Visit_store_paths n vs Hnone) in Hmid.
      destruct (decide (path = visited_path n)) as [->|Hne];
        [|left; rewrite store_fragments_other in Hmid by exact Hne; exact Hmid].
      pose proof (documented_NoDup n (world (snd vs))) as Hnd.
      destruct (documented (dry_runs_of n) (world (snd vs))) as [|d ds] eqn:HD.
      { left. exact Hmid. }
      right. exists [], n, rest. split; [reflexivity|]. split; [reflexivity|].
      rewrite store_fragments_lookup in Hmid by discriminate.
      rewrite Hnone in Hmid. cbn [default from_option id] in Hmid.
      injection Hmid as <-. intros key fragment.
      cbn [all_dry_runs flat_map world_after]. rewrite HD.
      change (foldl add_member (add_member ∅ d) ds)
        with (foldl add_member ∅ (d :: ds)).
      rewrite (foldl_add_member_lookup _ _ _ _ Hnd).
      split; [intros [Hin|[_ Hl]]; [exact Hin|]|intros Hin; left; exact Hin].
      rewrite lookup_empty in Hl. discriminate.
    + right. exists (n :: before), m, after.
      split; [reflexivity|]. split; [exact Hp|].
      intros key fragment. rewrite (Hm key fragment), Hworld.
      unfold all_dry_runs. cbn [flat_map]. rewrite world_after_app.
      reflexivity.
Qed.

Lemma documented_elem (runs : list DryRun) (w : World) (key : string)
  (fragment : Json) :
  (key, fragment) ∈ documented runs w ->
  ∃ d, d ∈ runs ∧ key = method_key (dr_method d).
Proof.
  revert w. induction runs as [|d rest IH]; intros w; cbn [documented].
  - intros Hin. apply elem_of_nil in Hin. contradiction.
  - destruct (dry_run_outcome d w) as [[v| |e] w'].
    + intros Hin. apply elem_of_cons in Hin. destruct Hin as [Heq|Hin].
      * injection Heq as -> _. exists d. split; [apply list_elem_of_here|reflexivity].
      * destruct (IH w' Hin) as (d' & Hd' & Hk). exists d'.
        split; [apply list_elem_of_further, Hd'|exact Hk].
    + intros Hin. destruct (IH w' Hin) as (d' & Hd' & Hk). exists d'.
      split; [apply list_elem_of_further, Hd'|exact Hk].
    + intros Hin. apply elem_of_nil in Hin. contradiction.
Qed.

(** C7. The document produced by a pass that returns is a JSON object
    with exactly the members [info] (an empty object), [openapi] (the
    string "3.0.0"), [servers] (the empty array) and [paths] (the
    visitor's map).  Each key of that map is the flattened URI of a
    visited node, with the suffix [/{...}] exactly when the node has a
    trailing wildcard; the members under it are exactly the fragments of
    the successful dry runs of that node, each keyed by the lowercase
    name of its method, which is registered at the node.  Conversely
    the fragment of every successful dry run of the pass is stored under
    the path of its node and the key of its method.  A pass with
    distinct paths and no escaping exception does return. *)
Theorem GenerateOpenApiDocumentation_document (root_ : RestApiHierarchy)
  (s : State) :
  (∀ target visitor s',
     GenerateOpenApiDocumentation root_ s = (Ret (target, visitor), s') ->
     ∃ members : gmap string Json,
       target = JsonObject members
       ∧ dom members = {[ "info"; "openapi"; "servers"; "paths" ]}
       ∧ members !! "info" = Some (JsonObject ∅)
       ∧ members !! "openapi" = Some (JsonString "3.0.0")
       ∧ members !! "servers" = Some (JsonArray [])
       ∧ members !! "paths" = Some (JsonObject (JsonObject <$> paths_ visitor))
       ∧ (∀ path entry, paths_ visitor !! path = Some entry ->
            ∃ before n after,
              AllResources root_ [] ∅ = before ++ n :: after
              ∧ path =
                  (if visited_hasTrailing n
                   then FlattenUri (visited_uri n) +:+ "/{...}"
                   else FlattenUri (visited_uri n))
              ∧ (∀ key fragment,
                   entry !! key = Some fragment
                   ↔ (key, fragment)
                       ∈ documented (dry_runs_of n)
                           (world_after (all_dry_runs before) (world s)))
              ∧ ∀ key fragment, entry !! key = Some fragment ->
                  ∃ method, HasHandler (visited_resource n) method = true
                            ∧ key = method_key method
                            ∧ (key = "get" ∨ key = "post"
                               ∨ key = "delete" ∨ key = "put"))
       ∧ (∀ before n after key fragment,
            AllResources root_ [] ∅ = before ++ n :: after ->
            (key, fragment)
              ∈ documented (dry_runs_of n)
                  (world_after (all_dry_runs before) (world s)) ->
            ∃ entry,
              paths_ visitor
              !! (if visited_hasTrailing n
                  then FlattenUri (visited_uri n) +:+ "/{...}"
                  else FlattenUri (visited_uri n))
              = Some entry
              ∧ entry !! key = Some fragment))
  ∧ (NoDup (map visited_path (AllResources root_ [] ∅)) ->
     Forall contained (all_dry_runs (AllResources root_ [] ∅)) ->
     ∃ target visitor s',
       GenerateOpenApiDocumentation root_ s = (Ret (target, visitor), s')).
Proof.
  split; [|apply GenerateOpenApiDocumentation_returns].
  intros target visitor s' Hgen.
  rewrite GenerateOpenApiDocumentation_unfold in Hgen.
  destruct (VisitAll (AllResources root_ [] ∅) (OpenApiVisitor_new, s))
    as [[[]|e] [v1 s1]] eqn:Hall; [|discriminate].
  injection Hgen as <- <- <-.
  eexists. split; [reflexivity|].
  split; [|split; [|split; [|split; [|split; [|split]]]]].
  - rewrite !dom_insert_L, dom_empty_L. set_solver.
  - reflexivity.
  - reflexivity.
  - reflexivity.
  - reflexivity.
  - intros path entry Hentry.
    destruct (VisitAll_entries _ _ _ _ path entry Hall Hentry)
      as [Hold|(before & n & after & Hnodes & Hp & Hm)].
    { cbn in Hold. rewrite lookup_empty in Hold. discriminate. }
    exists before, n, after. split; [exact Hnodes|]. split; [exact Hp|].
    split; [exact Hm|].
    intros key fragment Hk. apply Hm in Hk.
    destruct (documented_elem _ _ _ _ Hk) as (d & Hd & Hkey).
    exists (dr_method d). split; [apply dry_runs_of_registered, Hd|].
    split; [exact Hkey|]. rewrite Hkey.
    destruct (dr_method d); cbn; tauto.
  - intros before n after key fragment Hnodes Hin.
    rewrite Hnodes in Hall.
    apply (VisitAll_stored before after n _ _ _ key fragment Hall Hin).
Qed.

(** C8. When the handlers of a trie answer documentation calls the same
    way in every world, two consecutive calls of
    [GenerateOpenApiDocumentation] have the same outcome: the same
    document, hence the same path keys with the same fragments, and the
    same counters (or the same exception). *)
Theorem GenerateOpenApiDocumentation_idempotent (root_ : RestApiHierarchy)
  (s : State) :
  Forall deterministic (all_dry_runs (AllResources root_ [] ∅)) ->
  fst (GenerateOpenApiDocumentation root_
         (snd (GenerateOpenApiDocumentation root_ s)))
  = fst (GenerateOpenApiDocumentation root_ s).
Proof.
  intros Hdet.
  set (s1 := snd (GenerateOpenApiDocumentation root_ s)).
  rewrite !GenerateOpenApiDocumentation_unfold.
  pose proof (VisitAll_deterministic (AllResources root_ [] ∅)
                OpenApiVisitor_new s1 s Hdet) as [Ho Hv].
  destruct (VisitAll (AllResources root_ [] ∅) (OpenApiVisitor_new, s1))
    as [o1 [v1 t1]].
  destruct (VisitAll (AllResources root_ [] ∅) (OpenApiVisitor_new, s))
    as [o2 [v2 t2]].
  cbn [fst snd] in Ho, Hv. subst o2 v2.
  destruct o1 as [[]|e]; reflexivity.
Qed.

(** C9. Starting from a fresh visitor, after any sequence of calls of
    [Visit] (whether they return or raise) that makes fewer than
    [2 ^ 64] dry runs, so that the total counter has not wrapped around,
    the success counter is at most the total counter; so the assertion
    of [GenerateOpenApiDocumentation] holds whenever it is reached, for
    a trie with fewer than [2 ^ 64] registered (path, method) pairs. *)
Theorem successPathsCount_le_totalPathsCount (nodes : list Visited)
  (root_ : RestApiHierarchy) (s : State) :
  registered_pairs nodes < 2 ^ SIZE_WIDTH ->
  registered_pairs (AllResources root_ [] ∅) < 2 ^ SIZE_WIDTH ->
  successPathsCount_ (fst (visit_each nodes (OpenApiVisitor_new, s)))
    <= totalPathsCount_ (fst (visit_each nodes (OpenApiVisitor_new, s)))
  ∧ ∀ target visitor s',
      GenerateOpenApiDocumentation root_ s = (Ret (target, visitor), s') ->
      coverage_assertion visitor = true.
Proof.
  unfold registered_pairs. intros Hnodes Hroot. split.
  - pose proof (visit_each_counters nodes (OpenApiVisitor_new, s)
                  OpenApiVisitor_new_in_range) as (j & k & Hk & Hj & Et & Es).
    rewrite Et, Es. unfold size_t_add. cbn [fst OpenApiVisitor_new
      totalPathsCount_ successPathsCount_].
    rewrite !Z.add_0_l, !Z.mod_small by lia. lia.
  - intros target visitor s' Hgen.
    rewrite GenerateOpenApiDocumentation_unfold in Hgen.
    pose proof (VisitAll_counters (AllResources root_ [] ∅)
                  (OpenApiVisitor_new, s) OpenApiVisitor_new_in_range)
      as (j & k & Hk & Hj & Et & Es & _).
    destruct (VisitAll (AllResources root_ [] ∅) (OpenApiVisitor_new, s))
      as [[[]|e] [v1 s1]]; [|discriminate].
    injection Hgen as <- <- <-. cbn [fst snd] in *.
    unfold coverage_assertion, GetSuccessPathsCount, GetTotalPathsCount.
    rewrite Et, Es. unfold size_t_add. cbn [OpenApiVisitor_new
      totalPathsCount_ successPathsCount_].
    rewrite !Z.add_0_l, !Z.mod_small by lia. apply Z.leb_le. lia.
Qed.

(** C10. When the exploration reaches a node whose documentation path is
    already a key of the path map, [Visit] raises
    [OrthancException(ErrorCode_InternalError)] without touching the
    visitor or the state, and [GenerateOpenApiDocumentation] lets it
    through: no further node is visited, nothing is merged or
    overwritten, and neither the document nor the coverage line is
    produced. *)
Theorem duplicate_path_aborts_pass (root_ : RestApiHierarchy) (s : State)
  (before after : list Visited) (n : Visited) (visitor : OpenApiVisitor)
  (s1 : State) :
  AllResources root_ [] ∅ = before ++ n :: after ->
  VisitAll before (OpenApiVisitor_new, s) = (Ret tt, (visitor, s1)) ->
  is_Some (paths_ visitor !! visited_path n) ->
  OpenApiVisitor_Visit (visited_resource n) (visited_uri n)
    (visited_hasTrailing n) (visited_components n) (visited_trailing n)
    (visitor, s1)
  = (Throw (OrthancException ErrorCode_InternalError), (visitor, s1))
  ∧ GenerateOpenApiDocumentation root_ s
    = (Throw (OrthancException ErrorCode_InternalError), s1).
Proof.
  intros Hsplit Hbefore Hdup.
  assert (Hvisit :
    OpenApiVisitor_Visit (visited_resource n) (visited_uri n)
      (visited_hasTrailing n) (visited_components n) (visited_trailing n)
      (visitor, s1)
    = (Throw (OrthancException ErrorCode_InternalError), (visitor, s1))).
  { rewrite Visit_unfold. cbn [fst].
    destruct (decide (is_Some (paths_ visitor !! visited_path n)));
      [reflexivity|contradiction]. }
  split; [exact Hvisit|].
  rewrite GenerateOpenApiDocumentation_unfold, Hsplit, VisitAll_app, Hbefore.
  rewrite VisitAll_cons, Hvisit. reflexivity.
Qed.

(** * Further properties of the code *)

(** ** [AddMethod] and [MethodsToString] *)

Lemma gset_HttpMethod_eq (s1 s2 : gset HttpMethod) :
  (HttpMethod_Get ∈ s1 ↔ HttpMethod_Get ∈ s2) ->
  (HttpMethod_Post ∈ s1 ↔ HttpMethod_Post ∈ s2) ->
  (HttpMethod_Put ∈ s1 ↔ HttpMethod_Put ∈ s2) ->
  (HttpMethod_Delete ∈ s1 ↔ HttpMethod_Delete ∈ s2) ->
  s1 = s2.
Proof.
  intros Hg Hp Hu Hd. apply set_eq. intros m. destruct m; assumption.
Qed.

(** X1. The Allow string is empty exactly for the empty set of methods:
    every non-empty set, the only kind [Handle] passes, gives a
    non-empty header. *)
Theorem MethodsToString_empty_iff (methods : gset HttpMethod) :
  MethodsToString methods = "" ↔ methods = ∅.
Proof.
  split.
  - unfold MethodsToString. intros Hs.
    apply gset_HttpMethod_eq; split; intros Hin;
      try (exfalso; revert Hin; apply not_elem_of_empty);
      exfalso; revert Hs; repeat case_decide;
      try discriminate; contradiction.
  - intros ->. vm_compute. reflexivity.
Qed.

(** X2. The Allow string determines the set of accepted methods: two
    sets with the same string are equal. *)
Theorem MethodsToString_inj (s1 s2 : gset HttpMethod) :
  MethodsToString s1 = MethodsToString s2 -> s1 = s2.
Proof.
  unfold MethodsToString. intros Hs.
  apply gset_HttpMethod_eq; revert Hs; repeat case_decide;
    intros Hs; try discriminate Hs; tauto.
Qed.

Lemma string_app_assoc (a b c : string) : (a +:+ b) +:+ c = a +:+ (b +:+ c).
Proof.
  induction a as [|ch a IH]; [reflexivity|].
  change (String ch ((a +:+ b) +:+ c) = String ch (a +:+ (b +:+ c))).
  rewrite IH. reflexivity.
Qed.

Lemma AddMethod_nonempty_target (target method : string) :
  target ≠ "" -> AddMethod target method = target +:+ "," +:+ method.
Proof.
  intros Ht. unfold AddMethod. destruct target as [|ch target]; [contradiction|].
  reflexivity.
Qed.

Lemma fold_AddMethod_from (names : list string) (first : string) :
  first ≠ "" ->
  fold_left AddMethod names first = String.concat "," (first :: names).
Proof.
  revert first. induction names as [|name rest IH]; intros first Hf.
  - reflexivity.
  - cbn [fold_left]. rewrite AddMethod_nonempty_target by exact Hf.
    rewrite IH by (destruct first; [contradiction|discriminate]).
    cbn [String.concat]. destruct rest as [|r rest'].
    + reflexivity.
    + rewrite !string_app_assoc. reflexivity.
Qed.

(** X3. Calling [AddMethod] on an empty target with a list of names, one
    after the other, leaves the names joined by single commas, the empty
    names that come before the first non-empty one being dropped; a list
    of non-empty names is joined whole. *)
Theorem AddMethod_fold (names : list string) :
  fold_left AddMethod names "" = String.concat "," (skip_empty names)
  ∧ (Forall (fun name => name ≠ "") names -> skip_empty names = names).
Proof.
  split.
  - induction names as [|name rest IH]; [reflexivity|].
    destruct name as [|ch name].
    + exact IH.
    + cbn [fold_left skip_empty]. change (AddMethod "" (String ch name))
        with (String ch name).
      apply fold_AddMethod_from. discriminate.
  - intros Hnames. destruct Hnames as [|name rest Hname _]; [reflexivity|].
    destruct name; [contradiction|reflexivity].
Qed.

(** ** The URI arguments of the synthetic calls *)

Lemma collect_uri_arguments_loop (components : Arguments) :
  let r :=
    map_fold
      (fun name (_ : string) (acc : gset string * Arguments) =>
         ({[c_str name]} ∪ fst acc, <[name := ""]> (snd acc)))
      (∅, ∅) components in
  fst r = set_map c_str (dom components)
  ∧ snd r = gset_to_gmap "" (dom components).
Proof.
  cbn zeta.
  apply (map_fold_weak_ind
           (fun (r : gset string * Arguments) (m : Arguments) =>
              fst r = set_map c_str (dom m)
              ∧ snd r = gset_to_gmap "" (dom m))).
  - cbn. rewrite dom_empty_L, set_map_empty, gset_to_gmap_empty.
    split; reflexivity.
  - intros name value m r _ [Hnames Hargs]. cbn [fst snd].
    rewrite dom_insert_L, set_map_union_L, set_map_singleton_L.
    rewrite Hnames, Hargs, gset_to_gmap_union_singleton.
    split; reflexivity.
Qed.

Lemma collect_uri_arguments_result (components : Arguments)
  (hasTrailing : bool) :
  fst (collect_uri_arguments components hasTrailing)
  = set_map c_str (dom components) ∪ (if hasTrailing then {[ "..." ]} else ∅)
  ∧ snd (collect_uri_arguments components hasTrailing)
    = gset_to_gmap ""
        (dom components ∪ (if hasTrailing then {[ "..." ]} else ∅)).
Proof.
  destruct (collect_uri_arguments_loop components) as [Hnames Hargs].
  cbn zeta in Hnames, Hargs.
  unfold collect_uri_arguments. destruct hasTrailing; cbn [fst snd].
  - rewrite Hnames, Hargs, <- gset_to_gmap_union_singleton.
    split; [apply (comm_L (∪))|]. f_equal. apply (comm_L (∪)).
  - rewrite Hnames, Hargs, !union_empty_r_L. split; reflexivity.
Qed.

Lemma collect_uri_arguments_values (components : Arguments)
  (hasTrailing : bool) (name value : string) :
  snd (collect_uri_arguments components hasTrailing) !! name = Some value ->
  value = "".
Proof.
  destruct (collect_uri_arguments_result components hasTrailing) as [_ Ha].
  rewrite Ha. intros Hlook.
  apply lookup_gset_to_gmap_Some in Hlook. destruct Hlook as [_ <-].
  reflexivity.
Qed.

Lemma components_assertion_placeholders (names : gset string) :
  components_assertion (gset_to_gmap "" names) = true.
Proof.
  unfold components_assertion. apply bool_decide_eq_true.
  intros name value Hl. apply lookup_gset_to_gmap_Some in Hl.
  destruct Hl as [_ <-]. reflexivity.
Qed.

(** The exploration binds every capture name to the empty string: the
    [assert] of line 170 holds at each of its calls. *)
Lemma AllResources_components_assertion (node : RestApiHierarchy) :
  ∀ (path : UriComponents) (names : gset string),
    Forall (fun n => components_assertion (visited_components n) = true)
      (AllResources node path names).
Proof.
  revert node. fix IH 1. intros [handlers trailing children capture] path names.
  cbn [AllResources]. apply Forall_app. split; [|apply Forall_app; split].
  - destruct (IsEmpty handlers); [constructor|].
    constructor; [apply components_assertion_placeholders|constructor].
  - induction children as [|[segment child] rest IHrest]; [constructor|].
    apply Forall_app. split; [apply IH|exact IHrest].
  - destruct capture as [[name child]|]; [apply IH|constructor].
Qed.

(** X4. For components that meet the [assert] of line 170, and whatever
    the order in which the loop of lines 167-173 meets them, the capture
    names [Visit] collects are the keys of [components], each cut at its
    first NUL, with ["..."] added for a trailing wildcard; they are the
    keys themselves when none holds a NUL.  The URI arguments bind the
    whole keys, and ["..."] for a trailing wildcard, each to the empty
    string.  Every call of [Visit] the exploration makes meets the
    [assert]. *)
Theorem collect_uri_arguments_spec :
  (∀ (components : Arguments) (hasTrailing : bool),
     components_assertion components = true ->
     let trailing : gset string := if hasTrailing then {[ "..." ]} else ∅ in
     fst (collect_uri_arguments components hasTrailing)
     = set_map c_str (dom components) ∪ trailing
     ∧ snd (collect_uri_arguments components hasTrailing)
       = gset_to_gmap "" (dom components ∪ trailing)
     ∧ ((∀ name, name ∈ dom components -> c_str name = name) ->
        fst (collect_uri_arguments components hasTrailing)
        = dom components ∪ trailing))
  ∧ (∀ (root_ : RestApiHierarchy) (n : Visited),
       n ∈ AllResources root_ [] ∅ ->
       components_assertion (visited_components n) = true).
Proof.
  split.
  - intros components hasTrailing _. cbn zeta.
    destruct (collect_uri_arguments_result components hasTrailing) as [Hn Ha].
    split; [exact Hn|]. split; [exact Ha|].
    intros Hplain. rewrite Hn. f_equal.
    apply set_eq. intros name. rewrite elem_of_map. split.
    + intros (key & -> & Hkey). rewrite (Hplain key Hkey). exact Hkey.
    + intros Hname. exists name. split; [symmetry; apply Hplain, Hname|exact Hname].
  - intros root_ n Hn.
    pose proof (AllResources_components_assertion root_ [] ∅) as Hall.
    rewrite Forall_forall in Hall. apply Hall, Hn.
Qed.

(** ** What [Visit] stores: further properties *)

(** X5. A call of [Visit] for a path that is not yet a key of the path
    map, whether it returns or raises, leaves the entries of the other
    paths alone and stores under its own path exactly the fragments of
    its successful dry runs, each under the lowercase name of its method;
    the path becomes a key exactly when at least one dry run succeeds. *)
Theorem Visit_records_documented (n : Visited) (vs : OpenApiVisitor * State) :
  paths_ (fst vs) !! visited_path n = None ->
  (∀ p, p ≠ visited_path n ->
     paths_ (fst (visit_node n vs)) !! p = paths_ (fst vs) !! p)
  ∧ (is_Some (paths_ (fst (visit_node n vs)) !! visited_path n)
     ↔ documented (dry_runs_of n) (world (snd vs)) ≠ [])
  ∧ (∀ key fragment,
       default ∅ (paths_ (fst (visit_node n vs)) !! visited_path n) !! key
       = Some fragment
       ↔ (key, fragment) ∈ documented (dry_runs_of n) (world (snd vs))).
Proof.
  intros Hnone. rewrite (Visit_store_paths n vs Hnone).
  split; [intros p Hp; apply store_fragments_other; exact Hp|].
  pose proof (documented_NoDup n (world (snd vs))) as Hnd.
  destruct (documented (dry_runs_of n) (world (snd vs))) as [|m rest].
  - cbn. rewrite Hnone. split.
    + split; [intros [? [=]]|intros Hne; contradiction].
    + intros key fragment. cbn. rewrite lookup_empty, elem_of_nil.
      split; [discriminate|contradiction].
  - rewrite store_fragments_lookup by discriminate. rewrite Hnone.
    cbn [default from_option id]. split.
    + split; [discriminate|intros _; eexists; reflexivity].
    + intros key fragment. rewrite (foldl_add_member_lookup _ _ _ _ Hnd).
      split; [intros [Hin|[_ Hl]]; [exact Hin|]|intros Hin; left; exact Hin].
      rewrite lookup_empty in Hl. discriminate.
Qed.

(** X6. Once a path has an entry in the path map, no later call of
    [Visit] on the same visitor changes or removes it, whether these
    calls return or raise. *)
Theorem visit_each_keeps_entries (nodes : list Visited)
  (vs : OpenApiVisitor * State) (path : string) (entry : gmap string Json) :
  paths_ (fst vs) !! path = Some entry ->
  paths_ (fst (visit_each nodes vs)) !! path = Some entry.
Proof.
  revert vs. induction nodes as [|n rest IH]; intros vs Hentry; [exact Hentry|].
  cbn [visit_each]. apply IH.
  pose proof (Visit_paths n vs) as (Hother & Hsame & _). cbv zeta in Hother, Hsame.
  destruct (decide (path = visited_path n)) as [->|Hne].
  - rewrite Hsame; [exact Hentry|]. rewrite Hentry. eexists; reflexivity.
  - rewrite Hother by exact Hne. exact Hentry.
Qed.

(** X7. After any sequence of calls of [Visit] on a fresh visitor, no
    entry of the path map is an empty object: a path is recorded only
    with at least one method. *)
Theorem paths_entries_nonempty (nodes : list Visited) (s : State)
  (path : string) (entry : gmap string Json) :
  paths_ (fst (visit_each nodes (OpenApiVisitor_new, s))) !! path = Some entry ->
  entry ≠ ∅.
Proof.
  pose proof (visit_each_fragments nodes (OpenApiVisitor_new, s)) as Hstep.
  destruct Hstep as (k & _ & _ & _ & Hinv).
  { cbn. split; [lia|reflexivity]. }
  apply Hinv. intros p e. cbn. rewrite lookup_empty. discriminate.
Qed.

(** X8. After any sequence of calls of [Visit] on a fresh visitor that
    makes fewer than [2 ^ 64] dry runs, the success counter is the number
    of method members stored in the path map, over all its paths. *)
Theorem successPathsCount_counts_fragments (nodes : list Visited) (s : State) :
  registered_pairs nodes < 2 ^ SIZE_WIDTH ->
  successPathsCount_ (fst (visit_each nodes (OpenApiVisitor_new, s)))
  = fragment_count (paths_ (fst (visit_each nodes (OpenApiVisitor_new, s)))).
Proof.
  unfold registered_pairs. intros Hbound.
  pose proof (visit_each_fragments nodes (OpenApiVisitor_new, s)) as Hstep.
  destruct Hstep as (k & Hk & Hs & Hf & _).
  { cbn. split; [lia|reflexivity]. }
  rewrite Hs, Hf. cbn [fst OpenApiVisitor_new successPathsCount_ paths_].
  rewrite fragment_count_empty. unfold size_t_add.
  rewrite !Z.add_0_l. apply Z.mod_small. lia.
Qed.

(** ** What a documentation pass asks of its collaborators *)

Lemma events_step_refl (runs : list DryRun) (vs : OpenApiVisitor * State) :
  counters_in_range (fst vs) -> events_step runs vs vs.
Proof.
  intros [Ht Hs]. exists [], 0, 0. rewrite app_nil_r, !size_t_add_0 by assumption.
  cbn. repeat split; try lia. constructor.
Qed.

Lemma logged_warnings_app (l1 l2 : list Event) :
  logged_warnings (l1 ++ l2) = logged_warnings l1 + logged_warnings l2.
Proof.
  induction l1 as [|e rest IH]; [reflexivity|].
  cbn [app logged_warnings]. rewrite IH.
  destruct e as [call|[] line|o|a]; lia.
Qed.

Lemma events_step_trans runs1 runs2 vs0 vs1 vs2 :
  events_step runs1 vs0 vs1 -> events_step runs2 vs1 vs2 ->
  events_step (runs1 ++ runs2) vs0 vs2.
Proof.
  intros (l1 & j1 & k1 & Htr1 & Hev1 & Ht1 & Hs1 & Hj1 & Hk1 & Hw1 & Hle1 & Hb1 & Hc1)
         (l2 & j2 & k2 & Htr2 & Hev2 & Ht2 & Hs2 & Hj2 & Hk2 & Hw2 & Hle2 & Hb2 & Hc2).
  exists (l1 ++ l2), (j1 + j2), (k1 + k2).
  rewrite Htr2, Htr1, Ht2, Ht1, Hs2, Hs1, !size_t_add_add, app_assoc.
  rewrite logged_warnings_app, handled_calls_app, !length_app, !Nat2Z.inj_add.
  split; [reflexivity|]. split; [apply Forall_app; split; assumption|].
  split; [reflexivity|]. split; [reflexivity|].
  split; [lia|]. split; [lia|]. split; [lia|]. split; [lia|]. split; [lia|].
  intros Hcont. apply Forall_app in Hcont. destruct Hcont as [Hcont1 Hcont2].
  specialize (Hc1 Hcont1). specialize (Hc2 Hcont2). lia.
Qed.

Lemma events_step_in_range runs vs vs' :
  events_step runs vs vs' -> counters_in_range (fst vs').
Proof.
  intros (l & j & k & _ & _ & Ht & Hs & _). unfold counters_in_range.
  rewrite Ht, Hs. split; apply size_t_add_range.
Qed.

Lemma apply_dry_runs_events (path : string) (runs : list DryRun)
  (vs : OpenApiVisitor * State) :
  counters_in_range (fst vs) ->
  Forall (fun d => is_documentation_call (dr_call d)) runs ->
  events_step runs vs (snd (apply_dry_runs path runs vs)).
Proof.
  revert vs. induction runs as [|d rest IH]; intros [vis s] Hrange Hcalls.
  - apply events_step_refl. exact Hrange.
  - apply Forall_cons in Hcalls. destruct Hcalls as [Hcall Hcalls].
    cbn [apply_dry_runs fst snd].
    destruct (dry_run_outcome d (world s)) as [[v| |e] w'] eqn:Hd.
    + match goal with
      | |- context [apply_dry_runs path rest ?vs1] =>
          destruct (IH vs1) as
            (l & j & k & Htr & Hev & Ht & Hs & Hj & Hk & Hw & Hle & Hb & Hc);
            [split; cbn; apply size_t_add_range|exact Hcalls|]
      end.
      cbn [fst snd trace world record_path incr_total
             totalPathsCount_ successPathsCount_] in *.
      exists (EvHandle (dr_call d) :: l), (1 + j), (1 + k).
      rewrite Htr, Ht, Hs, !size_t_incr_alt, !size_t_add_add, <- app_assoc.
      unfold handled_calls in *. cbn [omap list_omap length logged_warnings app].
      split; [reflexivity|]. split; [constructor; assumption|].
      split; [reflexivity|]. split; [reflexivity|].
      split; [lia|]. split; [lia|]. split; [lia|]. split; [lia|]. split; [lia|].
      intros Hcont. apply Forall_cons in Hcont. destruct Hcont as [_ Hcont].
      specialize (Hc Hcont). lia.
    + match goal with
      | |- context [apply_dry_runs path rest ?vs1] =>
          destruct (IH vs1) as
            (l & j & k & Htr & Hev & Ht & Hs & Hj & Hk & Hw & Hle & Hb & Hc);
            [destruct Hrange; split; cbn; [apply size_t_add_range|assumption]
            |exact Hcalls|]
      end.
      cbn [fst snd trace world record_event incr_total
             totalPathsCount_ successPathsCount_] in *.
      exists (EvHandle (dr_call d) :: ignoring_warning (dr_method d) path :: l),
        (1 + j), k.
      rewrite Htr, Ht, Hs, !size_t_incr_alt, !size_t_add_add, <- !app_assoc.
      unfold handled_calls, ignoring_warning in *.
      cbn [omap list_omap length logged_warnings app].
      split; [reflexivity|].
      split; [constructor; [assumption|constructor; [reflexivity|assumption]]|].
      split; [reflexivity|]. split; [reflexivity|].
      split; [lia|]. split; [lia|]. split; [lia|]. split; [lia|]. split; [lia|].
      intros Hcont. apply Forall_cons in Hcont. destruct Hcont as [_ Hcont].
      specialize (Hc Hcont). lia.
    + destruct Hrange as [Ht Hs].
      exists [EvHandle (dr_call d)], 1, 0.
      cbn [fst snd trace incr_total totalPathsCount_ successPathsCount_].
      rewrite size_t_incr_alt, size_t_add_0 by assumption.
      cbn. split; [reflexivity|].
      split; [constructor; [assumption|constructor]|].
      split; [reflexivity|]. split; [reflexivity|].
      split; [reflexivity|]. split; [lia|]. split; [lia|]. split; [lia|].
      split; [lia|].
      intros Hcont. apply Forall_cons in Hcont. destruct Hcont as [Hcont _].
      exfalso. apply (Hcont (world s) e). rewrite Hd. reflexivity.
Qed.

Lemma documentation_call_shape (method : HttpMethod) (uriArguments : Arguments)
  (uri : UriComponents) :
  (∀ name value, uriArguments !! name = Some value -> value = "") ->
  is_documentation_call (documentation_call method uriArguments uri).
Proof.
  intros Hvalues. unfold is_documentation_call.
  destruct method; cbn; repeat split; try reflexivity; exact Hvalues.
Qed.

Lemma dry_runs_of_calls (n : Visited) :
  Forall (fun d => is_documentation_call (dr_call d)) (dry_runs_of n).
Proof.
  apply Forall_forall. intros d Hd. apply dry_runs_of_elem in Hd.
  unfold dry_run_of in Hd.
  destruct (handler_of (visited_resource n) (dr_method d)); [|discriminate].
  injection Hd as <-. cbn [dr_call make_dry_run].
  apply documentation_call_shape. intros name value Hl.
  apply (collect_uri_arguments_values (visited_components n)
           (visited_hasTrailing n) name value Hl).
Qed.

Lemma Visit_events (n : Visited) (vs : OpenApiVisitor * State) :
  counters_in_range (fst vs) ->
  events_step (dry_runs_of n) vs (visit_node n vs).
Proof.
  intros Hrange. unfold visit_node. rewrite Visit_unfold.
  destruct (decide (is_Some (paths_ (fst vs) !! visited_path n))).
  - apply events_step_refl. exact Hrange.
  - pose proof (apply_dry_runs_events (visited_path n) (dry_runs_of n) vs
                  Hrange (dry_runs_of_calls n)) as Hstep.
    destruct (apply_dry_runs (visited_path n) (dry_runs_of n) vs)
      as [[[]|e] vs1]; exact Hstep.
Qed.

Lemma visit_each_events (nodes : list Visited) (vs : OpenApiVisitor * State) :
  counters_in_range (fst vs) ->
  events_step (all_dry_runs nodes) vs (visit_each nodes vs).
Proof.
  revert vs. induction nodes as [|n rest IH]; intros vs Hrange.
  - apply events_step_refl. exact Hrange.
  - cbn [visit_each]. unfold all_dry_runs. cbn [flat_map].
    pose proof (Visit_events n vs Hrange) as Hn. unfold visit_node in Hn.
    eapply events_step_trans; [exact Hn|]. apply IH.
    apply (events_step_in_range _ _ _ Hn).
Qed.

(** The exploration makes the calls of [Visit] of a prefix of the nodes:
    all of them, or those up to the first that raises. *)
Lemma VisitAll_visit_each (nodes : list Visited) (vs : OpenApiVisitor * State) :
  ∃ visited,
    visited `prefix_of` nodes
    ∧ snd (VisitAll nodes vs) = visit_each visited vs.
Proof.
  revert vs. induction nodes as [|n rest IH]; intros vs.
  - exists []. split; reflexivity.
  - rewrite VisitAll_cons.
    destruct (OpenApiVisitor_Visit (visited_resource n) (visited_uri n)
                (visited_hasTrailing n) (visited_components n)
                (visited_trailing n) vs) as [[b|e] vs'] eqn:Hv.
    + destruct (IH vs') as (visited & Hpre & Heq).
      exists (n :: visited). split; [apply prefix_cons; exact Hpre|].
      cbn [visit_each]. rewrite Hv. exact Heq.
    + exists [n]. split; [apply prefix_cons, prefix_nil|].
      cbn [visit_each]. rewrite Hv. reflexivity.
Qed.

(** X9. Whether [GenerateOpenApiDocumentation] returns or raises, all it
    adds to the trace are handler invocations and warnings: every handler
    is invoked with a call of documentation origin, on a fresh output for
    its method, with no remote address, user name, header, trailing
    segment, query argument or body, and with every URI argument empty;
    it finalizes no output and sends no method-not-allowed answer. *)
Theorem GenerateOpenApiDocumentation_events (root_ : RestApiHierarchy)
  (s : State) :
  ∃ suffix,
    trace (snd (GenerateOpenApiDocumentation root_ s)) = trace s ++ suffix
    ∧ Forall documentation_event suffix.
Proof.
  rewrite GenerateOpenApiDocumentation_unfold.
  destruct (VisitAll_visit_each (AllResources root_ [] ∅) (OpenApiVisitor_new, s))
    as (visited & _ & Heq).
  pose proof (visit_each_events visited (OpenApiVisitor_new, s)
                OpenApiVisitor_new_in_range)
    as (l & j & k & Htr & Hev & _).
  rewrite <- Heq in Htr. cbn [snd trace] in Htr.
  destruct (VisitAll (AllResources root_ [] ∅) (OpenApiVisitor_new, s))
    as [[[]|e] [v1 s1]]; cbn [fst snd trace record_event] in *.
  - exists (l ++ [EvLog LOG_WARNING (coverage_line v1)]).
    rewrite Htr, <- app_assoc. split; [reflexivity|].
    apply Forall_app. split; [exact Hev|]. constructor; [reflexivity|constructor].
  - exists l. split; assumption.
Qed.

(** X10. After any sequence of calls of [Visit] on a fresh visitor that
    makes fewer than [2 ^ 64] dry runs, the total counter is the number
    of handler invocations made; the successes and the warnings logged
    together never exceed it, and when no dry run lets an exception
    escape they add up to it: every counted pair is either documented or
    warned about. *)
Theorem totalPathsCount_accounting (nodes : list Visited) (s : State) :
  registered_pairs nodes < 2 ^ SIZE_WIDTH ->
  ∃ suffix,
    trace (snd (visit_each nodes (OpenApiVisitor_new, s))) = trace s ++ suffix
    ∧ totalPathsCount_ (fst (visit_each nodes (OpenApiVisitor_new, s)))
      = Z.of_nat (length (handled_calls suffix))
    ∧ successPathsCount_ (fst (visit_each nodes (OpenApiVisitor_new, s)))
      + logged_warnings suffix
      <= totalPathsCount_ (fst (visit_each nodes (OpenApiVisitor_new, s)))
    ∧ (Forall contained (all_dry_runs nodes) ->
       totalPathsCount_ (fst (visit_each nodes (OpenApiVisitor_new, s)))
       = successPathsCount_ (fst (visit_each nodes (OpenApiVisitor_new, s)))
         + logged_warnings suffix).
Proof.
  unfold registered_pairs. intros Hbound.
  pose proof (visit_each_events nodes (OpenApiVisitor_new, s)
                OpenApiVisitor_new_in_range)
    as (l & j & k & Htr & _ & Ht & Hs & Hj & Hk & Hw & Hle & Hb & Hc).
  exists l. split; [exact Htr|].
  rewrite Ht, Hs. unfold size_t_add.
  cbn [fst OpenApiVisitor_new totalPathsCount_ successPathsCount_].
  rewrite !Z.add_0_l, !Z.mod_small by lia.
  split; [exact Hj|]. split; [exact Hle|exact Hc].
Qed.

(** ** The coverage percentage *)

(** X11. For a trie with fewer than [2 ^ 64] registered (path, method)
    pairs, the [float] coverage of a pass that returns is zero or a
    positive finite number, never a NaN or an infinity; its rounding
    lies between 0 and 100, so [boost::math::iround] does not raise and
    the cast to [unsigned int] loses nothing. *)
Theorem coverage_percentage_bounds (root_ : RestApiHierarchy) (s s' : State)
  (target : Json) (visitor : OpenApiVisitor) :
  registered_pairs (AllResources root_ [] ∅) < 2 ^ SIZE_WIDTH ->
  GenerateOpenApiDocumentation root_ s = (Ret (target, visitor), s') ->
  (coverage visitor = S754_zero false
   ∨ ∃ m e, coverage visitor = S754_finite false m e)
  ∧ 0 <= iround (coverage visitor) <= 100
  ∧ static_cast_unsigned_int (iround (coverage visitor))
    = iround (coverage visitor).
Proof.
  unfold registered_pairs. intros Hbound Hgen.
  rewrite GenerateOpenApiDocumentation_unfold in Hgen.
  pose proof (VisitAll_counters (AllResources root_ [] ∅)
                (OpenApiVisitor_new, s) OpenApiVisitor_new_in_range)
    as (j & k & Hk & Hj & Et & Es & _).
  destruct (VisitAll (AllResources root_ [] ∅) (OpenApiVisitor_new, s))
    as [[[]|e] [v1 s1]]; [|discriminate].
  injection Hgen as <- <- <-. cbn [fst snd] in *.
  unfold size_t_add in Et, Es. cbn [OpenApiVisitor_new
    totalPathsCount_ successPathsCount_] in Et, Es.
  unfold SIZE_WIDTH in *.
  rewrite Z.add_0_l, Z.mod_small in Et by lia.
  rewrite Z.add_0_l, Z.mod_small in Es by lia.
  rewrite coverage_unfold, coverage_total_max by (unfold GetTotalPathsCount; lia).
  unfold GetSuccessPathsCount, GetTotalPathsCount. rewrite Et, Es.
  destruct (iround_coverage k (Z.max j 1)) as [Hfinite Hrange]; [lia|lia|].
  split; [exact Hfinite|]. split; [exact Hrange|].
  unfold static_cast_unsigned_int. apply Z.mod_small. lia.
Qed.

End Properties.

(** * Concrete runs *)

Section Runs.
#[local] Existing Instance demo.

(** *** Side conditions of the demonstration tries *)

Lemma demo_archive_contained :
  Forall contained (all_dry_runs (AllResources demo_archive [] ∅)).
Proof.
  unfold all_dry_runs. cbn.
  repeat apply Forall_cons_2; try apply Forall_nil_2.
  all: intros w e; cbn; discriminate.
Qed.

Lemma demo_archive_deterministic :
  Forall deterministic (all_dry_runs (AllResources demo_archive [] ∅)).
Proof.
  unfold all_dry_runs. cbn.
  repeat apply Forall_cons_2; try apply Forall_nil_2.
  all: intros w1 w2; reflexivity.
Qed.

Lemma demo_archive_distinct :
  NoDup (map visited_path (AllResources demo_archive [] ∅)).
Proof. apply (bool_decide_unpack (NoDup _)). vm_compute. exact I. Qed.

Lemma demo_two_thirds_contained :
  Forall contained (all_dry_runs (AllResources demo_two_thirds [] ∅)).
Proof.
  unfold all_dry_runs. cbn.
  repeat apply Forall_cons_2; try apply Forall_nil_2.
  all: intros w e; cbn; discriminate.
Qed.

Lemma demo_two_thirds_distinct :
  NoDup (map visited_path (AllResources demo_two_thirds [] ∅)).
Proof. apply (bool_decide_unpack (NoDup _)). vm_compute. exact I. Qed.

(** *** The examples of the specification *)

(** Registration order plays no part in the Allow header. *)
Example MethodsToString_demo :
  MethodsToString {[ HttpMethod_Delete; HttpMethod_Get ]} = "GET,DELETE"
  ∧ MethodsToString {[ HttpMethod_Put; HttpMethod_Post ]} = "POST,PUT"
  ∧ MethodsToString ∅ = "".
Proof. repeat split; vm_compute; reflexivity. Qed.

(** Method fallback: only GET is registered at [/r]; a POST is not
    dispatched, the accepted methods are [{GET}], and the Allow header is
    exactly "GET". *)
Example Handle_method_fallback :
  Handle demo_r (demo_request HttpMethod_Post ["r"] ∅) demo_state =
    (Ret true,
     {| world := 0%nat;
        trace :=
          [EvLog LOG_INFO
             [LogText "REST method "; LogText "POST";
              LogText " not allowed on: "; LogText "/r"];
           EvSendMethodNotAllowed "GET"] |})
  ∧ GetAcceptedMethods demo_r ["r"] = {[ HttpMethod_Get ]}.
Proof. split; vm_compute; reflexivity. Qed.

Example Handle_not_served :
  Handle demo_r (demo_request HttpMethod_Get ["q"] ∅) demo_state
  = (Ret false, demo_state).
Proof. vm_compute. reflexivity. Qed.

Example Handle_dispatched :
  fst (Handle demo_r (demo_request HttpMethod_Get ["r"] ∅) demo_state)
  = Ret true
  ∧ last (trace (snd (Handle demo_r (demo_request HttpMethod_Get ["r"] ∅)
                        demo_state)))
    = Some (EvFinalize (RestApiOutput_new HttpMethod_Get)).
Proof. split; vm_compute; reflexivity. Qed.

Example negotiation_examples :
  convertJsonToXml_
    (negotiated_output HttpMethod_Get
       {[ "accept" := "application/json;application/xml" ]}) = true
  ∧ convertJsonToXml_
      (negotiated_output HttpMethod_Get
         {[ "accept" := "application/xml;application/json" ]}) = false
  ∧ convertJsonToXml_ (negotiated_output HttpMethod_Get ∅) = false.
Proof. repeat split; vm_compute; reflexivity. Qed.

(** The counters are machine words: one more than the largest [size_t]
    is zero. *)
Example size_t_incr_wraps :
  size_t_incr (2 ^ SIZE_WIDTH - 1) = 0 ∧ size_t_incr 41 = 42.
Proof. split; vm_compute; reflexivity. Qed.

(** The coverage is computed in [float]: [100.0f] is [13107200 * 2^-17],
    a counter above [2^24] is rounded, and halves round away from zero.
    With 89785 successes over 131073 pairs the [float] quotient is 68.5,
    which gives 69, where the exact quotient, just below 68.5, would
    give 68. *)
Example coverage_examples :
  float_100 = S754_finite false 13107200 (-17)
  ∧ static_cast_float 16777217 = S754_finite false 8388608 1
  ∧ iround (coverage_of 3 6) = 50
  ∧ iround (coverage_of 1 3) = 33
  ∧ iround (coverage_of 2 3) = 67
  ∧ iround (coverage_of 1 8) = 13
  ∧ iround (coverage_of 0 1) = 0
  ∧ coverage_of 89785 131073 = S754_finite false 8978432 (-17)
  ∧ iround (coverage_of 89785 131073) = 69
  ∧ Qfloor (100 * inject_Z 89785 / inject_Z 131073 + (1 # 2))%Q = 68.
Proof. repeat split; vm_compute; reflexivity. Qed.

Example TokenizeString_examples :
  TokenizeString "application/json;application/xml" ";"%char
  = ["application/json"; "application/xml"]
  ∧ TokenizeString "text/html" ";"%char = ["text/html"]
  ∧ TokenizeString "" ";"%char = [""].
Proof. repeat split; vm_compute; reflexivity. Qed.

(** Precedence and trailing segments in the trie modelled from the
    specification: [/a/b] reaches the literal node with nothing bound,
    [/a/c] the capture node with [x] bound to [c], and [/plugins/x/y/z]
    the wildcard node with the three segments left over. *)
Example LookupResource_examples :
  handled_calls
    (trace (snd (Handle demo_precedence
                   (demo_request HttpMethod_Get ["a"; "b"] ∅) demo_state)))
  = [RestApiGetCall
       (live_context
          (make_visitor (RestApiOutput_new HttpMethod_Get)
             (demo_request HttpMethod_Get ["a"; "b"] ∅))
          ∅ [] ["a"; "b"]) ∅]
  ∧ handled_calls
      (trace (snd (Handle demo_precedence
                     (demo_request HttpMethod_Get ["a"; "c"] ∅) demo_state)))
    = [RestApiGetCall
         (live_context
            (make_visitor (RestApiOutput_new HttpMethod_Get)
               (demo_request HttpMethod_Get ["a"; "c"] ∅))
            {[ "x" := "c" ]} [] ["a"; "c"]) ∅]
  ∧ handled_calls
      (trace (snd (Handle demo_precedence
                     (demo_request HttpMethod_Get ["plugins"; "x"; "y"; "z"] ∅)
                     demo_state)))
    = [RestApiGetCall
         (live_context
            (make_visitor (RestApiOutput_new HttpMethod_Get)
               (demo_request HttpMethod_Get ["plugins"; "x"; "y"; "z"] ∅))
            ∅ ["x"; "y"; "z"] ["plugins"; "x"; "y"; "z"]) ∅].
Proof. repeat split; vm_compute; reflexivity. Qed.

(** *** C3: a build without PugiXML ignores the header *)

Lemma negotiation_without_pugixml :
  convertJsonToXml_
    (@negotiated_output demo_without_pugixml HttpMethod_Get
       {[ "accept" := "application/json;application/xml" ]}) ≠ true.
Proof. vm_compute. discriminate. Qed.

(** *** C4: a handler that raises *)

Lemma Visit_with_raising_handler :
  HasHandler
    (demo_get_only (demo_raising (OrthancException (ErrorCode_Other 3))))
    HttpMethod_Get = true
  ∧ fst (HttpHandlerVisitor_Visit demo_live_visitor
           (demo_get_only (demo_raising (OrthancException (ErrorCode_Other 3))))
           ["r"] false ∅ [] demo_state)
    ≠ Ret true.
Proof. split; [reflexivity|]. vm_compute. discriminate. Qed.

(** *** The theorems at the demonstration tries *)

Lemma probe_failure_is_contained_witness :
  Probe HttpMethod_Post demo_studies ["studies"] "/studies" ∅ ∅
    (OpenApiVisitor_new, demo_state)
  = (Ret tt,
     (incr_total OpenApiVisitor_new,
      {| world := 1%nat;
         trace :=
           [EvHandle (documentation_call HttpMethod_Post ∅ ["studies"]);
            ignoring_warning HttpMethod_Post "/studies"] |}))
  ∧ ∃ vs' suffix,
      VisitAll (AllResources demo_archive [] ∅) (OpenApiVisitor_new, demo_state)
      = (Ret tt, vs')
      ∧ trace (snd vs') = suffix
      ∧ length (handled_calls suffix) = 6%nat.
Proof.
  destruct probe_failure_is_contained as (_ & Hblock & _ & Hpass). split.
  - apply (Hblock HttpMethod_Post demo_studies ["studies"] "/studies" ∅ ∅
             OpenApiVisitor_new demo_state
             (demo_raising (OrthancException (ErrorCode_Other 3)))
             (OrthancException (ErrorCode_Other 3)) 1%nat).
    + reflexivity.
    + reflexivity.
    + left. exists (ErrorCode_Other 3). reflexivity.
  - destruct (Hpass (AllResources demo_archive [] ∅) demo_state
                demo_archive_distinct demo_archive_contained)
      as (vs' & suffix & Hall & Htr & Hcalls & _).
    exists vs', suffix. split; [exact Hall|]. split; [exact Htr|].
    rewrite Hcalls. vm_compute. reflexivity.
Defined.

(** Three successes over six pairs give 50%; two over three give a
    quotient that is no [float], 66.666..., and 67%. *)
Lemma GenerateOpenApiDocumentation_counts_witness :
  (∃ target visitor s',
     GenerateOpenApiDocumentation demo_archive demo_state
     = (Ret (target, visitor), s')
     ∧ GetTotalPathsCount visitor = 6
     ∧ GetSuccessPathsCount visitor = 3
     ∧ coverage_total visitor = 6
     ∧ coverage visitor = S754_finite false 13107200 (-18)
     ∧ iround (coverage visitor) = 50)
  ∧ (∃ target visitor s',
       GenerateOpenApiDocumentation demo_two_thirds demo_state
       = (Ret (target, visitor), s')
       ∧ GetTotalPathsCount visitor = 3
       ∧ GetSuccessPathsCount visitor = 2
       ∧ coverage visitor = S754_finite false 8738133 (-17)
       ∧ last (trace s')
         = Some (EvLog LOG_WARNING
                   [LogText "The documentation of the REST API contains ";
                    LogNumber 2;
                    LogText " paths over a total of ";
                    LogNumber 3;
                    LogText " paths ";
                    LogText "(";
                    LogNumber 67;
                    LogText "%)"])).
Proof.
  split.
  - pose proof (GenerateOpenApiDocumentation_counts demo_archive demo_state)
      as Hthm.
    cbn zeta in Hthm. destruct Hthm as [Hcounts Hreturns];
      [vm_compute; reflexivity|].
    destruct (Hreturns demo_archive_distinct demo_archive_contained)
      as (target & visitor & s' & Hgen).
    exists target, visitor, s'. split; [exact Hgen|].
    destruct (Hcounts target visitor s' Hgen) as (Ht & Hs & Hc & _ & Hcov & _).
    rewrite Ht, Hs, Hc, Hcov. repeat split; vm_compute; reflexivity.
  - pose proof (GenerateOpenApiDocumentation_counts demo_two_thirds demo_state)
      as Hthm.
    cbn zeta in Hthm. destruct Hthm as [Hcounts Hreturns];
      [vm_compute; reflexivity|].
    destruct (Hreturns demo_two_thirds_distinct demo_two_thirds_contained)
      as (target & visitor & s' & Hgen).
    exists target, visitor, s'. split; [exact Hgen|].
    destruct (Hcounts target visitor s' Hgen)
      as (Ht & Hs & _ & _ & Hcov & _ & _ & Hlog).
    rewrite Ht, Hs, Hcov, Hlog. repeat split; vm_compute; reflexivity.
Defined.

Lemma GenerateOpenApiDocumentation_document_witness :
  ∃ target visitor s' members,
    GenerateOpenApiDocumentation demo_archive demo_state
    = (Ret (target, visitor), s')
    ∧ target = JsonObject members
    ∧ dom members = {[ "info"; "openapi"; "servers"; "paths" ]}
    ∧ dom (paths_ visitor) ⊆ {[ "/studies"; "/studies/{id}"; "/tools" ]}
    ∧ ∃ entry,
        paths_ visitor !! "/studies/{id}" = Some entry
        ∧ entry !! "get"
          = Some (JsonObject {[ "summary" := JsonString "one" ]}).
Proof.
  destruct (GenerateOpenApiDocumentation_document demo_archive demo_state)
    as [Hshape Hreturns].
  destruct (Hreturns demo_archive_distinct demo_archive_contained)
    as (target & visitor & s' & Hgen).
  destruct (Hshape target visitor s' Hgen)
    as (members & Ht & Hdom & _ & _ & _ & _ & Hpaths & Hstored).
  exists target, visitor, s', members.
  split; [exact Hgen|]. split; [exact Ht|]. split; [exact Hdom|]. split.
  - intros path Hpath. apply elem_of_dom in Hpath. destruct Hpath as [entry He].
    destruct (Hpaths path entry He) as (before & n & after & Hnodes & -> & _).
    assert (Hn : n ∈ AllResources demo_archive [] ∅).
    { rewrite Hnodes. apply elem_of_app. right. apply list_elem_of_here. }
    revert Hn. cbn. rewrite !elem_of_cons, elem_of_nil.
    intros [->|[->|[->|[]]]]; cbn; set_solver.
  - apply (Hstored (take 1 (AllResources demo_archive [] ∅)) demo_study_node
             (drop 2 (AllResources demo_archive [] ∅))).
    + vm_compute. reflexivity.
    + replace (documented (dry_runs_of demo_study_node)
                 (world_after
                    (all_dry_runs (take 1 (AllResources demo_archive [] ∅)))
                    (world demo_state)))
        with [("get", JsonObject {[ "summary" := JsonString "one" ]})]
        by (vm_compute; reflexivity).
      apply list_elem_of_here.
Defined.

Lemma GenerateOpenApiDocumentation_idempotent_witness :
  fst (GenerateOpenApiDocumentation demo_archive
         (snd (GenerateOpenApiDocumentation demo_archive demo_state)))
  = fst (GenerateOpenApiDocumentation demo_archive demo_state).
Proof.
  apply GenerateOpenApiDocumentation_idempotent.
  exact demo_archive_deterministic.
Defined.

Lemma successPathsCount_le_totalPathsCount_witness :
  successPathsCount_
    (fst (visit_each (AllResources demo_archive [] ∅)
            (OpenApiVisitor_new, demo_state)))
  <= totalPathsCount_
       (fst (visit_each (AllResources demo_archive [] ∅)
               (OpenApiVisitor_new, demo_state)))
  ∧ ∀ target visitor s',
      GenerateOpenApiDocumentation demo_archive demo_state
      = (Ret (target, visitor), s') ->
      coverage_assertion visitor = true.
Proof.
  apply successPathsCount_le_totalPathsCount; vm_compute; reflexivity.
Defined.

Lemma duplicate_path_aborts_pass_witness :
  fst (GenerateOpenApiDocumentation demo_clash demo_state)
  = Throw (OrthancException ErrorCode_InternalError)
  ∧ handled_calls
      (trace (snd (GenerateOpenApiDocumentation demo_clash demo_state)))
    = [documentation_call HttpMethod_Get {[ "..." := "" ]} ["a"]].
Proof.
  destruct (duplicate_path_aborts_pass demo_clash demo_state
              [demo_clash_first] [] demo_clash_second
              (fst (snd (VisitAll [demo_clash_first]
                           (OpenApiVisitor_new, demo_state))))
              (snd (snd (VisitAll [demo_clash_first]
                           (OpenApiVisitor_new, demo_state)))))
    as [_ Hgen].
  - vm_compute. reflexivity.
  - vm_compute. reflexivity.
  - vm_compute. eauto.
  - rewrite Hgen. split; vm_compute; reflexivity.
Defined.

(** *** The further properties at the demonstration tries *)

Lemma MethodsToString_inj_witness :
  ({[ HttpMethod_Get; HttpMethod_Delete ]} : gset HttpMethod)
  = {[ HttpMethod_Delete; HttpMethod_Get ]}.
Proof. apply MethodsToString_inj. vm_compute. reflexivity. Defined.

(** Only the empty names at the head are dropped: one that comes later
    is joined like the others. *)
Example AddMethod_fold_examples :
  fold_left AddMethod ["GET"; "POST"; "DELETE"] "" = "GET,POST,DELETE"
  ∧ fold_left AddMethod [""; "GET"] "" = "GET"
  ∧ fold_left AddMethod ["GET"; ""; "POST"] "" = "GET,,POST"
  ∧ fold_left AddMethod ["GET"; ""] "" = "GET,".
Proof. repeat split; reflexivity. Qed.

(** A name is collected up to its first NUL, and bound whole. *)
Example collect_uri_arguments_examples :
  collect_uri_arguments {[ "id" := "" ]} true
  = ({[ "id"; "..." ]}, {[ "id" := ""; "..." := "" ]})
  ∧ fst (collect_uri_arguments
           {[ String "a" (String Ascii.zero "b") := "" ]} false)
    = {[ "a" ]}
  ∧ dom (snd (collect_uri_arguments
                {[ String "a" (String Ascii.zero "b") := "" ]} false))
    = {[ String "a" (String Ascii.zero "b") ]}.
Proof. repeat split; vm_compute; reflexivity. Qed.

(** GET is documented, DELETE raises a bad cast and PUT has no
    documentation: one member is stored. *)
Lemma Visit_records_documented_witness :
  documented (dry_runs_of demo_study_node) 0%nat
  = [("get", JsonObject {[ "summary" := JsonString "one" ]})]
  ∧ is_Some
      (paths_ (fst (visit_node demo_study_node (OpenApiVisitor_new, demo_state)))
       !! visited_path demo_study_node).
Proof.
  split; [reflexivity|].
  destruct (Visit_records_documented demo_study_node
              (OpenApiVisitor_new, demo_state)) as (_ & Hkey & _);
    [reflexivity|].
  apply Hkey. vm_compute. discriminate.
Defined.

(** The second node of [demo_clash] flattens to the path of the first:
    its call raises, and the entry of the first stays. *)
Lemma visit_each_keeps_entries_witness :
  paths_ (fst (visit_each [demo_clash_second]
                 (visit_each [demo_clash_first]
                    (OpenApiVisitor_new, demo_state))))
  !! "/a/{...}"
  = Some {[ "get" := JsonObject {[ "summary" := JsonString "a" ]} ]}.
Proof. apply visit_each_keeps_entries. vm_compute. reflexivity. Defined.

Lemma paths_entries_nonempty_witness :
  ({[ "get" := JsonObject {[ "summary" := JsonString "a" ]} ]}
     : gmap string Json) ≠ ∅.
Proof.
  apply (paths_entries_nonempty [demo_clash_first; demo_clash_second]
           demo_state "/a/{...}").
  vm_compute. reflexivity.
Defined.

Lemma successPathsCount_counts_fragments_witness :
  successPathsCount_
    (fst (visit_each (AllResources demo_archive [] ∅)
            (OpenApiVisitor_new, demo_state)))
  = fragment_count
      (paths_ (fst (visit_each (AllResources demo_archive [] ∅)
                      (OpenApiVisitor_new, demo_state)))).
Proof.
  apply successPathsCount_counts_fragments. vm_compute. reflexivity.
Defined.

(** Six handlers are invoked for three successes and three warnings. *)
Lemma totalPathsCount_accounting_witness :
  ∃ suffix,
    trace (snd (visit_each (AllResources demo_archive [] ∅)
                  (OpenApiVisitor_new, demo_state))) = suffix
    ∧ totalPathsCount_
        (fst (visit_each (AllResources demo_archive [] ∅)
                (OpenApiVisitor_new, demo_state)))
      = Z.of_nat (length (handled_calls suffix))
    ∧ logged_warnings suffix = 3.
Proof.
  destruct (totalPathsCount_accounting (AllResources demo_archive [] ∅)
              demo_state) as (suffix & Htr & Htotal & _ & Hsum);
    [vm_compute; reflexivity|].
  exists suffix. split; [exact Htr|]. split; [exact Htotal|].
  specialize (Hsum demo_archive_contained).
  assert (Hcount :
    totalPathsCount_
      (fst (visit_each (AllResources demo_archive [] ∅)
              (OpenApiVisitor_new, demo_state)))
    - successPathsCount_
        (fst (visit_each (AllResources demo_archive [] ∅)
                (OpenApiVisitor_new, demo_state))) = 3)
    by (vm_compute; reflexivity).
  lia.
Defined.

Lemma coverage_percentage_bounds_witness :
  ∃ target visitor s',
    GenerateOpenApiDocumentation demo_archive demo_state
    = (Ret (target, visitor), s')
    ∧ 0 <= iround (coverage visitor) <= 100
    ∧ static_cast_unsigned_int (iround (coverage visitor))
      = iround (coverage visitor).
Proof.
  destruct (GenerateOpenApiDocumentation_returns demo_archive demo_state
              demo_archive_distinct demo_archive_contained)
    as (target & visitor & s' & Hgen).
  exists target, visitor, s'. split; [exact Hgen|].
  apply (coverage_percentage_bounds demo_archive demo_state s' target visitor);
    [vm_compute; reflexivity|exact Hgen].
Defined.

End Runs.
